(** * Stock-information plugin: the portfolio table engine and its helpers

    A shallow embedding of the TypeScript plugin (the multi-provider
    variant, with the Finnhub adapter of the API-keyed variant next to
    it) and the properties of its table reconciliation, number parsing
    and formatting, provider fallback and quote rendering.

    Conventions of the embedding.
    - A JavaScript string is a [string] whose characters are its code
      units; the development covers code units 0-255 (Latin-1).
    - A JavaScript number is a binary64 value, a [spec_float] with
      precision 53 and maximal exponent 1024.
    - [Map<string, Quote>] is a [gmap string Quote].
    - Code that talks to the host (network, editor, notices) threads a
      [World] through a small state monad; a thrown value is returned
      in a sum. *)

From Stdlib Require Import ZArith List String Ascii Bool Lia SpecFloat DecimalString.
From stdpp Require Import gmap strings list.

Import ListNotations.
Local Open Scope string_scope.

(** Let [simpl] compute string concatenation on a constructor. *)
#[local] Arguments String.append !s1 s2 : simpl nomatch.

(* ===================================================================== *)
(** * Strings *)
(* ===================================================================== *)

Module JsString.

Definition code (c : ascii) : nat := nat_of_ascii c.

(** WhiteSpace and LineTerminator code units below 256: TAB, LF, VT,
    FF, CR, SP, NBSP. The same set is the regular expression class
    [\s] and what [trim] removes. *)
Definition isWhiteSpace (c : ascii) : bool :=
  let n := code c in
  ((n =? 9) || (n =? 10) || (n =? 11) || (n =? 12) || (n =? 13)
   || (n =? 32) || (n =? 160))%nat.

Fixpoint trimStart (s : string) : string :=
  match s with
  | EmptyString => EmptyString
  | String c s' => if isWhiteSpace c then trimStart s' else s
  end.

Fixpoint trimEnd (s : string) : string :=
  match s with
  | EmptyString => EmptyString
  | String c s' =>
      match trimEnd s' with
      | EmptyString => if isWhiteSpace c then EmptyString else String c EmptyString
      | t => String c t
      end
  end.

(** [String.prototype.trim] *)
Definition trim (s : string) : string := trimEnd (trimStart s).

(** [/^\s*$/.test(s)] *)
Fixpoint isBlank (s : string) : bool :=
  match s with
  | EmptyString => true
  | String c s' => isWhiteSpace c && isBlank s'
  end.

(** [s.includes(c)] for a one-character needle. *)
Fixpoint includes (c : ascii) (s : string) : bool :=
  match s with
  | EmptyString => false
  | String d s' => Ascii.eqb d c || includes c s'
  end.

(** [s.startsWith(c)], [s.endsWith(c)] for a one-character argument. *)
Definition startsWith (c : ascii) (s : string) : bool :=
  match s with
  | String d _ => Ascii.eqb d c
  | EmptyString => false
  end.

Fixpoint endsWith (c : ascii) (s : string) : bool :=
  match s with
  | EmptyString => false
  | String d EmptyString => Ascii.eqb d c
  | String _ s' => endsWith c s'
  end.

(** [s.slice(1)] *)
Definition dropFirst (s : string) : string :=
  match s with
  | EmptyString => EmptyString
  | String _ s' => s'
  end.

(** [s.slice(0, -1)] *)
Fixpoint dropLast (s : string) : string :=
  match s with
  | EmptyString => EmptyString
  | String _ EmptyString => EmptyString
  | String c s' => String c (dropLast s')
  end.

(** [s.split(sep)] for a one-character separator: never empty. *)
Fixpoint split (sep : ascii) (s : string) : list string :=
  match s with
  | EmptyString => [EmptyString]
  | String c s' =>
      if Ascii.eqb c sep then EmptyString :: split sep s'
      else match split sep s' with
           | x :: xs => String c x :: xs
           | [] => [String c EmptyString]
           end
  end.

(** [l.join(sep)] *)
Fixpoint join (sep : string) (l : list string) : string :=
  match l with
  | [] => EmptyString
  | [x] => x
  | x :: xs => x ++ sep ++ join sep xs
  end.

(** Prefix test, for the literal prefixes the number grammar has. *)
Fixpoint hasPrefix (p s : string) : bool :=
  match p, s with
  | EmptyString, _ => true
  | String a p', String b s' => Ascii.eqb a b && hasPrefix p' s'
  | String _ _, EmptyString => false
  end.

Fixpoint dropN (n : nat) (s : string) : string :=
  match n, s with
  | O, _ => s
  | S n', String _ s' => dropN n' s'
  | S _, EmptyString => EmptyString
  end.

Fixpoint takeN (n : nat) (s : string) : string :=
  match n, s with
  | O, _ => EmptyString
  | S n', String c s' => String c (takeN n' s')
  | S _, EmptyString => EmptyString
  end.

Fixpoint replicate (n : nat) (c : ascii) : string :=
  match n with
  | O => EmptyString
  | S n' => String c (replicate n' c)
  end.

Fixpoint concatMap (f : ascii -> string) (s : string) : string :=
  match s with
  | EmptyString => EmptyString
  | String c s' => f c ++ concatMap f s'
  end.

Definition single (c : ascii) : string := String c EmptyString.

(** Upper-case mapping of one code unit. Latin small letters map to
    their capitals and sharp s to "SS". The capitals of micro sign
    (181) and y with diaeresis (255) are code units above 255, outside
    the range covered here; these two are left as they are. *)
Definition upperChar (c : ascii) : string :=
  let n := code c in
  if ((97 <=? n) && (n <=? 122))%nat then single (ascii_of_nat (n - 32))
  else if (n =? 223)%nat then "SS"
  else if ((224 <=? n) && (n <=? 254) && negb (n =? 247))%nat
       then single (ascii_of_nat (n - 32))
  else single c.

Definition lowerChar (c : ascii) : string :=
  let n := code c in
  if ((65 <=? n) && (n <=? 90))%nat then single (ascii_of_nat (n + 32))
  else if ((192 <=? n) && (n <=? 222) && negb (n =? 215))%nat
       then single (ascii_of_nat (n + 32))
  else single c.

Definition toUpperCase (s : string) : string := concatMap upperChar s.
Definition toLowerCase (s : string) : string := concatMap lowerChar s.

(** A JavaScript string is truthy when it is not empty. *)
Definition truthy (s : string) : bool :=
  match s with
  | EmptyString => false
  | _ => true
  end.

End JsString.

(* ===================================================================== *)
(** * Numbers *)
(* ===================================================================== *)

Module JsNumber.

Local Open Scope Z_scope.

Definition number := spec_float.

Definition prec : Z := 53.
Definition emax : Z := 1024.

Definition add : number -> number -> number := SFadd prec emax.
Definition sub : number -> number -> number := SFsub prec emax.
Definition mul : number -> number -> number := SFmul prec emax.
Definition div : number -> number -> number := SFdiv prec emax.
Definition ltb : number -> number -> bool := SFltb.
Definition leb : number -> number -> bool := SFleb.
Definition eqb : number -> number -> bool := SFeqb.
Definition geb (x y : number) : bool := SFleb y x.
Definition gtb (x y : number) : bool := SFltb y x.

(** The number an integer literal denotes. *)
Definition ofZ (z : Z) : number := binary_normalize prec emax z 0 false.

Definition zero : number := S754_zero false.

(** [Number.isFinite] *)
Definition isFinite (x : number) : bool :=
  match x with
  | S754_zero _ | S754_finite _ _ _ => true
  | S754_infinity _ | S754_nan => false
  end.

(** [Number.isNaN] *)
Definition isNaN (x : number) : bool :=
  match x with
  | S754_nan => true
  | _ => false
  end.

(** ToBoolean on a number: false for +0, -0 and NaN. *)
Definition truthy (x : number) : bool :=
  match x with
  | S754_zero _ | S754_nan => false
  | _ => true
  end.

Definition signBit (x : number) : bool :=
  match x with
  | S754_zero s | S754_infinity s | S754_finite s _ _ => s
  | S754_nan => false
  end.

(** The binary64 value nearest to the fraction [p / q] (ties to even),
    with sign [s]: the correctly rounded quotient of two integers. *)
Definition nearest (s : bool) (p q : Z) : number :=
  match p, q with
  | Zpos p', Zpos q' =>
      SFdiv prec emax (S754_finite s p' 0) (S754_finite false q' 0)
  | _, _ => S754_zero s
  end.

(** [p / q] scaled by [10 ^ k], as a fraction. *)
Definition scale10 (p q k : Z) : Z * Z :=
  if 0 <=? k then (p * 10 ^ k, q) else (p, q * 10 ^ (- k)).

(** The exact value of the magnitude of a finite number. *)
Definition exact (m : positive) (e : Z) : Z * Z :=
  if 0 <=? e then (Zpos m * 2 ^ e, 1) else (Zpos m, 2 ^ (- e)).

Definition isDigit (c : ascii) : bool :=
  let n := JsString.code c in ((48 <=? n) && (n <=? 57))%nat.

Definition digitValue (c : ascii) : Z := Z.of_nat (JsString.code c) - 48.

(** Reads a run of decimal digits: the value accumulated on [acc],
    how many digits were read, and the rest of the input. *)
Fixpoint readDigits (s : string) (acc : Z) (count : nat) : Z * nat * string :=
  match s with
  | String c s' =>
      if isDigit c then readDigits s' (acc * 10 + digitValue c) (S count)
      else (acc, count, s)
  | EmptyString => (acc, count, s)
  end.

(** ExponentPart, when one is there in full: [e] or [E], an optional
    sign, at least one digit. *)
Definition readExponent (s : string) : Z * string :=
  match s with
  | String c s' =>
      if Ascii.eqb c "e" || Ascii.eqb c "E" then
        let '(neg, s'') :=
          match s' with
          | String d t =>
              if Ascii.eqb d "-" then (true, t)
              else if Ascii.eqb d "+" then (false, t)
              else (false, s')
          | EmptyString => (false, s')
          end in
        let '(v, n, rest) := readDigits s'' 0 O in
        match n with
        | O => (0, s)
        | _ => ((if neg then - v else v), rest)
        end
      else (0, s)
  | EmptyString => (0, s)
  end.

(** The longest prefix of [s] that is a StrDecimalLiteral, as its
    number value and the rest of the input; [None] when no prefix
    is one. *)
Definition readDecimalLiteral (s : string) : option (number * string) :=
  let '(neg, s1) :=
    match s with
    | String c t =>
        if Ascii.eqb c "-" then (true, t)
        else if Ascii.eqb c "+" then (false, t)
        else (false, s)
    | EmptyString => (false, s)
    end in
  if JsString.hasPrefix "Infinity" s1
  then Some (S754_infinity neg, JsString.dropN 8 s1)
  else
    let '(i, ni, r1) := readDigits s1 0 O in
    let mantissa :=
      match r1 with
      | String c t =>
          if Ascii.eqb c "." then
            let '(m, nf, r2) := readDigits t i O in
            match ni, nf with
            | O, O => None
            | _, _ => Some (m, nf, r2)
            end
          else match ni with O => None | _ => Some (i, O, r1) end
      | EmptyString => match ni with O => None | _ => Some (i, O, r1) end
      end in
    match mantissa with
    | None => None
    | Some (m, nf, r2) =>
        let '(ex, r3) := readExponent r2 in
        let '(p, q) := scale10 m 1 (ex - Z.of_nat nf) in
        Some (nearest neg p q, r3)
    end.

(** [Number.parseFloat] *)
Definition parseFloat (s : string) : number :=
  match readDecimalLiteral (JsString.trimStart s) with
  | Some (x, _) => x
  | None => S754_nan
  end.

(** ToNumber on a string holding a decimal literal, as unary [+]
    applies it to what [toFixed] returns: empty after trimming is 0,
    a decimal literal spanning the whole string is its value, and
    anything else is NaN. *)
Definition stringToNumber (s : string) : number :=
  match JsString.trim s with
  | EmptyString => zero
  | t =>
      match readDecimalLiteral t with
      | Some (x, EmptyString) => x
      | _ => S754_nan
      end
  end.

(** Decimal digits of a non-negative integer. *)
Definition decimal (z : Z) : string :=
  NilZero.string_of_uint (N.to_uint (Z.to_N z)).

Definition zeros (n : Z) : string := JsString.replicate (Z.to_nat n) "0".

(** Compares the fractions [p1 / q1] and [p2 / q2], positive
    denominators. *)
Definition fracLtb (p1 q1 p2 q2 : Z) : bool := p1 * q2 <? p2 * q1.

(** The [n] with [10 ^ (n - 1) <= p / q < 10 ^ n], for [p / q > 0]. *)
Definition decade (p q : Z) : Z :=
  let n0 :=
    if q <=? p then Z.of_nat (String.length (decimal (p / q)))
    else 1 - Z.of_nat (String.length (decimal (q / p))) in
  let '(lp, lq) := scale10 1 1 (n0 - 1) in
  let '(hp, hq) := scale10 1 1 n0 in
  if fracLtb p q lp lq then n0 - 1
  else if fracLtb p q hp hq then n0
  else n0 + 1.

Definition sameNumber (x y : number) : bool :=
  match x, y with
  | S754_finite s1 m1 e1, S754_finite s2 m2 e2 =>
      Bool.eqb s1 s2 && Pos.eqb m1 m2 && Z.eqb e1 e2
  | _, _ => false
  end.

(** Number::toString, the search for the digits: the least [k] for
    which some [s] of [k] digits has [s * 10 ^ (n - k)] round to [x],
    taking the [s] nearest to [x]. Returns [s] and [n]. Seventeen
    digits always identify a binary64 value. *)
Fixpoint shortestFrom (fuel : nat) (k : Z) (x : number) (p q n : Z) : Z * Z :=
  match fuel with
  | O => (0, n)
  | S fuel' =>
      let '(p', q') := scale10 p q (k - n) in
      let lo := p' / q' in
      let hi := lo + 1 in
      let back (s : Z) :=
        let '(sp, sq) := scale10 s 1 (n - k) in
        sameNumber (nearest false sp sq) x in
      let dLo := p' - lo * q' in
      let dHi := hi * q' - p' in
      let pick (s : Z) := if s =? 10 ^ k then (10 ^ (k - 1), n + 1) else (s, n) in
      match back lo, back hi with
      | true, true =>
          if dLo <? dHi then pick lo
          else if dHi <? dLo then pick hi
          else if Z.even lo then pick lo else pick hi
      | true, false => pick lo
      | false, true => pick hi
      | false, false => shortestFrom fuel' (k + 1) x p q n
      end
  end.

Definition shortest (m : positive) (e : Z) : Z * Z :=
  let '(p, q) := exact m e in
  shortestFrom 17 1 (S754_finite false m e) p q (decade p q).

(** Number::toString for radix 10. *)
Definition toString (x : number) : string :=
  match x with
  | S754_nan => "NaN"
  | S754_zero _ => "0"
  | S754_infinity s => (if s then "-" else "") ++ "Infinity"
  | S754_finite s m e =>
      let '(d, n) := shortest m e in
      let ds := decimal d in
      let k := Z.of_nat (String.length ds) in
      let expo := (if 0 <=? n - 1 then "+" else "-") ++ decimal (Z.abs (n - 1)) in
      (if s then "-" else "") ++
      (if (k <=? n) && (n <=? 21) then ds ++ zeros (n - k)
       else if (0 <? n) && (n <=? 21)
            then JsString.takeN (Z.to_nat n) ds ++ "." ++ JsString.dropN (Z.to_nat n) ds
       else if (-6 <? n) && (n <=? 0) then "0." ++ zeros (- n) ++ ds
       else if k =? 1 then ds ++ "e" ++ expo
       else JsString.takeN 1 ds ++ "." ++ JsString.dropN 1 ds ++ "e" ++ expo)
  end.

(** The integer nearest to [p / q], ties upwards. *)
Definition roundHalfUp (p q : Z) : Z := (2 * p + q) / (2 * q).

(** The integer nearest to the magnitude of a finite number times
    [10 ^ f], ties away from zero. *)
Definition scaledMagnitude (x : number) (f : Z) : Z :=
  match x with
  | S754_finite _ m e =>
      let '(p, q) := exact m e in roundHalfUp (p * 10 ^ f) q
  | _ => 0
  end.

(** [n] written with [f] digits after the point. *)
Definition fixedDigits (n f : Z) : string * string :=
  let ds := decimal n in
  let len := Z.of_nat (String.length ds) in
  let padded := if len <=? f then zeros (f + 1 - len) ++ ds else ds in
  let cut := Z.to_nat (Z.of_nat (String.length padded) - f) in
  (JsString.takeN cut padded, JsString.dropN cut padded).

(** [Number.prototype.toFixed] *)
Definition toFixed (x : number) (f : Z) : string :=
  match x with
  | S754_nan | S754_infinity _ => toString x
  | _ =>
      if geb (SFabs x) (ofZ (10 ^ 21)) then toString x
      else
        let '(ip, fp) := fixedDigits (scaledMagnitude x f) f in
        (if ltb x zero then "-" else "") ++
        (if f =? 0 then ip else ip ++ "." ++ fp)
  end.

(** Thousands separators of the en-US locale. *)
Fixpoint groupFrom (ds : string) (lead : nat) : string :=
  match ds with
  | EmptyString => EmptyString
  | String c rest =>
      match lead with
      | O => String "," (String c (groupFrom rest 2))
      | S lead' => String c (groupFrom rest lead')
      end
  end.

Definition grouped (ds : string) : string :=
  let len := String.length ds in
  groupFrom ds (match (len mod 3)%nat with O => 3%nat | r => r end).

Fixpoint stripZeros (s : string) : string :=
  match s with
  | EmptyString => EmptyString
  | String c s' =>
      match stripZeros s' with
      | EmptyString => if Ascii.eqb c "0" then EmptyString else String c EmptyString
      | t => String c t
      end
  end.

(** The integer nearest to the shortest decimal of the magnitude of a
    finite number, times [10 ^ f], ties away from zero. The shortest
    decimal is the one [toString] prints: for the binary64 value next
    to 1.005 it is 1.005 itself, and two digits of it are 1.01, where
    the exact binary value, a little below, gives 1.00 in [toFixed]. *)
Definition scaledShortest (x : number) (f : Z) : Z :=
  match x with
  | S754_finite _ m e =>
      let '(d, n) := shortest m e in
      let k := Z.of_nat (String.length (decimal d)) in
      let '(p, q) := scale10 d 1 (n - k + f) in
      roundHalfUp p q
  | _ => 0
  end.

(** [new Intl.NumberFormat("en-US", {minimumFractionDigits: lo,
    maximumFractionDigits: hi}).format(x)], as the engines format it:
    the shortest decimal that identifies the number, rounded to [hi]
    digits, ties away from zero, trailing zeros dropped down to [lo]
    digits, the integer part grouped, a minus sign for every value
    whose sign is negative. *)
Definition formatLocale (x : number) (lo hi : Z) : string :=
  match x with
  | S754_nan => "NaN"
  | S754_infinity s => (if s then "-" else "") ++ "∞"
  | _ =>
      let '(ip, fp) := fixedDigits (scaledShortest x hi) hi in
      let keep := JsString.takeN (Z.to_nat lo) fp in
      let fp' := keep ++ stripZeros (JsString.dropN (Z.to_nat lo) fp) in
      (if signBit x then "-" else "") ++ grouped ip ++
      (match fp' with EmptyString => "" | _ => "." ++ fp' end)
  end.

(** [x.toLocaleString("en-US")] *)
Definition toLocaleString (x : number) : string := formatLocale x 0 3.

End JsNumber.

Import JsNumber.

(* ===================================================================== *)
(** * Regular expressions *)
(* ===================================================================== *)

Module Regex.

(** The regular fragment the plugin uses: character classes,
    sequence, alternative and iteration. *)
Inductive re : Type :=
| Void : re
| Eps : re
| Class : (ascii -> bool) -> re
| Seq : re -> re -> re
| Alt : re -> re -> re
| Star : re -> re.

(** [r?], [r+] and [r{n,}] *)
Definition Opt (r : re) : re := Alt r Eps.
Definition Plus (r : re) : re := Seq r (Star r).
Fixpoint AtLeast (n : nat) (r : re) : re :=
  match n with
  | O => Star r
  | S n' => Seq r (AtLeast n' r)
  end.

Definition Chr (c : ascii) : re := Class (Ascii.eqb c).

Fixpoint nullable (r : re) : bool :=
  match r with
  | Void => false
  | Eps => true
  | Class _ => false
  | Seq a b => nullable a && nullable b
  | Alt a b => nullable a || nullable b
  | Star _ => true
  end.

Fixpoint deriv (c : ascii) (r : re) : re :=
  match r with
  | Void => Void
  | Eps => Void
  | Class p => if p c then Eps else Void
  | Seq a b =>
      if nullable a then Alt (Seq (deriv c a) b) (deriv c b)
      else Seq (deriv c a) b
  | Alt a b => Alt (deriv c a) (deriv c b)
  | Star a => Seq (deriv c a) (Star a)
  end.

(** [/^r$/.test(s)]: the whole of [s] matches [r]. *)
Fixpoint test (r : re) (s : string) : bool :=
  match s with
  | EmptyString => nullable r
  | String c s' => test (deriv c r) s'
  end.

(** A regular expression that matches nothing by its shape: once the
    derivatives reach one, no continuation of the input matches. *)
Fixpoint isVoid (r : re) : bool :=
  match r with
  | Void => true
  | Eps | Class _ | Star _ => false
  | Seq a b => isVoid a || isVoid b
  | Alt a b => isVoid a && isVoid b
  end.

(** The strings a regular expression denotes. *)
Inductive Matches : re -> string -> Prop :=
| MEps : Matches Eps EmptyString
| MClass p c : p c = true -> Matches (Class p) (String c EmptyString)
| MSeq a b s t : Matches a s -> Matches b t -> Matches (Seq a b) (s ++ t)
| MAltL a b s : Matches a s -> Matches (Alt a b) s
| MAltR a b s : Matches b s -> Matches (Alt a b) s
| MStarNil a : Matches (Star a) EmptyString
| MStarCons a s t : Matches a s -> Matches (Star a) t -> Matches (Star a) (s ++ t).

End Regex.

(* ===================================================================== *)
(** * Quotes *)
(* ===================================================================== *)

Record Quote : Type := mkQuote {
  symbol : string;
  shortName : option string;
  longName : option string;
  currency : option string;
  bid : option number;
  ask : option number;
  regularMarketPrice : option number;
  regularMarketPreviousClose : option number;
  regularMarketDayLow : option number;
  regularMarketDayHigh : option number;
  fiftyTwoWeekLow : option number;
  fiftyTwoWeekHigh : option number;
  marketCap : option number;
  regularMarketVolume : option number;
  regularMarketTime : option number
}.

(** A quote that carries a symbol and nothing else. *)
Definition bareQuote (sym : string) : Quote :=
  mkQuote sym None None None None None None None None None None None None None None.

(** The numeric fields of a quote, and the test that each one that is
    populated holds a finite number. *)
Definition numericFields (q : Quote) : list (option number) :=
  [bid q; ask q; regularMarketPrice q; regularMarketPreviousClose q;
   regularMarketDayLow q; regularMarketDayHigh q; fiftyTwoWeekLow q;
   fiftyTwoWeekHigh q; marketCap q; regularMarketVolume q; regularMarketTime q].

Definition populatedFinite (v : option number) : bool :=
  match v with
  | Some x => isFinite x
  | None => true
  end.

Definition quoteFinite (q : Quote) : bool := forallb populatedFinite (numericFields q).

(** A quote with one numeric field replaced. *)
Definition withBid (v : option number) (q : Quote) : Quote :=
  mkQuote (symbol q) (shortName q) (longName q) (currency q) v (ask q)
    (regularMarketPrice q) (regularMarketPreviousClose q)
    (regularMarketDayLow q) (regularMarketDayHigh q)
    (fiftyTwoWeekLow q) (fiftyTwoWeekHigh q) (marketCap q)
    (regularMarketVolume q) (regularMarketTime q).

Definition withAsk (v : option number) (q : Quote) : Quote :=
  mkQuote (symbol q) (shortName q) (longName q) (currency q) (bid q) v
    (regularMarketPrice q) (regularMarketPreviousClose q)
    (regularMarketDayLow q) (regularMarketDayHigh q)
    (fiftyTwoWeekLow q) (fiftyTwoWeekHigh q) (marketCap q)
    (regularMarketVolume q) (regularMarketTime q).

Definition withPreviousClose (v : option number) (q : Quote) : Quote :=
  mkQuote (symbol q) (shortName q) (longName q) (currency q) (bid q) (ask q)
    (regularMarketPrice q) v (regularMarketDayLow q)
    (regularMarketDayHigh q) (fiftyTwoWeekLow q) (fiftyTwoWeekHigh q)
    (marketCap q) (regularMarketVolume q) (regularMarketTime q).

Definition withMarketCap (v : option number) (q : Quote) : Quote :=
  mkQuote (symbol q) (shortName q) (longName q) (currency q) (bid q) (ask q)
    (regularMarketPrice q) (regularMarketPreviousClose q)
    (regularMarketDayLow q) (regularMarketDayHigh q)
    (fiftyTwoWeekLow q) (fiftyTwoWeekHigh q) v (regularMarketVolume q)
    (regularMarketTime q).

Definition withVolume (v : option number) (q : Quote) : Quote :=
  mkQuote (symbol q) (shortName q) (longName q) (currency q) (bid q) (ask q)
    (regularMarketPrice q) (regularMarketPreviousClose q)
    (regularMarketDayLow q) (regularMarketDayHigh q)
    (fiftyTwoWeekLow q) (fiftyTwoWeekHigh q) (marketCap q) v
    (regularMarketTime q).

Definition withTime (v : option number) (q : Quote) : Quote :=
  mkQuote (symbol q) (shortName q) (longName q) (currency q) (bid q) (ask q)
    (regularMarketPrice q) (regularMarketPreviousClose q)
    (regularMarketDayLow q) (regularMarketDayHigh q)
    (fiftyTwoWeekLow q) (fiftyTwoWeekHigh q) (marketCap q)
    (regularMarketVolume q) v.

(** [a ?? b] on optional values. *)
Definition orElse {A : Type} (a b : option A) : option A :=
  match a with
  | Some _ => a
  | None => b
  end.

Infix "??" := orElse (at level 61, left associativity).

(* ===================================================================== *)
(** * Formatting utilities *)
(* ===================================================================== *)

Definition normalizeSymbol (symbol : string) : string :=
  JsString.toUpperCase (JsString.trim symbol).

(** The characters [/[$,%\s]/g] removes; the second replacement, of
    [/,/g], finds nothing left to remove. *)
Definition isStripped (c : ascii) : bool :=
  Ascii.eqb c "$" || Ascii.eqb c "," || Ascii.eqb c "%" || JsString.isWhiteSpace c.

Fixpoint removeAll (p : ascii -> bool) (s : string) : string :=
  match s with
  | EmptyString => EmptyString
  | String c s' => if p c then removeAll p s' else String c (removeAll p s')
  end.

Definition cleanNumber (value : string) : string :=
  removeAll (Ascii.eqb ",") (removeAll isStripped value).

(** [parseNumber]: the argument is absent for [null] and [undefined],
    the result is absent for [null]. *)
Definition parseNumber (value : option string) : option number :=
  match value with
  | None => None
  | Some v =>
      if negb (JsString.truthy v) then None
      else
        let parsed := parseFloat (cleanNumber v) in
        if isFinite parsed then Some parsed else None
  end.

Definition formatNumber (value : number) (fractionDigits : Z) : string :=
  formatLocale value fractionDigits fractionDigits.

(** [formatLongNumber]: absent when none of the three tests holds,
    which is the case of NaN. *)
Definition formatLongNumber (n : number) : option string :=
  let short (d : Z) (f : Z) (suffix : string) :=
    toString (stringToNumber (toFixed (div n (ofZ d)) f)) ++ suffix in
  if ltb n (ofZ (10 ^ 9)) then Some (short (10 ^ 6)%Z 3%Z "M")
  else if geb n (ofZ (10 ^ 9)) && ltb n (ofZ (10 ^ 12)) then Some (short (10 ^ 9)%Z 3%Z "B")
  else if geb n (ofZ (10 ^ 12)) then Some (short (10 ^ 12)%Z 1%Z "T")
  else None.

(* ===================================================================== *)
(** * Markdown table: locating and parsing *)
(* ===================================================================== *)

Module Table.

Import Regex.

Definition ws : re := Star (Class JsString.isWhiteSpace).

(** One cell of the separator pattern: [:? -{3,} :? \s*] *)
Definition separatorCell : re :=
  Seq (Opt (Chr ":")) (Seq (AtLeast 3 (Chr "-")) (Seq (Opt (Chr ":")) ws)).

(** The separator pattern, spaced out and with CELL for the cell
    above: [^ \s* \|? \s* CELL ( \| \s* CELL )+ \|? \s* $] *)
Definition separatorRe : re :=
  Seq ws (Seq (Opt (Chr "|")) (Seq ws (Seq separatorCell
    (Seq (Plus (Seq (Chr "|") (Seq ws separatorCell)))
         (Seq (Opt (Chr "|")) ws))))).

Definition isTableSeparator (line : string) : bool := test separatorRe line.

Definition isTableRow (line : string) : bool :=
  JsString.includes "|" line && negb (JsString.isBlank line).

Definition splitRow (line : string) : list string :=
  let trimmed := JsString.trim line in
  let trimmed :=
    if JsString.startsWith "|" trimmed then JsString.dropFirst trimmed else trimmed in
  let trimmed :=
    if JsString.endsWith "|" trimmed then JsString.dropLast trimmed else trimmed in
  map JsString.trim (JsString.split "|" trimmed).

(** [while (j < lines.length && isTableRow(lines[j])) j++]: how far
    [j] advances over the lines from [j] on. *)
Fixpoint countRows (ls : list string) : nat :=
  match ls with
  | l :: ls' => if isTableRow l then S (countRows ls') else O
  | [] => O
  end.

(** The scan for the table, from line [i] with [ls] the lines from
    [i] on: [tableStart], [tableEnd] and the header. [None] is the
    loop ending with both indices still -1. *)
Fixpoint locateFrom (i : nat) (ls : list string) : option (nat * nat * list string) :=
  match ls with
  | l0 :: ((l1 :: rest) as ls') =>
      if isTableRow l0 && isTableSeparator l1
      then Some (i, i + 1 + countRows rest, splitRow l0)
      else locateFrom (S i) ls'
  | _ => None
  end.

Definition locateTable (lines : list string) : option (nat * nat * list string) :=
  locateFrom 0 lines.

(** [l.findIndex(p)], [None] for -1. *)
Fixpoint findIndex {A : Type} (p : A -> bool) (l : list A) : option nat :=
  match l with
  | [] => None
  | x :: l' => if p x then Some O else option_map S (findIndex p l')
  end.

Definition headerIndex (header : list string) (names : list string) : option nat :=
  findIndex
    (fun h => existsb (String.eqb (JsString.toLowerCase (JsString.trim h))) names)
    header.

Definition tickerNames : list string := ["fund"; "ticker"; "symbol"; "fund/ticker"].
Definition sharesNames : list string := ["shares"; "qty"; "quantity"; "units"].
Definition priceNames : list string := ["current price"; "price"; "last price"].
Definition valueNames : list string := ["value"; "market value"].
Definition allocationNames : list string := ["allocation"; "allocation %"; "alloc %"].

(** The column roles once the two mandatory ones are known to be
    there. *)
Record Roles : Type := mkRoles {
  tickerIndex : nat;
  sharesIndex : nat;
  priceIndex : option nat;
  valueIndex : option nat;
  allocationIndex : option nat
}.

Definition resolveRoles (header : list string) : option Roles :=
  match headerIndex header tickerNames, headerIndex header sharesNames with
  | Some t, Some s =>
      Some (mkRoles t s (headerIndex header priceNames)
              (headerIndex header valueNames)
              (headerIndex header allocationNames))
  | _, _ => None
  end.

(* =================================================================== *)
(** ** Reconciliation *)
(* =================================================================== *)

(** [while (row.length < header.length) row.push("")] *)
Definition pad (width : nat) (row : list string) : list string :=
  row ++ repeat EmptyString (width - length row).

(** [row[i] || ""] *)
Definition cellOr (row : list string) (i : nat) : string :=
  match row !! i with
  | Some s => s
  | None => EmptyString
  end.

Definition priceOf (quote : Quote) : option number :=
  regularMarketPrice quote ?? ask quote ?? bid quote
    ?? regularMarketPreviousClose quote.

(** [row[i] = v] for a column of the header: the row was padded to
    the header's width, so the index is in range. *)
Definition setCell (i : nat) (v : string) (row : list string) : list string :=
  <[i := v]> row.

(** The body of the first pass for one row: the row as it is left
    and the entry of [rowValues] ([None] for an index never
    assigned). *)
Definition updateRow (header : list string) (roles : Roles)
    (quotes : gmap string Quote) (row : list string)
    : list string * option number :=
  let row := pad (length header) row in
  let symbol := normalizeSymbol (cellOr row (tickerIndex roles)) in
  match quotes !! symbol with
  | None => (row, None)
  | Some quote =>
      let price := priceOf quote in
      let shares := parseNumber (row !! sharesIndex roles) in
      let value :=
        match price, shares with
        | Some p, Some s => Some (mul p s)
        | _, _ => None
        end in
      let row :=
        match priceIndex roles, price with
        | Some i, Some p => setCell i (formatNumber p 2) row
        | _, _ => row
        end in
      let row :=
        match valueIndex roles, value with
        | Some i, Some v => setCell i (formatNumber v 2) row
        | _, _ => row
        end in
      (row, Some (default zero value))
  end.

(** [rowValues.reduce((sum, v) => sum + v, 0)]: indices never
    assigned are skipped. *)
Definition totalOf (rowValues : list (option number)) : number :=
  fold_left
    (fun sum v => match v with Some x => add sum x | None => sum end)
    rowValues zero.

(** [(value / totalValue) * 100] formatted, with [rowValues[i] ?? 0] *)
Definition allocationCell (v : option number) (totalValue : number) : string :=
  formatNumber (mul (div (default zero v) totalValue) (ofZ 100)) 2.

Definition firstPass (header : list string) (roles : Roles)
    (quotes : gmap string Quote) (dataRows : list (list string))
    : list (list string * option number) :=
  map (updateRow header roles quotes) dataRows.

Definition totalValue (header : list string) (roles : Roles)
    (quotes : gmap string Quote) (dataRows : list (list string)) : number :=
  totalOf (map snd (firstPass header roles quotes dataRows)).

(** Both passes over the data rows: [updatedRows] as serialization
    finds them. *)
Definition reconcile (header : list string) (roles : Roles)
    (quotes : gmap string Quote) (dataRows : list (list string))
    : list (list string) :=
  let passed := firstPass header roles quotes dataRows in
  let total := totalOf (map snd passed) in
  match allocationIndex roles with
  | Some a =>
      if gtb total zero
      then map (fun rv => setCell a (allocationCell (snd rv) total) (fst rv)) passed
      else map fst passed
  | None => map fst passed
  end.

(* =================================================================== *)
(** ** Serialization *)
(* =================================================================== *)

(** [`| ${cells.join(" | ")} |`] *)
Definition serializeRow (cells : list string) : string :=
  "| " ++ JsString.join " | " cells ++ " |".

(** A cell as [splitRow] returns them: trimmed, and without the
    column separator. *)
Definition cleanCell (c : string) : Prop :=
  JsString.trim c = c /\ JsString.includes "|" c = false.

Definition newline : ascii := ascii_of_nat 10.

(** [lines[i]] as [join] prints it: nothing for an index out of
    range. *)
Definition lineAt (lines : list string) (i : nat) : string :=
  match lines !! i with
  | Some l => l
  | None => EmptyString
  end.

Definition updatedText (lines : list string) (tableStart tableEnd : nat)
    (header : list string) (updatedRows : list (list string)) : string :=
  let updatedTableLines :=
    serializeRow header :: lineAt lines (tableStart + 1)
      :: map serializeRow updatedRows in
  let before := take tableStart lines in
  let after := drop (tableEnd + 1) lines in
  JsString.join (JsString.single newline) (before ++ updatedTableLines ++ after).

(** [lines.slice(tableStart + 2, tableEnd + 1).map(splitRow)] *)
Definition dataRowsOf (lines : list string) (tableStart tableEnd : nat)
    : list (list string) :=
  map splitRow (take (tableEnd + 1 - (tableStart + 2)) (drop (tableStart + 2) lines)).

(** [dataRows.map(row => row[tickerIndex]).filter(Boolean).map(normalizeSymbol)] *)
Definition symbolsOf (roles : Roles) (dataRows : list (list string)) : list string :=
  map normalizeSymbol
    (filter (fun s => JsString.truthy s = true)
       (map (fun row => cellOr row (tickerIndex roles)) dataRows)).

End Table.

Import Table.

(* ===================================================================== *)
(** * The host: network, notices, console and editor *)
(* ===================================================================== *)

(** What a [catch] clause can receive: an instance of [Error] with its
    message, a [TypeError] the engine raises on an operand of the wrong
    kind (an instance of [Error] too, with the message the engine
    gives it), or any other value, with what [String] makes of it. *)
Inductive Thrown : Type :=
| ErrorObject (message : string)
| TypeErrorObject (message : string)
| OtherValue (shown : string).

(** [e instanceof Error] *)
Definition instanceofError (e : Thrown) : bool :=
  match e with
  | ErrorObject _ | TypeErrorObject _ => true
  | OtherValue _ => false
  end.

(** What [JSON.parse] returns. An object is the list of its own
    properties, looked up by name. *)
#[local] Unset Elimination Schemes.
Inductive JSValue : Type :=
| JUndefined
| JNull
| JBool (b : bool)
| JNum (x : number)
| JStr (s : string)
| JArr (items : list JSValue)
| JObj (fields : list (string * JSValue)).
#[local] Set Elimination Schemes.

Module Json.

Fixpoint lookupField (k : string) (fields : list (string * JSValue)) : JSValue :=
  match fields with
  | [] => JUndefined
  | (k', v) :: rest => if String.eqb k' k then v else lookupField k rest
  end.

(** [v?.k]: the property of an object, [undefined] on every other
    value (none of the properties read is one of a primitive wrapper
    or of an array). *)
Definition get (v : JSValue) (k : string) : JSValue :=
  match v with
  | JObj fields => lookupField k fields
  | _ => JUndefined
  end.

(** ToBoolean *)
Definition truthy (v : JSValue) : bool :=
  match v with
  | JUndefined | JNull => false
  | JBool b => b
  | JNum x => JsNumber.truthy x
  | JStr s => JsString.truthy s
  | JArr _ | JObj _ => true
  end.

(** A property read at the type [number | undefined] that [Quote]
    declares for it: [null] and [undefined] are absent under [??].
    The embedding covers answers that keep to the declared types. A
    value of another type (a price sent as the string "150") is not
    represented: it reads as absent here, where the program would
    carry it along and coerce it when it computes with it. *)
Definition numberField (v : JSValue) (k : string) : option number :=
  match get v k with
  | JNum x => Some x
  | _ => None
  end.

Definition stringField (v : JSValue) (k : string) : option string :=
  match get v k with
  | JStr s => Some s
  | _ => None
  end.

(** The object a provider returned, read as the [Quote] it is cast
    to. *)
Definition toQuote (v : JSValue) : Quote :=
  {| symbol := default EmptyString (stringField v "symbol");
     shortName := stringField v "shortName";
     longName := stringField v "longName";
     currency := stringField v "currency";
     bid := numberField v "bid";
     ask := numberField v "ask";
     regularMarketPrice := numberField v "regularMarketPrice";
     regularMarketPreviousClose := numberField v "regularMarketPreviousClose";
     regularMarketDayLow := numberField v "regularMarketDayLow";
     regularMarketDayHigh := numberField v "regularMarketDayHigh";
     fiftyTwoWeekLow := numberField v "fiftyTwoWeekLow";
     fiftyTwoWeekHigh := numberField v "fiftyTwoWeekHigh";
     marketCap := numberField v "marketCap";
     regularMarketVolume := numberField v "regularMarketVolume";
     regularMarketTime := numberField v "regularMarketTime" |}.

End Json.

(** The argument of [requestUrl]; [None] is an option left out. *)
Record Request : Type := mkRequest {
  url : string;
  headers : option (list (string * string));
  throw : option bool
}.

(** What [requestUrl] resolves to. Reading [json] parses the body and
    can throw. *)
Record Response : Type := mkResponse {
  status : Z;
  text : string;
  json : Thrown + JSValue
}.

Inductive ConsoleArg : Type :=
| ArgThrown (e : Thrown)
| ArgString (s : string).

(** The effects of a command, oldest first: the requests sent, the
    notices shown (message and duration) and the lines of
    [console.error]. *)
Record World : Type := mkWorld {
  requests : list Request;
  notices : list (string * Z);
  consoleErrors : list (string * ConsoleArg)
}.

Definition emptyWorld : World := mkWorld [] [] [].

(** The editor's buffer around the selection. *)
Record Editor : Type := mkEditor {
  textBefore : string;
  selected : string;
  textAfter : string
}.

Module EditorOps.

Definition getSelection (ed : Editor) : string := selected ed.

Definition getValue (ed : Editor) : string :=
  textBefore ed ++ selected ed ++ textAfter ed.

(** The selection is replaced and the cursor left after the new
    text. *)
Definition replaceSelection (t : string) (ed : Editor) : Editor :=
  mkEditor (textBefore ed ++ t) EmptyString (textAfter ed).

(** The whole buffer is replaced. Where the host leaves the cursor
    is not observed by the plugin; it is put at the start. *)
Definition setValue (t : string) (ed : Editor) : Editor :=
  mkEditor EmptyString EmptyString t.

End EditorOps.

(** State passing over [World]. *)
Definition M (A : Type) : Type := World -> A * World.

Definition ret {A : Type} (a : A) : M A := fun w => (a, w).

Definition bind {A B : Type} (c : M A) (k : A -> M B) : M B :=
  fun w => let '(a, w') := c w in k a w'.

Notation "x <- c ;; k" := (bind c (fun x => k))
  (at level 100, c at next level, right associativity).
Notation "c ;;; k" := (bind c (fun _ => k))
  (at level 100, right associativity).

Definition notice (message : string) (duration : Z) : M unit :=
  fun w => (tt, mkWorld (requests w) (notices w ++ [(message, duration)]) (consoleErrors w)).

Definition consoleError (label : string) (arg : ConsoleArg) : M unit :=
  fun w => (tt, mkWorld (requests w) (notices w) (consoleErrors w ++ [(label, arg)])).

(** [encodeURIComponent] on code units below 256: the unreserved
    characters stay, every other one becomes the percent-escaped bytes
    of its UTF-8 encoding. *)
Module Uri.

Definition isUnreserved (c : ascii) : bool :=
  let n := JsString.code c in
  (((65 <=? n) && (n <=? 90)) || ((97 <=? n) && (n <=? 122))
   || ((48 <=? n) && (n <=? 57)))%nat
  || JsString.includes c "-_.!~*'()".

Definition hexDigit (n : nat) : ascii :=
  if (n <? 10)%nat then ascii_of_nat (48 + n) else ascii_of_nat (55 + n).

Definition escapeByte (n : nat) : string :=
  String "%" (String (hexDigit (n / 16)) (String (hexDigit (n mod 16)) EmptyString)).

Definition encodeChar (c : ascii) : string :=
  let n := JsString.code c in
  if isUnreserved c then JsString.single c
  else if (n <? 128)%nat then escapeByte n
  else escapeByte (192 + n / 64) ++ escapeByte (128 + n mod 64).

Definition encodeURIComponent (s : string) : string :=
  JsString.concatMap encodeChar s.

End Uri.

Section Host.

(** The network: what [requestUrl] settles to for a request, given
    the requests sent before it. *)
Variable respond : list Request -> Request -> Thrown + Response.

(** [Date.parse] *)
Variable dateParse : string -> number.

(** [String(new Date(ms))], in the host's time zone. *)
Variable dateString : number -> string.

(** What [Date.parse] returns by its specification: NaN, or a time
    value, which is a finite binary64 number. *)
Definition isTimeValue (x : number) : bool :=
  isNaN x || (isFinite x && valid_binary prec emax x).

Definition requestUrl (req : Request) : M (Thrown + Response) :=
  fun w =>
    (respond (requests w) req,
     mkWorld (requests w ++ [req]) (notices w) (consoleErrors w)).

(* =================================================================== *)
(** ** The plain-text provider *)
(* =================================================================== *)

Definition YAHOO_HEADERS : list (string * string) :=
  [("User-Agent",
    "Mozilla/5.0 (Macintosh; Intel Mac OS X 10_15_7) AppleWebKit/537.36 (KHTML, like Gecko) Chrome/120.0.0.0 Safari/537.36");
   ("Accept", "application/json,text/plain,*/*");
   ("Referer", "https://finance.yahoo.com/")].

Definition parseStooqCsvLine (line : string) : list string :=
  map (fun cell => if String.eqb cell "N/A" then EmptyString else cell)
    (map JsString.trim (JsString.split "," line)).

Definition carriageReturn : ascii := ascii_of_nat 13.

(** [text.split(/\r?\n/)]: the pieces between line feeds, each but
    the last without the carriage return that ended it. *)
Fixpoint dropLineEnds (pieces : list string) : list string :=
  match pieces with
  | [] => []
  | [p] => [p]
  | p :: rest =>
      (if JsString.endsWith carriageReturn p then JsString.dropLast p else p)
        :: dropLineEnds rest
  end.

Definition splitLines (t : string) : list string :=
  dropLineEnds (JsString.split newline t).

(** [header.forEach((key, index) => record[key] = values[index] ?? "")] *)
Fixpoint fillRecord (header values : list string) (index : nat)
    (record : gmap string string) : gmap string string :=
  match header with
  | [] => record
  | key :: header' =>
      fillRecord header' values (S index)
        (<[key := default EmptyString (values !! index)]> record)
  end.

Definition fieldTruthy (v : option string) : bool :=
  match v with
  | Some s => JsString.truthy s
  | None => false
  end.

(** [Math.floor] *)
Definition floor (x : number) : number :=
  match x with
  | S754_finite s m e =>
      if (0 <=? e)%Z then x
      else
        let d := (2 ^ (- e))%Z in
        let q := (Zpos m / d)%Z in
        let r := (Zpos m mod d)%Z in
        if s then ofZ (- (if (r =? 0)%Z then q else q + 1))%Z
        else ofZ q
  | _ => x
  end.

(** The timestamp of a record: [updated], absent when the record
    has no date or the date does not parse. *)
Definition stooqUpdated (record : gmap string string) : option number :=
  let datePart := record !! "date" in
  let timePart := record !! "time" in
  if fieldTruthy datePart then
    let d := default EmptyString datePart in
    let iso :=
      if fieldTruthy timePart
      then d ++ "T" ++ default EmptyString timePart ++ "Z"
      else d ++ "T00:00:00Z" in
    let parsed := dateParse iso in
    if negb (isNaN parsed) then Some (floor (div parsed (ofZ 1000))) else None
  else None.

(** The body of the [try] after the response arrived: the quote, or
    [None] where the loop goes on to the next candidate. *)
Definition stooqQuoteOf (normalized : string) (body : string) : option Quote :=
  let lines := splitLines (JsString.trim body) in
  if (length lines <? 2)%nat then None
  else
    let header := parseStooqCsvLine (lineAt lines 0) in
    let values := parseStooqCsvLine (lineAt lines 1) in
    let record := fillRecord header values 0 ∅ in
    if negb (fieldTruthy (record !! "symbol")) || negb (fieldTruthy (record !! "close"))
    then None
    else
      Some {| symbol := normalized;
              shortName := None;
              longName := None;
              currency := None;
              bid := None;
              ask := None;
              regularMarketPrice := parseNumber (record !! "close");
              regularMarketPreviousClose := None;
              regularMarketDayLow := parseNumber (record !! "low");
              regularMarketDayHigh := parseNumber (record !! "high");
              fiftyTwoWeekLow := None;
              fiftyTwoWeekHigh := None;
              marketCap := None;
              regularMarketVolume := parseNumber (record !! "volume");
              regularMarketTime := stooqUpdated record |}.

Definition stooqUrl (candidate : string) : string :=
  "https://stooq.com/q/l/?s=" ++ Uri.encodeURIComponent candidate
    ++ "&f=sd2t2ohlcv&h&e=csv".

Definition stooqRequest (candidate : string) : Request :=
  mkRequest (stooqUrl candidate) None None.

(** One turn of the loop over the candidates: the [try] with its
    [catch], which sends every thrown value on to the next
    candidate. *)
Definition stooqAttempt (normalized candidate : string) : M (option Quote) :=
  r <- requestUrl (stooqRequest candidate) ;;
  match r with
  | inl _ => ret None
  | inr response => ret (stooqQuoteOf normalized (text response))
  end.

Fixpoint tryCandidates (normalized : string) (candidates : list string)
    : M (option Quote) :=
  match candidates with
  | [] => ret None
  | candidate :: rest =>
      q <- stooqAttempt normalized candidate ;;
      match q with
      | Some quote => ret (Some quote)
      | None => tryCandidates normalized rest
      end
  end.

Definition stooqCandidates (normalized : string) : list string :=
  [JsString.toLowerCase normalized; JsString.toLowerCase normalized ++ ".us"].

Definition fetchStooqQuote (symbol : string) : M (option Quote) :=
  let normalized := normalizeSymbol symbol in
  tryCandidates normalized (stooqCandidates normalized).

Fixpoint stooqLoop (symbols : list string) (quoteMap : gmap string Quote)
    : M (gmap string Quote) :=
  match symbols with
  | [] => ret quoteMap
  | symbol :: rest =>
      quote <- fetchStooqQuote symbol ;;
      match quote with
      | Some q => stooqLoop rest (<[normalizeSymbol symbol := q]> quoteMap)
      | None => stooqLoop rest quoteMap
      end
  end.

Definition fetchQuotesFromStooq (symbols : list string) : M (gmap string Quote) :=
  stooqLoop symbols ∅.

(* =================================================================== *)
(** ** The batch provider and the fallback *)
(* =================================================================== *)

Definition yahooUrls (query : string) : list string :=
  ["https://query1.finance.yahoo.com/v7/finance/quote?symbols=" ++ query;
   "https://query2.finance.yahoo.com/v7/finance/quote?symbols=" ++ query].

(** One turn of [for (const quote of result)]: the quote goes into
    the map under its upper-cased symbol when it has one; a symbol
    that is not a string has no [toUpperCase] to call. *)
Definition addYahooQuote (quoteMap : gmap string Quote) (item : JSValue)
    : Thrown + gmap string Quote :=
  let sym := Json.get item "symbol" in
  if Json.truthy sym then
    match sym with
    | JStr s => inr (<[JsString.toUpperCase s := Json.toQuote item]> quoteMap)
    | _ => inl (TypeErrorObject "quote.symbol.toUpperCase is not a function")
    end
  else inr quoteMap.

Fixpoint addYahooQuotes (quoteMap : gmap string Quote) (items : list JSValue)
    : Thrown + gmap string Quote :=
  match items with
  | [] => inr quoteMap
  | item :: rest =>
      match addYahooQuote quoteMap item with
      | inl e => inl e
      | inr quoteMap' => addYahooQuotes quoteMap' rest
      end
  end.

(** The body of the [try] once the response is there. A result that
    is a string is iterated character by character, and no character
    has a symbol; any other value that is not an array cannot be
    iterated. *)
Definition yahooQuotesOf (response : Response) : Thrown + gmap string Quote :=
  match json response with
  | inl e => inl e
  | inr data =>
      let result := Json.get (Json.get data "quoteResponse") "result" in
      if negb (Json.truthy result)
      then inl (ErrorObject "Unexpected response from Yahoo Finance")
      else
        match result with
        | JArr items => addYahooQuotes ∅ items
        | JStr _ => inr ∅
        | _ => inl (TypeErrorObject "data.quoteResponse.result is not iterable")
        end
  end.

Definition yahooRequest (u : string) : Request :=
  mkRequest u (Some YAHOO_HEADERS) None.

Definition yahooAttempt (u : string) : M (Thrown + gmap string Quote) :=
  r <- requestUrl (yahooRequest u) ;;
  match r with
  | inl e => ret (inl e)
  | inr response => ret (yahooQuotesOf response)
  end.

(** What is thrown once the fallback came back empty. *)
Definition surfaced (lastError : option Thrown) : Thrown :=
  match lastError with
  | Some e => if instanceofError e then e else ErrorObject "Failed to fetch quotes"
  | None => ErrorObject "Failed to fetch quotes"
  end.

(** The loop over the batch URLs and what follows it. *)
Fixpoint tryUrls (urls : list string) (lastError : option Thrown)
    (cleanedSymbols : list string) : M (Thrown + gmap string Quote) :=
  match urls with
  | u :: rest =>
      r <- yahooAttempt u ;;
      match r with
      | inr quoteMap => ret (inr quoteMap)
      | inl e => tryUrls rest (Some e) cleanedSymbols
      end
  | [] =>
      stooqQuotes <- fetchQuotesFromStooq cleanedSymbols ;;
      if (0 <? size stooqQuotes)%nat then ret (inr stooqQuotes)
      else ret (inl (surfaced lastError))
  end.

Definition cleanSymbols (symbols : list string) : list string :=
  filter (fun s => JsString.truthy s = true) (map normalizeSymbol symbols).

Definition fetchQuotes (symbols : list string) : M (Thrown + gmap string Quote) :=
  let cleanedSymbols := cleanSymbols symbols in
  match cleanedSymbols with
  | [] => ret (inr ∅)
  | _ =>
      let query := Uri.encodeURIComponent (JsString.join "," cleanedSymbols) in
      tryUrls (yahooUrls query) None cleanedSymbols
  end.

(** The requests the plain-text provider gets when no symbol gives a
    quote: for each symbol in turn, its two spellings. *)
Definition stooqRequestsOf (symbols : list string) : list Request :=
  flat_map
    (fun symbol => map stooqRequest (stooqCandidates (normalizeSymbol symbol)))
    symbols.

(** Every symbol, at its turn, comes back from the plain-text provider
    without a quote. *)
Fixpoint stooqAllFail (symbols : list string) (w : World) : Prop :=
  match symbols with
  | [] => True
  | symbol :: rest =>
      fst (fetchStooqQuote symbol w) = None
      /\ stooqAllFail rest (snd (fetchStooqQuote symbol w))
  end.

(* =================================================================== *)
(** ** The API-keyed provider *)
(* =================================================================== *)

Definition finnhubUrl (normalized apiKey : string) : string :=
  "https://finnhub.io/api/v1/quote?symbol=" ++ Uri.encodeURIComponent normalized
    ++ "&token=" ++ Uri.encodeURIComponent apiKey.

(** [typeof v === "number"] *)
Definition isNumber (v : JSValue) : bool :=
  match v with
  | JNum _ => true
  | _ => false
  end.

(** The adapter has no [try]: what [requestUrl] or the reading of
    [json] throws leaves the function. [inr None] is [null]. *)
Definition fetchFinnhubQuote (symbol apiKey : string) : M (Thrown + option Quote) :=
  let normalized := normalizeSymbol symbol in
  r <- requestUrl (mkRequest (finnhubUrl normalized apiKey) None (Some false)) ;;
  match r with
  | inl e => ret (inl e)
  | inr response =>
      if negb (status response =? 200)%Z then ret (inr None)
      else
        match json response with
        | inl e => ret (inl e)
        | inr data =>
            if negb (Json.truthy data) || negb (isNumber (Json.get data "c"))
            then ret (inr None)
            else
              ret (inr (Some
                {| symbol := normalized;
                   shortName := None;
                   longName := None;
                   currency := None;
                   bid := None;
                   ask := None;
                   regularMarketPrice := Json.numberField data "c";
                   regularMarketPreviousClose := Json.numberField data "pc";
                   regularMarketDayLow := Json.numberField data "l";
                   regularMarketDayHigh := Json.numberField data "h";
                   fiftyTwoWeekLow := None;
                   fiftyTwoWeekHigh := None;
                   marketCap := None;
                   regularMarketVolume := None;
                   regularMarketTime := Json.numberField data "t" |}))
        end
  end.

Fixpoint finnhubLoop (cleanedSymbols : list string) (apiKey : string)
    (quoteMap : gmap string Quote) : M (Thrown + gmap string Quote) :=
  match cleanedSymbols with
  | [] => ret (inr quoteMap)
  | symbol :: rest =>
      r <- fetchFinnhubQuote symbol apiKey ;;
      match r with
      | inl e => ret (inl e)
      | inr (Some quote) => finnhubLoop rest apiKey (<[symbol := quote]> quoteMap)
      | inr None => finnhubLoop rest apiKey quoteMap
      end
  end.

(** [fetchQuotes] of the API-keyed variant. *)
Definition fetchQuotesFinnhub (symbols : list string) (apiKey : string)
    : M (Thrown + gmap string Quote) :=
  match cleanSymbols symbols with
  | [] => ret (inr ∅)
  | cleanedSymbols => finnhubLoop cleanedSymbols apiKey ∅
  end.

(* =================================================================== *)
(** ** The command that updates the portfolio table *)
(* =================================================================== *)

Definition missingColumnsOf (roles : Roles) : list string :=
  (match priceIndex roles with None => ["Current Price"] | Some _ => [] end)
    ++ (match allocationIndex roles with None => ["Allocation"] | Some _ => [] end).

Definition requiredColumnsMessage : string :=
  "Table must include a Ticker/Fund column and a Shares column".

(** [updatePortfolioTable]: the argument is [None] for [null]; the
    result is the editor as the command leaves it. *)
Definition updatePortfolioTable (editor : option Editor) : M (option Editor) :=
  match editor with
  | None => notice "No active markdown editor" 5000 ;;; ret None
  | Some ed =>
      let selection := EditorOps.getSelection ed in
      let targetText :=
        if JsString.truthy selection then selection else EditorOps.getValue ed in
      let lines := JsString.split newline targetText in
      match locateTable lines with
      | None => notice "No markdown table found" 5000 ;;; ret (Some ed)
      | Some (tableStart, tableEnd, header) =>
          match resolveRoles header with
          | None => notice requiredColumnsMessage 7000 ;;; ret (Some ed)
          | Some roles =>
              let dataRows := dataRowsOf lines tableStart tableEnd in
              let symbols := symbolsOf roles dataRows in
              match symbols with
              | [] => notice "No tickers found in the table" 5000 ;;; ret (Some ed)
              | _ =>
                  r <- fetchQuotes symbols ;;
                  match r with
                  | inl e =>
                      consoleError "Error occurred:" (ArgThrown e) ;;;
                      notice "Error: couldn't retrieve stock information" 15000 ;;;
                      ret (Some ed)
                  | inr quotes =>
                      let updatedRows := reconcile header roles quotes dataRows in
                      let updated :=
                        updatedText lines tableStart tableEnd header updatedRows in
                      let ed' :=
                        if JsString.truthy selection
                        then EditorOps.replaceSelection updated ed
                        else EditorOps.setValue updated ed in
                      match missingColumnsOf roles with
                      | [] => notice "Updated portfolio table" 3000 ;;; ret (Some ed')
                      | missingColumns =>
                          notice ("Updated table. Add column(s): "
                                    ++ JsString.join ", " missingColumns
                                    ++ " to populate them.") 8000 ;;;
                          ret (Some ed')
                      end
                  end
              end
          end
      end
  end.

(* =================================================================== *)
(** ** Rendering one quote *)
(* =================================================================== *)

Definition numTruthy (v : option number) : bool :=
  match v with
  | Some x => JsNumber.truthy x
  | None => false
  end.

Definition strTruthy (v : option string) : bool :=
  match v with
  | Some s => JsString.truthy s
  | None => false
  end.

(** A number or [null] in a string concatenation. *)
Definition shown (v : option number) : string :=
  match v with
  | Some x => toString x
  | None => "null"
  end.

Definition get (v : option number) : number := default zero v.

(** The parenthesis after the symbol. *)
Definition subtitle (quote : Quote) : string :=
  let bid := bid quote in
  let ask := ask quote in
  let previousClose := regularMarketPreviousClose quote in
  let price := priceOf quote in
  if numTruthy bid && numTruthy ask then
    "(Bid: " ++ shown bid ++ ", Ask: " ++ shown ask ++ ", Spread: "
      ++ toFixed (mul (div (sub (get ask) (get bid)) (get ask)) (ofZ 100)) 3
      ++ "%)"
  else if numTruthy previousClose then
    "(Previous close: " ++ shown previousClose ++ ")"
  else if numTruthy price then "(Price: " ++ shown price ++ ")"
  else EmptyString.

Definition nl : string := JsString.single newline.

Definition nameLine (quote : Quote) : string :=
  let name := longName quote ?? shortName quote in
  if strTruthy name then nl ++ "> **Name:** " ++ default EmptyString name
  else EmptyString.

Definition currencyLine (quote : Quote) : string :=
  if strTruthy (currency quote)
  then nl ++ "> **Currency:** " ++ default EmptyString (currency quote)
  else EmptyString.

Definition volumeLine (quote : Quote) : string :=
  let volume := regularMarketVolume quote in
  if numTruthy volume then nl ++ "> **Volume:** " ++ toLocaleString (get volume)
  else EmptyString.

(** A market cap for which [formatLongNumber] has no answer would
    print as "undefined"; no truthy number is such a one. *)
Definition marketCapLine (quote : Quote) : string :=
  if strTruthy (currency quote) && numTruthy (marketCap quote)
  then nl ++ "> **Market cap:** "
         ++ default "undefined" (formatLongNumber (get (marketCap quote)))
  else EmptyString.

Definition previousCloseLine (quote : Quote) : string :=
  let previousClose := regularMarketPreviousClose quote in
  if numTruthy previousClose
  then nl ++ "> **Previous close:** " ++ shown previousClose
  else EmptyString.

(** The dash of the two range lines is an en dash, a code unit above
    255: it stands here as the bytes of its UTF-8 encoding. *)
Definition dayRangeLine (quote : Quote) : string :=
  let low := regularMarketDayLow quote in
  let high := regularMarketDayHigh quote in
  if numTruthy low && numTruthy high
  then nl ++ "> **Day range:** " ++ shown low ++ " – " ++ shown high
  else EmptyString.

Definition fiftyTwoWeekLine (quote : Quote) : string :=
  let low := fiftyTwoWeekLow quote in
  let high := fiftyTwoWeekHigh quote in
  if numTruthy low && numTruthy high
  then nl ++ "> **52W range:** " ++ shown low ++ " – " ++ shown high
  else EmptyString.

(** [updated] is a [Date] when the time is truthy, and every [Date]
    is truthy. *)
Definition timestampLine (quote : Quote) : string :=
  let time := regularMarketTime quote in
  if numTruthy time
  then nl ++ ">" ++ nl ++ "><small>*" ++ dateString (mul (get time) (ofZ 1000))
         ++ "*</small>"
  else EmptyString.

(** [output] as the insert command builds it, before the two line
    feeds that end the insertion. *)
Definition callout (ticker : string) (quote : Quote) : string :=
  "> [!info]- " ++ normalizeSymbol ticker ++ " "
    ++ subtitle quote
    ++ nameLine quote
    ++ currencyLine quote
    ++ volumeLine quote
    ++ marketCapLine quote
    ++ previousCloseLine quote
    ++ dayRangeLine quote
    ++ fiftyTwoWeekLine quote
    ++ timestampLine quote.

Definition retrieveMessage : string := "Error: couldn't retrieve stock information".

Definition logError (msg : string) : M unit :=
  consoleError "Error occurred:" (ArgString msg) ;;; notice retrieveMessage 15000.

(** [e instanceof Error ? e.message : String(e)] *)
Definition messageOf (e : Thrown) : string :=
  match e with
  | ErrorObject m => m
  | TypeErrorObject m => m
  | OtherValue s => s
  end.

(** [onSubmit] of the command that inserts the callout. *)
Definition insertStockInfo (ticker : string) (ed : Editor) : M Editor :=
  r <- fetchQuotes [ticker] ;;
  match r with
  | inl e => logError (messageOf e) ;;; ret ed
  | inr quotes =>
      match quotes !! normalizeSymbol ticker with
      | None => logError "Symbol not found" ;;; ret ed
      | Some quote =>
          ret (EditorOps.replaceSelection (callout ticker quote ++ nl ++ nl) ed)
      end
  end.

(** The keys of the field menu. *)
Inductive Field : Type :=
| F_bid | F_ask | F_previousClose | F_marketCap | F_volume
| F_fiftytwo_high | F_fiftytwo_low | F_dayRange_high | F_dayRange_low
| F_name | F_currency.

Definition fieldName (f : Field) : string :=
  match f with
  | F_bid => "bid"
  | F_ask => "ask"
  | F_previousClose => "previousClose"
  | F_marketCap => "marketCap"
  | F_volume => "volume"
  | F_fiftytwo_high => "fiftytwo_high"
  | F_fiftytwo_low => "fiftytwo_low"
  | F_dayRange_high => "dayRange_high"
  | F_dayRange_low => "dayRange_low"
  | F_name => "name"
  | F_currency => "currency"
  end.

(** [stockData[field]]: a number, a string, or [None] for [null]. *)
Definition stockData (quote : Quote) (f : Field) : option (number + string) :=
  match f with
  | F_name => option_map inr (longName quote ?? shortName quote)
  | F_currency => option_map inr (currency quote)
  | F_bid => option_map inl (bid quote)
  | F_ask => option_map inl (ask quote)
  | F_marketCap => option_map inl (marketCap quote)
  | F_previousClose => option_map inl (regularMarketPreviousClose quote)
  | F_volume => option_map inl (regularMarketVolume quote)
  | F_fiftytwo_high => option_map inl (fiftyTwoWeekHigh quote)
  | F_fiftytwo_low => option_map inl (fiftyTwoWeekLow quote)
  | F_dayRange_high => option_map inl (regularMarketDayHigh quote)
  | F_dayRange_low => option_map inl (regularMarketDayLow quote)
  end.

(** What the single-value command inserts, [None] where it shows
    the notice that no data is available. *)
Definition singleValue (quote : Quote) (f : Field) : option string :=
  match stockData quote f with
  | None => None
  | Some (inl x) =>
      match f with
      | F_marketCap => Some (default (toString x) (formatLongNumber x))
      | F_volume => Some (toLocaleString x)
      | _ => Some (toString x)
      end
  | Some (inr s) => Some s
  end.

(** [onSubmit] of the command that inserts one value. *)
Definition getSingleStockValue (ticker : string) (f : Field) (ed : Editor) : M Editor :=
  r <- fetchQuotes [ticker] ;;
  match r with
  | inl e => logError (messageOf e) ;;; ret ed
  | inr quotes =>
      match quotes !! normalizeSymbol ticker with
      | None => logError "Symbol not found" ;;; ret ed
      | Some quote =>
          match singleValue quote f with
          | Some output => ret (EditorOps.replaceSelection output ed)
          | None =>
              notice ("No data available for " ++ fieldName f) 5000 ;;; ret ed
          end
      end
  end.

End Host.


(* ===================================================================== *)
(** * Sample data *)
(* ===================================================================== *)

Module Examples.

Definition portfolioHeader : list string :=
  ["Ticker"; "Shares"; "Current Price"; "Value"; "Allocation"].

Definition portfolioRoles : Roles := mkRoles 0 1 (Some 2) (Some 3) (Some 4).

(** A quote that has a market price and nothing else. *)
Definition priced (sym : string) (price : Z) : Quote :=
  mkQuote sym None None None None None (Some (ofZ price)) None None None None
    None None None None.

Definition appleOnly : gmap string Quote := {[ "AAPL" := priced "AAPL" 150 ]}.

Definition appleAndMicrosoft : gmap string Quote :=
  <["MSFT" := priced "MSFT" 100]> appleOnly.

(** A run of [n] dashes, and the cells of a separator line after the
    first: each a column separator and a run of three dashes or more. *)
Definition dashes (n : nat) : string := JsString.replicate n "-".

Fixpoint dashCells (extra : list nat) : string :=
  match extra with
  | [] => EmptyString
  | n :: rest => "|" ++ dashes (3 + n) ++ dashCells rest
  end.

End Examples.

(* ===================================================================== *)
(** * Shapes of strings *)
(* ===================================================================== *)

Module Shape.

Import JsString.

(** A string whose first character, if it has one, is not white space;
    and the same for the last character. *)
Definition headOk (s : string) : bool :=
  match s with
  | EmptyString => true
  | String c _ => negb (isWhiteSpace c)
  end.

Fixpoint lastOk (s : string) : bool :=
  match s with
  | EmptyString => true
  | String c EmptyString => negb (isWhiteSpace c)
  | String _ s' => lastOk s'
  end.

(** Every character of the string passes the test. *)
Fixpoint allChars (p : ascii -> bool) (s : string) : bool :=
  match s with
  | EmptyString => true
  | String c s' => p c && allChars p s'
  end.

(** How many times a character occurs. *)
Fixpoint count (c : ascii) (s : string) : nat :=
  match s with
  | EmptyString => O
  | String d s' => (if Ascii.eqb d c then 1 else 0) + count c s'
  end.

(** A character that can stand inside a table cell without changing
    how the line is split: no white space, so no line feed either, and
    no bar. *)
Definition plain (c : ascii) : bool :=
  negb (isWhiteSpace c) && negb (Ascii.eqb c "|").

(** The characters of a formatted finite number. *)
Definition numeric (c : ascii) : bool :=
  isDigit c || Ascii.eqb c "," || Ascii.eqb c "." || Ascii.eqb c "-".

(** The characters [encodeURIComponent] lets through or produces. *)
Definition urlSafe (c : ascii) : bool :=
  Uri.isUnreserved c || Ascii.eqb c "%".

End Shape.

Module Pattern.

Import JsString Regex.

(** Every character class of the pattern lies inside [P]. *)
Fixpoint within (P : ascii -> bool) (r : re) : Prop :=
  match r with
  | Void | Eps => True
  | Class p => forall c, p c = true -> P c = true
  | Seq a b | Alt a b => within P a /\ within P b
  | Star a => within P a
  end.

(** The characters the separator pattern is written with. *)
Definition separatorChar (c : ascii) : bool :=
  isWhiteSpace c || Ascii.eqb c "|" || Ascii.eqb c ":" || Ascii.eqb c "-".

End Pattern.

(* ===================================================================== *)
(** * Decimal literals *)
(* ===================================================================== *)

Module Literal.

Import JsString.

Local Open Scope Z_scope.

(** The integer a run of decimal digits denotes, read onto [acc]. *)
Definition digitsOnto (acc : Z) (ds : string) : Z :=
  fold_left (fun a c => a * 10 + digitValue c) (list_ascii_of_string ds) acc.

Definition digitsValue (ds : string) : Z := digitsOnto 0 ds.

(** A StrDecimalLiteral other than Infinity, by its parts: the sign
    ([Some true] is a minus sign, [Some false] a plus sign), the
    digits before the point, the digits after it when there is a
    point, and the exponent when there is one: whether its letter is
    the capital, its sign and its digits. *)
Record t : Type := mk {
  sign : option bool;
  intDigits : string;
  fracDigits : option string;
  exponent : option (bool * option bool * string)
}.

Definition signText (s : option bool) : string :=
  match s with
  | None => ""
  | Some true => "-"
  | Some false => "+"
  end.

Definition isMinus (s : option bool) : bool :=
  match s with
  | Some true => true
  | _ => false
  end.

Definition fracText (f : option string) : string :=
  match f with
  | Some ds => "." ++ ds
  | None => ""
  end.

Definition exponentText (e : option (bool * option bool * string)) : string :=
  match e with
  | Some (capital, s, ds) => (if capital then "E" else "e") ++ signText s ++ ds
  | None => ""
  end.

(** The literal as it is written. *)
Definition text (l : t) : string :=
  signText (sign l) ++ intDigits l ++ fracText (fracDigits l)
    ++ exponentText (exponent l).

(** The grammar: digits only, at least one digit in the mantissa and,
    when there is an exponent, at least one in it. *)
Definition wellFormed (l : t) : bool :=
  Shape.allChars isDigit (intDigits l)
  && Shape.allChars isDigit (default "" (fracDigits l))
  && JsString.truthy (intDigits l ++ default "" (fracDigits l))
  && match exponent l with
     | Some (_, _, ds) => Shape.allChars isDigit ds && JsString.truthy ds
     | None => true
     end.

Definition exponentValue (e : option (bool * option bool * string)) : Z :=
  match e with
  | Some (_, s, ds) => if isMinus s then - digitsValue ds else digitsValue ds
  | None => 0
  end.

(** The number the literal denotes: the binary64 value nearest to
    [digits * 10 ^ (exponent - number of fraction digits)]. *)
Definition value (l : t) : number :=
  let f := default "" (fracDigits l) in
  let '(p, q) :=
    scale10 (digitsValue (intDigits l ++ f)) 1
      (exponentValue (exponent l) - Z.of_nat (String.length f)) in
  nearest (isMinus (sign l)) p q.

(** A text that can follow a literal without adding to it: empty, or
    beginning with a character that is no digit, no point and no
    exponent letter. *)
Definition endsLiteral (rest : string) : bool :=
  match rest with
  | EmptyString => true
  | String c _ =>
      negb (isDigit c || Ascii.eqb c "." || Ascii.eqb c "e" || Ascii.eqb c "E")
  end.

(** A character no literal begins with. *)
Definition startsNoLiteral (c : ascii) : bool :=
  negb (isDigit c || Ascii.eqb c "." || Ascii.eqb c "+" || Ascii.eqb c "-"
        || Ascii.eqb c "I" || isWhiteSpace c).

End Literal.

(** The columns a header gives a role to, in the order the engine
    resolves them. *)
Definition roleColumns (roles : Roles) : list nat :=
  tickerIndex roles :: sharesIndex roles
    :: option_list (priceIndex roles) ++ option_list (valueIndex roles)
    ++ option_list (allocationIndex roles).

(** The columns of a resolved header: inside the header, and no
    column with two roles. *)
Record Resolved (header : list string) (roles : Roles) : Prop := mkResolved {
  ticker_lt : tickerIndex roles < length header;
  shares_lt : sharesIndex roles < length header;
  price_lt : forall p, priceIndex roles = Some p -> p < length header;
  value_lt : forall v, valueIndex roles = Some v -> v < length header;
  allocation_lt : forall a, allocationIndex roles = Some a -> a < length header;
  ticker_shares : tickerIndex roles <> sharesIndex roles;
  price_ticker : priceIndex roles <> Some (tickerIndex roles);
  price_shares : priceIndex roles <> Some (sharesIndex roles);
  value_ticker : valueIndex roles <> Some (tickerIndex roles);
  value_shares : valueIndex roles <> Some (sharesIndex roles);
  allocation_ticker : allocationIndex roles <> Some (tickerIndex roles);
  allocation_shares : allocationIndex roles <> Some (sharesIndex roles);
  price_value : forall p, priceIndex roles = Some p -> valueIndex roles <> Some p;
  price_allocation : forall p, priceIndex roles = Some p -> allocationIndex roles <> Some p;
  value_allocation : forall v, valueIndex roles = Some v -> allocationIndex roles <> Some v
}.


(** From world [w] to world [w'] the requests in [sent] were sent, in
    that order, and nothing else happened: no notice, no line on the
    console. *)
Definition sends (w w' : World) (sent : list Request) : Prop :=
  w' = mkWorld (requests w ++ sent) (notices w) (consoleErrors w).

(** The request [fetchFinnhubQuote] sends for a symbol. *)
Definition finnhubRequest (symbol apiKey : string) : Request :=
  mkRequest (finnhubUrl (normalizeSymbol symbol) apiKey) None (Some false).

(* ===================================================================== *)
(** * The ribbon icon *)
(* ===================================================================== *)

(** The active markdown view, as far as the plugin reads it. *)
Record MarkdownView : Type := mkMarkdownView { viewEditor : Editor }.

(** The callback of the ribbon icon: [view] is what
    [getActiveViewOfType(MarkdownView)] returned, [None] for [null];
    the command gets [view?.editor ?? null]. *)
Definition ribbonCallback (respond : list Request -> Request -> Thrown + Response)
    (dateParse : string -> number) (view : option MarkdownView) : M (option Editor) :=
  updatePortfolioTable respond dateParse (option_map viewEditor view).

(* ===================================================================== *)
(** * The API-keyed variant: settings and commands *)
(* ===================================================================== *)

Record StockInfoSettings : Type := mkSettings { finnhubApiKey : string }.

Definition DEFAULT_SETTINGS : StockInfoSettings := mkSettings EmptyString.

(** What the host's [loadData] resolves to, read at the type of the
    settings: [None] for [null], when nothing was saved yet, otherwise
    an object that holds the key or lacks it. *)
Record SavedData : Type := mkSavedData { savedApiKey : option string }.

(** [Object.assign({}, DEFAULT_SETTINGS, await this.loadData())] *)
Definition loadSettings (data : option SavedData) : StockInfoSettings :=
  match data with
  | Some d => mkSettings (default (finnhubApiKey DEFAULT_SETTINGS) (savedApiKey d))
  | None => DEFAULT_SETTINGS
  end.

(** [saveSettings]: what is handed to the host's [saveData]. *)
Definition saveSettings (settings : StockInfoSettings) : SavedData :=
  mkSavedData (Some (finnhubApiKey settings)).

(** [onChange] of the text field of the settings tab: the settings as
    they are left, and what is saved. *)
Definition onChange (value : string) (settings : StockInfoSettings)
    : StockInfoSettings * SavedData :=
  let settings := mkSettings (JsString.trim value) in
  (settings, saveSettings settings).

Module Keyed.

Definition keyMessage : string := "Set your Finnhub API key in plugin settings".

Section Host.

Variable respond : list Request -> Request -> Thrown + Response.
Variable dateString : number -> string.

(** [updatePortfolioTable] of the API-keyed variant. *)
Definition updatePortfolioTable (settings : StockInfoSettings) (editor : option Editor)
    : M (option Editor) :=
  match editor with
  | None => notice "No active markdown editor" 5000 ;;; ret None
  | Some ed =>
      if negb (JsString.truthy (finnhubApiKey settings))
      then notice keyMessage 7000 ;;; ret (Some ed)
      else
        let selection := EditorOps.getSelection ed in
        let targetText :=
          if JsString.truthy selection then selection else EditorOps.getValue ed in
        let lines := JsString.split newline targetText in
        match locateTable lines with
        | None => notice "No markdown table found" 5000 ;;; ret (Some ed)
        | Some (tableStart, tableEnd, header) =>
            match resolveRoles header with
            | None => notice requiredColumnsMessage 7000 ;;; ret (Some ed)
            | Some roles =>
                let dataRows := dataRowsOf lines tableStart tableEnd in
                let symbols := symbolsOf roles dataRows in
                match symbols with
                | [] => notice "No tickers found in the table" 5000 ;;; ret (Some ed)
                | _ =>
                    r <- fetchQuotesFinnhub respond symbols (finnhubApiKey settings) ;;
                    match r with
                    | inl e =>
                        consoleError "Error occurred:" (ArgThrown e) ;;;
                        notice "Error: couldn't retrieve stock information" 15000 ;;;
                        ret (Some ed)
                    | inr quotes =>
                        if (size quotes =? 0)%nat
                        then notice "No quotes returned for table" 7000 ;;; ret (Some ed)
                        else
                          let updatedRows := reconcile header roles quotes dataRows in
                          let updated :=
                            updatedText lines tableStart tableEnd header updatedRows in
                          let ed' :=
                            if JsString.truthy selection
                            then EditorOps.replaceSelection updated ed
                            else EditorOps.setValue updated ed in
                          match missingColumnsOf roles with
                          | [] =>
                              notice "Updated portfolio table" 3000 ;;; ret (Some ed')
                          | missingColumns =>
                              notice ("Updated table. Add column(s): "
                                        ++ JsString.join ", " missingColumns
                                        ++ " to populate them.") 8000 ;;;
                              ret (Some ed')
                          end
                    end
                end
            end
        end
  end.

(** [onSubmit] of the command that inserts the callout. *)
Definition insertStockInfo (settings : StockInfoSettings) (ticker : string)
    (ed : Editor) : M Editor :=
  if negb (JsString.truthy (finnhubApiKey settings))
  then notice keyMessage 7000 ;;; ret ed
  else
    r <- fetchQuotesFinnhub respond [ticker] (finnhubApiKey settings) ;;
    match r with
    | inl e => logError (messageOf e) ;;; ret ed
    | inr quotes =>
        match quotes !! normalizeSymbol ticker with
        | None => logError "No data returned for symbol" ;;; ret ed
        | Some quote =>
            ret (EditorOps.replaceSelection
                   (callout dateString ticker quote ++ nl ++ nl) ed)
        end
    end.

(** [onSubmit] of the command that inserts one value. *)
Definition getSingleStockValue (settings : StockInfoSettings) (ticker : string)
    (f : Field) (ed : Editor) : M Editor :=
  if negb (JsString.truthy (finnhubApiKey settings))
  then notice keyMessage 7000 ;;; ret ed
  else
    r <- fetchQuotesFinnhub respond [ticker] (finnhubApiKey settings) ;;
    match r with
    | inl e => logError (messageOf e) ;;; ret ed
    | inr quotes =>
        match quotes !! normalizeSymbol ticker with
        | None => logError "No data returned for symbol" ;;; ret ed
        | Some quote =>
            match singleValue quote f with
            | Some output => ret (EditorOps.replaceSelection output ed)
            | None =>
                notice ("No data available for " ++ fieldName f) 5000 ;;; ret ed
            end
        end
    end.

End Host.

End Keyed.

(* ===================================================================== *)
(** * The modals *)
(* ===================================================================== *)

Module Modal.

(** The field menu: key and label, in the order of the object
    literal. *)
Definition STOCK_FIELDS : list (string * string) :=
  [("bid", "Bid Price");
   ("ask", "Ask Price");
   ("previousClose", "Previous Close");
   ("marketCap", "Market Cap");
   ("volume", "Volume");
   ("fiftytwo_high", "52 Week High");
   ("fiftytwo_low", "52 Week Low");
   ("dayRange_high", "Day High");
   ("dayRange_low", "Day Low");
   ("name", "Company Name");
   ("currency", "Currency")].

(** What the user does in an open modal: types into the text field,
    picks an option of the dropdown, clicks the button. *)
Inductive Event : Type :=
| TickerInput (value : string)
| FieldChoice (value : string)
| ButtonClick.

(** [InsertLinkModal]: its state is the ticker. The click closes the
    modal and hands the ticker to [onSubmit]; [None] is a modal still
    open. The modal has no dropdown. *)
Record InsertLinkModal : Type := mkInsertLinkModal { linkTicker : string }.

Definition newInsertLinkModal (defaultTicker : string) : InsertLinkModal :=
  mkInsertLinkModal defaultTicker.

Fixpoint insertLinkRun (m : InsertLinkModal) (events : list Event) : option string :=
  match events with
  | [] => None
  | TickerInput value :: rest => insertLinkRun (mkInsertLinkModal value) rest
  | FieldChoice _ :: rest => insertLinkRun m rest
  | ButtonClick :: _ => Some (linkTicker m)
  end.

(** [SingleValueModal]: the ticker and the field, which starts as
    "previousClose". *)
Record SingleValueModal : Type := mkSingleValueModal {
  ticker : string;
  field : string
}.

Definition newSingleValueModal (defaultTicker : string) : SingleValueModal :=
  mkSingleValueModal defaultTicker "previousClose".

(** The options of the dropdown: the keys of [STOCK_FIELDS]. *)
Definition dropdownOptions : list string := map fst STOCK_FIELDS.

Fixpoint singleValueRun (m : SingleValueModal) (events : list Event)
    : option (string * string) :=
  match events with
  | [] => None
  | TickerInput value :: rest =>
      singleValueRun (mkSingleValueModal value (field m)) rest
  | FieldChoice value :: rest =>
      singleValueRun (mkSingleValueModal (ticker m) value) rest
  | ButtonClick :: _ => Some (ticker m, field m)
  end.

(** What was typed into the text field and what was picked in the
    dropdown, in the order of the events. *)
Fixpoint typedTickers (events : list Event) : list string :=
  match events with
  | [] => []
  | TickerInput value :: rest => value :: typedTickers rest
  | _ :: rest => typedTickers rest
  end.

Fixpoint chosenFields (events : list Event) : list string :=
  match events with
  | [] => []
  | FieldChoice value :: rest => value :: chosenFields rest
  | _ :: rest => chosenFields rest
  end.

Definition isClick (ev : Event) : bool :=
  match ev with
  | ButtonClick => true
  | _ => false
  end.

(** The events a dropdown can deliver: a choice is one of its
    options. *)
Definition fromDropdown (ev : Event) : Prop :=
  match ev with
  | FieldChoice value => In value dropdownOptions
  | _ => True
  end.

(** The field of [stockData] a key names, if it names one. *)
Definition allFields : list Field :=
  [F_bid; F_ask; F_previousClose; F_marketCap; F_volume; F_fiftytwo_high;
   F_fiftytwo_low; F_dayRange_high; F_dayRange_low; F_name; F_currency].

Definition fieldOfKey (key : string) : option Field :=
  List.find (fun f => String.eqb (fieldName f) key) allFields.

End Modal.

(** The insert command from the click on: the modal opens on the
    selection, and what it submits goes to [onSubmit]. *)
Definition insertCommand (respond : list Request -> Request -> Thrown + Response)
    (dateParse : string -> number) (dateString : number -> string)
    (events : list Modal.Event) (ed : Editor) : M Editor :=
  match Modal.insertLinkRun (Modal.newInsertLinkModal (EditorOps.getSelection ed)) events with
  | Some ticker => insertStockInfo respond dateParse dateString ticker ed
  | None => ret ed
  end.

(** A host that answers every request, with a status other than 200:
    what the API-keyed provider does to a key it does not accept. *)
Definition rejecting (respond : list Request -> Request -> Thrown + Response) : Prop :=
  forall history req, exists response,
    respond history req = inr response /\ status response <> 200%Z.

(* ===================================================================== *)
(** * Facts about strings *)
(* ===================================================================== *)

Module StringFacts.

Import JsString.

Lemma append_nil_r (s : string) : s ++ EmptyString = s.
Proof. induction s as [|c s IH]; simpl; [reflexivity | now rewrite IH]. Qed.

Lemma append_assoc (a b c : string) : (a ++ b) ++ c = a ++ (b ++ c).
Proof. induction a as [|x a IH]; simpl; [reflexivity | now rewrite IH]. Qed.

Lemma append_eq_nil (a b : string) :
  a ++ b = EmptyString -> a = EmptyString /\ b = EmptyString.
Proof. destruct a; simpl; [auto | discriminate]. Qed.

Lemma length_append (a b : string) :
  String.length (a ++ b) = String.length a + String.length b.
Proof. induction a as [|x a IH]; simpl; [reflexivity | now rewrite IH]. Qed.

(** ** Splitting and joining *)

Lemma split_nonempty (sep : ascii) (s : string) : split sep s <> [].
Proof.
  induction s as [|c s IH]; simpl; [discriminate|].
  destruct (Ascii.eqb c sep); [discriminate|].
  destruct (split sep s); [contradiction | discriminate].
Qed.

Lemma split_cons (sep c : ascii) (s : string) :
  Ascii.eqb c sep = false ->
  exists x xs, split sep s = x :: xs /\ split sep (String c s) = String c x :: xs.
Proof.
  intros Hc. simpl. rewrite Hc.
  destruct (split sep s) as [|x xs] eqn:E.
  - now apply split_nonempty in E.
  - eauto.
Qed.

(** Joining what was split gives the text back. *)
Lemma join_split (sep : ascii) (s : string) : join (single sep) (split sep s) = s.
Proof.
  induction s as [|c s IH]; [reflexivity|].
  simpl split. destruct (Ascii.eqb_spec c sep) as [->|Hne].
  - destruct (split sep s) as [|x xs] eqn:E; [now apply split_nonempty in E|].
    change (join (single sep) (EmptyString :: x :: xs))
      with (EmptyString ++ single sep ++ join (single sep) (x :: xs)).
    now rewrite IH.
  - destruct (split sep s) as [|x xs] eqn:E; [now apply split_nonempty in E|].
    destruct xs as [|y ys].
    + simpl in *. now rewrite IH.
    + change (join (single sep) (String c x :: y :: ys))
        with (String c (x ++ single sep ++ join (single sep) (y :: ys))).
      change (join (single sep) (x :: y :: ys))
        with (x ++ single sep ++ join (single sep) (y :: ys)) in IH.
      now rewrite IH.
Qed.

Lemma split_no_sep (sep : ascii) (s : string) :
  includes sep s = false -> split sep s = [s].
Proof.
  induction s as [|c s IH]; [reflexivity|].
  simpl. intros H. apply orb_false_iff in H as [Hc Hs].
  rewrite Hc, (IH Hs). reflexivity.
Qed.

Lemma split_app_sep (sep : ascii) (a b : string) :
  includes sep a = false ->
  split sep (a ++ String sep b) = a :: split sep b.
Proof.
  induction a as [|c a IH]; intros H.
  - simpl. now rewrite Ascii.eqb_refl.
  - simpl in H. apply orb_false_iff in H as [Hc Ha].
    change (String c a ++ String sep b) with (String c (a ++ String sep b)).
    simpl split. rewrite Hc, (IH Ha). reflexivity.
Qed.

Lemma includes_app (c : ascii) (a b : string) :
  includes c (a ++ b) = includes c a || includes c b.
Proof.
  induction a as [|x a IH]; simpl; [reflexivity|].
  now rewrite IH, orb_assoc.
Qed.

(** ** Trimming *)

Lemma length_trimStart (s : string) : String.length (trimStart s) <= String.length s.
Proof.
  induction s as [|c s IH]; simpl; [lia|].
  destruct (isWhiteSpace c); simpl; lia.
Qed.

Lemma length_trimEnd (s : string) : String.length (trimEnd s) <= String.length s.
Proof.
  induction s as [|c s IH]; simpl; [lia|].
  destruct (trimEnd s); [destruct (isWhiteSpace c)|]; simpl in *; lia.
Qed.

Lemma trimEnd_blank (s : string) : isBlank s = true -> trimEnd s = EmptyString.
Proof.
  induction s as [|c s IH]; simpl; [reflexivity|].
  intros H. apply andb_true_iff in H as [Hc Hs].
  now rewrite (IH Hs), Hc.
Qed.

Lemma trimEnd_app_blank (s t : string) :
  isBlank t = true -> trimEnd (s ++ t) = trimEnd s.
Proof.
  intros Ht. induction s as [|c s IH]; simpl.
  - now apply trimEnd_blank.
  - now rewrite IH.
Qed.

Lemma trimEnd_snoc (s : string) (c : ascii) :
  isWhiteSpace c = false -> trimEnd (s ++ single c) = s ++ single c.
Proof.
  intros Hc. induction s as [|d s IH]; simpl.
  - now rewrite Hc.
  - rewrite IH. destruct (s ++ single c) eqn:E; [|reflexivity].
    destruct s; discriminate.
Qed.

(** A trimmed string is empty or begins with a character that is not
    white space, and trimming its end changes nothing. *)
Lemma trim_fixed (s : string) :
  trim s = s ->
  trimEnd s = s /\
  (s = EmptyString \/ exists c t, s = String c t /\ isWhiteSpace c = false).
Proof.
  unfold trim. destruct s as [|c t]; [auto|].
  simpl trimStart. destruct (isWhiteSpace c) eqn:Hc.
  - intros H. exfalso.
    pose proof (length_trimEnd (trimStart t)) as H1.
    pose proof (length_trimStart t) as H2.
    rewrite H in H1. simpl in H1. lia.
  - intros H. split; [exact H | right; eauto].
Qed.

(** A trimmed cell comes back from between the spaces that
    serialization puts around it. *)
Lemma trim_spaced (s : string) : trim s = s -> trim (" " ++ s ++ " ") = s.
Proof.
  intros H. destruct (trim_fixed s H) as [He [->|(c & t & -> & Hc)]].
  - reflexivity.
  - unfold trim. change (" " ++ String c t ++ " ") with (String " " (String c (t ++ " "))).
    simpl trimStart. rewrite Hc.
    change (String c (t ++ " ")) with (String c t ++ " ").
    rewrite trimEnd_app_blank by reflexivity. exact He.
Qed.

Lemma endsWith_snoc (s : string) (c : ascii) : endsWith c (s ++ single c) = true.
Proof.
  induction s as [|d s IH]; simpl.
  - apply Ascii.eqb_refl.
  - rewrite IH. destruct (s ++ single c) eqn:E; [destruct s; discriminate | reflexivity].
Qed.

Lemma dropLast_snoc (s : string) (c : ascii) : dropLast (s ++ single c) = s.
Proof.
  induction s as [|d s IH]; simpl; [reflexivity|].
  rewrite IH. destruct (s ++ single c) eqn:E; [destruct s; discriminate | reflexivity].
Qed.

Lemma isBlank_includes (c : ascii) (s : string) :
  isWhiteSpace c = false -> includes c s = true -> isBlank s = false.
Proof.
  intros Hc. induction s as [|d s IH]; simpl; [discriminate|].
  intros H. apply orb_true_iff in H as [H|H].
  - apply Ascii.eqb_eq in H. subst d. now rewrite Hc.
  - rewrite (IH H). apply andb_false_r.
Qed.

End StringFacts.

(* ===================================================================== *)
(** * Facts about numbers *)
(* ===================================================================== *)

Module NumberFacts.

(** A number is strictly positive exactly when it is a finite number
    or an infinity whose sign bit is clear. *)
Lemma gtb_zero (x : number) :
  gtb x zero = true <->
  (exists m e, x = S754_finite false m e) \/ x = S754_infinity false.
Proof.
  split.
  - destruct x as [s|s| |s m e]; try destruct s; try discriminate; eauto.
  - intros [(m & e & ->)| ->]; reflexivity.
Qed.

Lemma round_negative (mx ex : Z) (lx : location) :
  gtb (binary_round_aux prec emax true mx ex lx) zero = false.
Proof.
  unfold binary_round_aux.
  destruct (shr_fexp prec emax mx ex lx) as [mrs' e'].
  destruct (shr_fexp prec emax _ e' loc_Exact) as [mrs'' e''].
  destruct (shr_m mrs''); [reflexivity| |reflexivity].
  destruct (e'' <=? emax - prec)%Z; reflexivity.
Qed.

(** Adding two numbers neither of which is positive gives no
    positive number. *)
Lemma add_not_positive (x y : number) :
  gtb x zero = false -> gtb y zero = false -> gtb (add x y) zero = false.
Proof.
  destruct x as [sx|sx| |sx mx ex]; destruct y as [sy|sy| |sy my ey];
    try destruct sx; try destruct sy; try discriminate; try reflexivity.
  intros _ _. unfold add, SFadd. cbn [cond_Zopp].
  set (a := fst (shl_align mx ex (Z.min ex ey))).
  set (b := fst (shl_align my ey (Z.min ex ey))).
  change (- Z.pos a + - Z.pos b)%Z with (Z.neg (a + b)).
  clearbody a b. unfold binary_normalize, binary_round.
  destruct (shl_align _ _ _) as [mz ez].
  apply round_negative.
Qed.

End NumberFacts.

(* ===================================================================== *)
(** * Rounding without overflow *)
(* ===================================================================== *)

Module Overflow.

Local Open Scope Z_scope.

Lemma digits_upper (p : positive) : Z.pos p < 2 ^ Z.pos (digits2_pos p).
Proof.
  induction p as [p IH|p IH|]; simpl digits2_pos; rewrite ?Pos2Z.inj_succ, ?Z.pow_succ_r by lia; lia.
Qed.

Lemma digits_le (p : positive) : forall k, 0 <= k -> Z.pos p < 2 ^ k -> Z.pos (digits2_pos p) <= k.
Proof.
  induction p as [p IH|p IH|]; intros k Hk H; simpl digits2_pos; rewrite ?Pos2Z.inj_succ.
  - assert (k = 0 \/ 0 < k) as [->|Hpos] by lia; [simpl in H; lia|].
    replace k with (Z.succ (k - 1)) in H by lia. rewrite Z.pow_succ_r in H by lia.
    specialize (IH (k - 1) ltac:(lia) ltac:(lia)). lia.
  - assert (k = 0 \/ 0 < k) as [->|Hpos] by lia; [simpl in H; lia|].
    replace k with (Z.succ (k - 1)) in H by lia. rewrite Z.pow_succ_r in H by lia.
    specialize (IH (k - 1) ltac:(lia) ltac:(lia)). lia.
  - assert (k = 0 \/ 0 < k) as [->|Hpos] by lia; [simpl in H; lia|]. lia.
Qed.

Lemma Zdigits2_le (m k : Z) : 0 <= m -> 0 <= k -> m < 2 ^ k -> Zdigits2 m <= k.
Proof.
  intros Hm Hk H. destruct m as [|p|p]; simpl; [lia| |lia]. now apply digits_le.
Qed.

Lemma Zdigits2_upper (m : Z) : 0 <= m -> m < 2 ^ Zdigits2 m.
Proof.
  intros Hm. destruct m as [|p|p]; simpl; [lia| |lia]. apply digits_upper.
Qed.

Lemma Zdigits2_nonneg (m : Z) : 0 <= Zdigits2 m.
Proof. destruct m; simpl; lia. Qed.

Lemma shr_1_m (mrs : shr_record) :
  0 <= shr_m mrs -> shr_m (shr_1 mrs) = shr_m mrs / 2.
Proof.
  destruct mrs as [m r s]. simpl. intros Hm.
  destruct m as [|[p|p|]|p]; cbn [shr_m]; try lia; try reflexivity.
  - apply Z.div_unique with 1; lia.
  - apply Z.div_unique with 0; lia.
Qed.

Lemma pow2_pos (n : Z) : 0 <= n -> 0 < 2 ^ n.
Proof. intros H. apply Z.pow_pos_nonneg; lia. Qed.

Lemma iter_shr_m (n : positive) :
  forall mrs, 0 <= shr_m mrs ->
    shr_m (SpecFloat.iter_pos shr_1 n mrs) = shr_m mrs / 2 ^ Z.pos n.
Proof.
  induction n as [n IH|n IH|]; intros mrs Hm; simpl SpecFloat.iter_pos.
  - pose proof (pow2_pos (Z.pos n) ltac:(lia)) as Hp.
    assert (H1 : 0 <= shr_m (shr_1 mrs)) by (rewrite shr_1_m by lia; apply Z.div_pos; lia).
    assert (H2 : 0 <= shr_m (SpecFloat.iter_pos shr_1 n (shr_1 mrs)))
      by (rewrite IH by lia; apply Z.div_pos; lia).
    rewrite IH by lia. rewrite IH by lia. rewrite shr_1_m by lia.
    replace (Z.pos n~1) with (1 + (Z.pos n + Z.pos n)) by lia.
    rewrite !Z.pow_add_r by lia. rewrite !Z.div_div by lia.
    now rewrite Z.pow_1_r.
  - pose proof (pow2_pos (Z.pos n) ltac:(lia)) as Hp.
    assert (H2 : 0 <= shr_m (SpecFloat.iter_pos shr_1 n mrs))
      by (rewrite IH by lia; apply Z.div_pos; lia).
    rewrite IH by lia. rewrite IH by lia.
    replace (Z.pos n~0) with (Z.pos n + Z.pos n) by lia.
    rewrite !Z.pow_add_r by lia. now rewrite !Z.div_div by lia.
  - rewrite shr_1_m by lia. reflexivity.
Qed.

Lemma shr_record_of_loc_m (m : Z) (l : location) : shr_m (shr_record_of_loc m l) = m.
Proof. destruct l as [|[]]; reflexivity. Qed.

(** The mantissa and the exponent after the shift that [shr_fexp] makes. *)
Lemma shr_fexp_spec (m e : Z) (l : location) :
  0 <= m ->
  let n := fexp prec emax (Zdigits2 m + e) - e in
  shr_fexp prec emax m e l
  = (fst (shr_fexp prec emax m e l), if 0 <? n then e + n else e)
  /\ shr_m (fst (shr_fexp prec emax m e l)) = if 0 <? n then m / 2 ^ n else m.
Proof.
  intros Hm n. unfold shr_fexp, shr. fold n.
  destruct n as [|p|p] eqn:En; simpl; rewrite ?shr_record_of_loc_m; auto.
  split; [reflexivity|].
  rewrite iter_shr_m by (rewrite shr_record_of_loc_m; lia).
  now rewrite shr_record_of_loc_m.
Qed.

Lemma round_nearest_even_bounds (m : Z) (l : location) :
  m <= round_nearest_even m l <= m + 1.
Proof. unfold round_nearest_even. destruct l as [|[]]; try destruct (Z.even m); lia. Qed.

Lemma fexp_le (k : Z) : k <= 1024 -> fexp prec emax k <= 971.
Proof. unfold fexp, emin, prec, emax. lia. Qed.

(** Rounding does not overflow when the value is below 2^1023, and
    the mantissa it returns exceeds the one given by one at most. *)
Lemma binary_round_aux_bounded (sx : bool) (mx ex : Z) (lx : location) :
  0 <= mx -> ex <= 970 -> Zdigits2 mx + ex <= 1023 ->
  match binary_round_aux prec emax sx mx ex lx with
  | S754_zero _ => True
  | S754_finite _ m _ => Z.pos m <= mx + 1
  | _ => False
  end.
Proof.
  intros Hm He Hd. unfold binary_round_aux.
  destruct (shr_fexp_spec mx ex lx Hm) as [E1 M1]. cbv zeta in E1, M1.
  set (n1 := fexp prec emax (Zdigits2 mx + ex) - ex) in *.
  rewrite E1. set (mrs1 := fst (shr_fexp prec emax mx ex lx)) in *.
  set (e1 := if 0 <? n1 then ex + n1 else ex).
  set (m1 := round_nearest_even (shr_m mrs1) (loc_of_shr_record mrs1)).
  assert (Hm1 : 0 <= shr_m mrs1 <= mx).
  { rewrite M1. destruct (0 <? n1) eqn:En; [|lia].
    apply Z.ltb_lt in En. split; [apply Z.div_pos; lia|].
    apply Z.div_le_upper_bound; [lia|]. 
    assert (1 <= 2 ^ n1) by (apply (Z.pow_le_mono_r 2 0 n1); lia). nia. }
  pose proof (round_nearest_even_bounds (shr_m mrs1) (loc_of_shr_record mrs1)) as Hr.
  fold m1 in Hr.
  assert (He1 : e1 <= 970).
  { unfold e1. destruct (0 <? n1); [|lia]. unfold n1.
    pose proof (fexp_le (Zdigits2 mx + ex)). unfold fexp, emin, prec, emax in *. lia. }
  assert (Hd1 : Zdigits2 m1 + e1 <= 1024).
  { assert (Hb : m1 < 2 ^ (1024 - e1)).
    { unfold e1. rewrite M1 in Hr. destruct (0 <? n1) eqn:En.
      - apply Z.ltb_lt in En.
        assert (Hs : mx / 2 ^ n1 < 2 ^ (1023 - ex - n1)).
        { assert (D : 0 <= 1023 - ex - n1 \/ 1023 - ex - n1 < 0) by lia.
          destruct D as [D|D].
          - apply Z.div_lt_upper_bound; [lia|].
            rewrite <- Z.pow_add_r by lia. replace (n1 + (1023 - ex - n1)) with (1023 - ex) by lia.
            pose proof (Zdigits2_upper mx Hm).
            assert (2 ^ Zdigits2 mx <= 2 ^ (1023 - ex)) by (apply Z.pow_le_mono_r; lia). lia.
          - exfalso. unfold n1, fexp, emin, prec, emax in *. pose proof (Zdigits2_nonneg mx). lia. }
        replace (1024 - (ex + n1)) with (Z.succ (1023 - ex - n1)) by lia.
        assert (D : 0 <= 1023 - ex - n1 \/ 1023 - ex - n1 < 0) by lia.
        destruct D as [D|D].
        + rewrite Z.pow_succ_r by lia. lia.
        + rewrite (Z.pow_neg_r 2 (1023 - ex - n1)) in Hs by lia.
          assert (0 <= mx / 2 ^ n1) by (apply Z.div_pos; lia). lia.
      - pose proof (Zdigits2_upper mx Hm).
        assert (2 ^ Zdigits2 mx <= 2 ^ (1023 - ex)) by (apply Z.pow_le_mono_r; pose proof (Zdigits2_nonneg mx); lia).
        replace (1024 - ex) with (Z.succ (1023 - ex)) by lia.
        rewrite Z.pow_succ_r by (pose proof (Zdigits2_nonneg mx); lia). lia. }
    pose proof (Zdigits2_le m1 (1024 - e1) ltac:(lia) ltac:(lia) Hb). lia. }
  destruct (shr_fexp_spec m1 e1 loc_Exact ltac:(lia)) as [E2 M2]. cbv zeta in E2, M2.
  set (n2 := fexp prec emax (Zdigits2 m1 + e1) - e1) in *.
  rewrite E2. 
  assert (Hm2 : 0 <= shr_m (fst (shr_fexp prec emax m1 e1 loc_Exact)) <= m1).
  { rewrite M2. destruct (0 <? n2) eqn:En; [|lia].
    apply Z.ltb_lt in En. split; [apply Z.div_pos; lia|].
    apply Z.div_le_upper_bound; [lia|].
    assert (1 <= 2 ^ n2) by (apply (Z.pow_le_mono_r 2 0 n2); lia). nia. }
  destruct (shr_m (fst (shr_fexp prec emax m1 e1 loc_Exact))) as [|m|m] eqn:Em; [exact I| |lia].
  assert (Hle : (if 0 <? n2 then e1 + n2 else e1) <= emax - prec).
  { destruct (0 <? n2); [|unfold emax, prec; lia].
    unfold n2. pose proof (fexp_le (Zdigits2 m1 + e1) Hd1). unfold emax, prec in *. lia. }
  apply Z.leb_le in Hle. rewrite Hle. lia.
Qed.

Lemma iter_xO (d : positive) (m : positive) :
  Z.pos (Pos.iter xO m d) = Z.pos m * 2 ^ Z.pos d.
Proof.
  induction d as [|d IH] using Pos.peano_ind.
  - simpl. lia.
  - rewrite Pos.iter_succ, Pos2Z.inj_xO, IH, Pos2Z.inj_succ, Z.pow_succ_r by lia. lia.
Qed.

Lemma shl_align_spec (mx : positive) (ex ex' : Z) :
  let '(mz, ez) := shl_align mx ex ex' in
  ez <= ex /\ Z.pos mz = Z.pos mx * 2 ^ (ex - ez).
Proof.
  unfold shl_align. destruct (ex' - ex) as [|d|d] eqn:E.
  - rewrite Z.sub_diag. simpl. lia.
  - rewrite Z.sub_diag. simpl. lia.
  - split; [lia|]. rewrite iter_xO. f_equal. f_equal. lia.
Qed.

(** Rounding a mantissa of fewer than a thousand binary digits at a
    non-positive exponent does not overflow. *)
Lemma binary_round_finite (sx : bool) (mx : positive) (ex : Z) :
  ex <= 0 -> Z.pos (digits2_pos mx) + ex <= 1000 ->
  isFinite (binary_round prec emax sx mx ex) = true.
Proof.
  intros He Hd. unfold binary_round.
  pose proof (shl_align_spec mx ex (fexp prec emax (Z.pos (digits2_pos mx) + ex))) as Hs.
  destruct (shl_align mx ex _) as [mz ez]. destruct Hs as [Hez Hmz].
  assert (Hdz : Zdigits2 (Z.pos mz) + ez <= 1023).
  { assert (Z.pos mz < 2 ^ (Z.pos (digits2_pos mx) + (ex - ez))).
    { rewrite Hmz, Z.pow_add_r by lia.
      pose proof (digits_upper mx). pose proof (pow2_pos (ex - ez) ltac:(lia)). nia. }
    pose proof (Zdigits2_le (Z.pos mz) (Z.pos (digits2_pos mx) + (ex - ez))
                  ltac:(lia) ltac:(lia) H). lia. }
  pose proof (binary_round_aux_bounded sx (Z.pos mz) ez loc_Exact
                ltac:(lia) ltac:(lia) Hdz) as Hb.
  destruct (binary_round_aux prec emax sx (Z.pos mz) ez loc_Exact); auto; contradiction.
Qed.

Lemma ofZ_finite (z : Z) : Z.abs z < 2 ^ 1000 -> isFinite (ofZ z) = true.
Proof.
  intros H. unfold ofZ, binary_normalize. destruct z as [|p|p]; [reflexivity| |];
    apply binary_round_finite; try lia;
    pose proof (digits_le p 1000 ltac:(lia) ltac:(simpl in H; lia)); lia.
Qed.

(** [Math.floor] of a finite number whose mantissa has fewer than a
    thousand binary digits is finite. *)
Lemma floor_finite (x : number) :
  match x with
  | S754_zero _ => True
  | S754_finite _ m _ => Z.pos m < 2 ^ 999
  | _ => False
  end ->
  isFinite (floor x) = true.
Proof.
  destruct x as [s|s| |s m e]; try contradiction; [reflexivity|].
  intros Hm. unfold floor. destruct (0 <=? e) eqn:He; [reflexivity|].
  apply Z.leb_gt in He.
  pose proof (pow2_pos (- e) ltac:(lia)) as Hp.
  assert (Hq : 0 <= Z.pos m / 2 ^ (- e) <= Z.pos m).
  { split; [apply Z.div_pos; lia|]. apply Z.div_le_upper_bound; [lia|]. nia. }
  assert (2 ^ 999 + 1 < 2 ^ 1000) by (vm_compute; reflexivity).
  destruct s; [destruct (_ =? 0)|]; apply ofZ_finite; lia.
Qed.

Lemma thousand : ofZ 1000 = S754_finite false 8796093022208000 (-43).
Proof. vm_compute. reflexivity. Qed.

(** Dividing a finite binary64 value by 1000 does not overflow. *)
Lemma div_thousand_bounded (x : number) :
  valid_binary prec emax x = true ->
  isFinite x = true ->
  match div x (ofZ 1000) with
  | S754_zero _ => True
  | S754_finite _ m _ => Z.pos m < 2 ^ 999
  | _ => False
  end.
Proof.
  rewrite thousand.
  destruct x as [s|s| |s m e]; try discriminate; [intros _ _; exact I|].
  intros Hv _. simpl in Hv. unfold bounded, canonical_mantissa in Hv.
  apply andb_true_iff in Hv as [Hc Hb].
  apply Z.eqb_eq in Hc. apply Z.leb_le in Hb.
  set (d1 := Z.pos (digits2_pos m)) in *.
  assert (Hd1 : 0 < d1 <= 53) by (unfold fexp, emin, prec, emax in Hc; lia).
  unfold div, SFdiv, SFdiv_core_binary.
  change (Zdigits2 (Z.pos m)) with d1.
  change (Zdigits2 8796093022208000) with 53.
  set (e' := Z.min (fexp prec emax (d1 + e - (53 + -43))) (e - -43)).
  set (s' := e - -43 - e').
  assert (He' : e' <= 961 /\ 0 <= s' /\ d1 + s' <= 106).
  { unfold s', e', fexp, emin, prec, emax in *. lia. }
  destruct He' as (He1 & Hs1 & Hs2).
  set (m' := match s' with Z.pos _ => Z.shiftl (Z.pos m) s' | 0 => Z.pos m | Z.neg _ => 0 end).
  assert (Hm' : m' = Z.pos m * 2 ^ s').
  { unfold m'. destruct s' as [|p|p] eqn:Es; [simpl; lia| |lia].
    now rewrite Z.shiftl_mul_pow2 by lia. }
  destruct (Z.div_eucl m' 8796093022208000) as [q r] eqn:Ediv.
  assert (Hq : q = m' / 8796093022208000) by (unfold Z.div; now rewrite Ediv).
  pose proof (pow2_pos s' Hs1) as Hp.
  assert (Hq0 : 0 <= q) by (rewrite Hq; apply Z.div_pos; lia).
  assert (Hq1 : q < 2 ^ 54).
  { rewrite Hq. apply Z.div_lt_upper_bound; [lia|].
    pose proof (digits_upper m) as Hu. fold d1 in Hu.
    assert (Z.pos m * 2 ^ s' < 2 ^ (d1 + s')) by (rewrite Z.pow_add_r by lia; nia).
    assert (2 ^ (d1 + s') <= 2 ^ 106) by (apply Z.pow_le_mono_r; lia).
    assert (2 ^ 106 <= 8796093022208000 * 2 ^ 54) by (vm_compute; discriminate).
    lia. }
  assert (Hdq : Zdigits2 q + e' <= 1023).
  { pose proof (Zdigits2_le q 54 Hq0 ltac:(lia) Hq1). lia. }
  pose proof (binary_round_aux_bounded (xorb s false) q e' (new_location 8796093022208000 r)
                Hq0 ltac:(lia) Hdq) as Hbound.
  destruct (binary_round_aux prec emax _ q e' _); auto.
  assert (2 ^ 54 + 1 < 2 ^ 999) by (vm_compute; reflexivity). lia.
Qed.

(** The seconds of a time value: [Math.floor(parsed / 1000)] is
    finite for every finite binary64 value. *)
Lemma seconds_finite (x : number) :
  valid_binary prec emax x = true ->
  isFinite x = true ->
  isFinite (floor (div x (ofZ 1000))) = true.
Proof.
  intros Hv Hf. apply floor_finite.
  pose proof (div_thousand_bounded x Hv Hf) as H.
  destruct (div x (ofZ 1000)); auto.
Qed.

End Overflow.

(* ===================================================================== *)
(** * Facts about the table engine *)
(* ===================================================================== *)

Module TableFacts.

Lemma findIndex_Some {A : Type} (p : A -> bool) (l : list A) (i : nat) :
  findIndex p l = Some i ->
  exists x, l !! i = Some x /\ p x = true /\
    forall j y, j < i -> l !! j = Some y -> p y = false.
Proof.
  revert i. induction l as [|x l IH]; intros i; simpl; [discriminate|].
  destruct (p x) eqn:Hx.
  - intros [= <-]. exists x. repeat split; auto. intros j y Hj. lia.
  - destruct (findIndex p l) as [k|]; [|discriminate].
    intros [= <-]. destruct (IH k eq_refl) as (y & Hy & Hp & Hmin).
    exists y. repeat split; auto.
    intros [|j] z Hj Hz; simpl in Hz.
    + now injection Hz as <-.
    + apply (Hmin j); [lia | exact Hz].
Qed.

Lemma findIndex_None {A : Type} (p : A -> bool) (l : list A) :
  findIndex p l = None -> forall x, In x l -> p x = false.
Proof.
  induction l as [|x l IH]; simpl; [intros _ y []|].
  destruct (p x) eqn:Hx; [discriminate|].
  destruct (findIndex p l); [discriminate|].
  intros _ y [<-|Hy]; auto.
Qed.

Lemma headerIndex_lt (header names : list string) (i : nat) :
  headerIndex header names = Some i -> i < length header.
Proof.
  intros H. apply findIndex_Some in H as (x & Hx & _).
  now apply lookup_lt_Some in Hx.
Qed.

(** The header cell a role resolves to carries one of its names. *)
Lemma headerIndex_name (header names : list string) (i : nat) :
  headerIndex header names = Some i ->
  exists h, header !! i = Some h /\
    In (JsString.toLowerCase (JsString.trim h)) names.
Proof.
  intros H. apply findIndex_Some in H as (x & Hx & Hp & _).
  exists x. split; [exact Hx|].
  apply existsb_exists in Hp as (n & Hn & He).
  apply String.eqb_eq in He. now subst n.
Qed.

(** Two roles whose names are disjoint never resolve to one column. *)
Lemma headerIndex_disjoint (header names1 names2 : list string) (i j : nat) :
  (forall n, In n names1 -> In n names2 -> False) ->
  headerIndex header names1 = Some i ->
  headerIndex header names2 = Some j ->
  i <> j.
Proof.
  intros Hd H1 H2 ->.
  apply headerIndex_name in H1 as (h1 & Hh1 & Hn1).
  apply headerIndex_name in H2 as (h2 & Hh2 & Hn2).
  rewrite Hh1 in Hh2. injection Hh2 as <-. eauto.
Qed.

Ltac names_disjoint :=
  intros n H1 H2; simpl in H1, H2;
  repeat match goal with
         | H : _ \/ _ |- _ => destruct H
         | H : False |- _ => destruct H
         end;
  subst; discriminate.

Lemma price_allocation_disjoint n : In n priceNames -> In n allocationNames -> False.
Proof. revert n. names_disjoint. Qed.

Lemma value_allocation_disjoint n : In n valueNames -> In n allocationNames -> False.
Proof. revert n. names_disjoint. Qed.

Lemma resolveRoles_Some (header : list string) (roles : Roles) :
  resolveRoles header = Some roles ->
  headerIndex header tickerNames = Some (tickerIndex roles) /\
  headerIndex header sharesNames = Some (sharesIndex roles) /\
  priceIndex roles = headerIndex header priceNames /\
  valueIndex roles = headerIndex header valueNames /\
  allocationIndex roles = headerIndex header allocationNames.
Proof.
  unfold resolveRoles.
  destruct (headerIndex header tickerNames); [|discriminate].
  destruct (headerIndex header sharesNames); [|discriminate].
  intros [= <-]. simpl. auto.
Qed.

Lemma resolveRoles_None (header : list string) :
  resolveRoles header = None <->
  headerIndex header tickerNames = None \/ headerIndex header sharesNames = None.
Proof.
  unfold resolveRoles.
  destruct (headerIndex header tickerNames), (headerIndex header sharesNames);
    split; intros H; auto; try discriminate; destruct H; discriminate.
Qed.

Lemma length_pad (width : nat) (row : list string) :
  length (pad width row) = Nat.max width (length row).
Proof. unfold pad. rewrite length_app, repeat_length. lia. Qed.

Lemma pad_wide (width : nat) (row : list string) :
  width <= length row -> pad width row = row.
Proof.
  intros H. unfold pad. replace (width - length row) with 0 by lia.
  apply app_nil_r.
Qed.

Lemma length_updateRow header roles quotes row :
  length (fst (updateRow header roles quotes row))
  = Nat.max (length header) (length row).
Proof.
  unfold updateRow, setCell.
  destruct (quotes !! _) as [quote|]; simpl; [|apply length_pad].
  destruct (valueIndex roles), (priceIndex roles), (priceOf quote),
    (parseNumber (pad (length header) row !! sharesIndex roles));
    simpl; rewrite ?length_insert; apply length_pad.
Qed.

Lemma updateRow_unmatched header roles quotes row :
  quotes !! normalizeSymbol (cellOr (pad (length header) row) (tickerIndex roles)) = None ->
  updateRow header roles quotes row = (pad (length header) row, None).
Proof. intros H. unfold updateRow. now rewrite H. Qed.

Lemma firstPass_lookup header roles quotes dataRows i :
  firstPass header roles quotes dataRows !! i
  = updateRow header roles quotes <$> dataRows !! i.
Proof. apply list_lookup_fmap. Qed.

(** What the second pass leaves at row [i]. *)
Lemma reconcile_lookup header roles quotes dataRows i row :
  dataRows !! i = Some row ->
  reconcile header roles quotes dataRows !! i
  = Some
      (let rv := updateRow header roles quotes row in
       let total := totalValue header roles quotes dataRows in
       match allocationIndex roles with
       | Some a =>
           if gtb total zero then setCell a (allocationCell (snd rv) total) (fst rv)
           else fst rv
       | None => fst rv
       end).
Proof.
  intros H. unfold reconcile, totalValue.
  destruct (allocationIndex roles) as [a|];
    [destruct (gtb _ zero)|];
    rewrite list_lookup_fmap, firstPass_lookup, H; reflexivity.
Qed.

Lemma length_reconcile header roles quotes dataRows :
  length (reconcile header roles quotes dataRows) = length dataRows.
Proof.
  unfold reconcile, firstPass.
  destruct (allocationIndex roles); [destruct (gtb _ zero)|];
    now rewrite !length_map.
Qed.

(** A positive total has a positive entry behind it. *)
Lemma totalOf_positive (vs : list (option number)) (acc : number) :
  gtb (fold_left
         (fun sum v => match v with Some x => add sum x | None => sum end)
         vs acc) zero = true ->
  gtb acc zero = true \/
  exists i x, vs !! i = Some (Some x) /\ gtb x zero = true.
Proof.
  revert acc. induction vs as [|v vs IH]; intros acc; simpl; [auto|].
  intros H. apply IH in H as [H|(i & x & Hi & Hx)].
  - destruct v as [x|]; [|auto].
    destruct (gtb acc zero) eqn:Ha; [auto|].
    destruct (gtb x zero) eqn:Hx.
    + right. exists 0, x. auto.
    + rewrite NumberFacts.add_not_positive in H by assumption. discriminate.
  - right. exists (S i), x. auto.
Qed.

(** The share of a row without value in a positive total. *)
Lemma allocationCell_unmatched (total : number) :
  gtb total zero = true -> allocationCell None total = "0.00".
Proof.
  intros H. apply NumberFacts.gtb_zero in H as [(m & e & ->)| ->]; reflexivity.
Qed.

End TableFacts.

(* ===================================================================== *)
(** * Facts about number parsing *)
(* ===================================================================== *)

Module ParseFacts.

Lemma removeAll_clean (p q : ascii -> bool) (s : string) :
  (forall c, q c = true -> p c = true) ->
  removeAll q (removeAll p s) = removeAll p s.
Proof.
  intros Hpq. induction s as [|c s IH]; simpl; [reflexivity|].
  destruct (p c) eqn:Hp; [exact IH|].
  simpl. destruct (q c) eqn:Hq.
  - apply Hpq in Hq. congruence.
  - now rewrite IH.
Qed.

Lemma removeAll_none (p : ascii -> bool) (s : string) :
  forallb (fun c => negb (p c)) (list_ascii_of_string (removeAll p s)) = true.
Proof.
  induction s as [|c s IH]; simpl; [reflexivity|].
  destruct (p c) eqn:Hp; [exact IH|].
  simpl. now rewrite Hp, IH.
Qed.

Lemma cleanNumber_removeAll (v : string) : cleanNumber v = removeAll isStripped v.
Proof.
  apply removeAll_clean. intros c Hc. apply Ascii.eqb_eq in Hc. now subst c.
Qed.

Lemma parseNumber_finite (v : option string) (x : number) :
  parseNumber v = Some x -> isFinite x = true.
Proof.
  destruct v as [v|]; simpl; [|discriminate].
  destruct (JsString.truthy v); simpl; [|discriminate].
  destruct (isFinite (parseFloat (cleanNumber v))) eqn:E; [|discriminate].
  now intros [= <-].
Qed.

End ParseFacts.

(* ===================================================================== *)
(** * Facts about the matcher *)
(* ===================================================================== *)

Module RegexFacts.

Import Regex.

Lemma Matches_nil_nullable (r : re) (s : string) :
  Matches r s -> s = EmptyString -> nullable r = true.
Proof.
  induction 1 as [|p c Hp|a b s t Ha IHa Hb IHb|a b s Ha IH|a b s Hb IH| |a s t Ha IHa Hs IHs];
    intros E; simpl; auto.
  - discriminate.
  - apply StringFacts.append_eq_nil in E as [-> ->]. now rewrite IHa, IHb.
  - now rewrite IH.
  - rewrite IH by assumption. apply orb_true_r.
Qed.

Lemma Matches_deriv (r : re) (w : string) :
  Matches r w -> forall c s, w = String c s -> Matches (deriv c r) s.
Proof.
  induction 1 as [|p c0 Hp|a b s1 t Ha IHa Hb IHb|a b s1 Ha IH|a b s1 Hb IH| |a s1 t Ha IHa Hs IHs];
    intros c s E; simpl.
  - discriminate.
  - injection E as -> <-. rewrite Hp. constructor.
  - destruct s1 as [|d s1'].
    + simpl in E. rewrite (Matches_nil_nullable a _ Ha eq_refl).
      apply MAltR. now apply IHb.
    + simpl in E. injection E as -> <-.
      pose proof (MSeq _ _ _ _ (IHa _ _ eq_refl) Hb) as H.
      destruct (nullable a); [now apply MAltL | exact H].
  - apply MAltL. now apply IH.
  - apply MAltR. now apply IH.
  - discriminate.
  - destruct s1 as [|d s1'].
    + simpl in E. now apply IHs.
    + simpl in E. injection E as -> <-.
      exact (MSeq _ _ _ _ (IHa _ _ eq_refl) Hs).
Qed.

(** The matcher accepts every string the expression denotes. *)
Lemma test_complete (s : string) : forall r, Matches r s -> test r s = true.
Proof.
  induction s as [|c s IH]; intros r H; simpl.
  - exact (Matches_nil_nullable r _ H eq_refl).
  - apply IH. exact (Matches_deriv r _ H c s eq_refl).
Qed.

Lemma isVoid_not_nullable (r : re) : isVoid r = true -> nullable r = false.
Proof.
  induction r as [| | p |a IHa b IHb|a IHa b IHb|a IHa]; simpl; try discriminate; auto.
  - intros H. apply orb_true_iff in H as [H|H].
    + now rewrite IHa.
    + rewrite IHb by assumption. apply andb_false_r.
  - intros H. apply andb_true_iff in H as [Ha Hb]. now rewrite IHa, IHb.
Qed.

Lemma isVoid_deriv (c : ascii) (r : re) : isVoid r = true -> isVoid (deriv c r) = true.
Proof.
  induction r as [| | p |a IHa b IHb|a IHa b IHb|a IHa]; simpl; try discriminate; auto.
  - intros H. destruct (isVoid a) eqn:Ea.
    + rewrite (isVoid_not_nullable a Ea). simpl. now rewrite IHa.
    + simpl in H. destruct (nullable a); simpl; rewrite H, ?IHb, ?orb_true_r; auto.
  - intros H. apply andb_true_iff in H as [Ha Hb]. now rewrite IHa, IHb.
Qed.

(** Nothing matches once the derivatives are void. *)
Lemma test_isVoid (s : string) : forall r, isVoid r = true -> test r s = false.
Proof.
  induction s as [|c s IH]; intros r H; simpl.
  - now apply isVoid_not_nullable.
  - apply IH. now apply isVoid_deriv.
Qed.

Lemma nullable_Matches (r : re) : nullable r = true -> Matches r EmptyString.
Proof.
  induction r as [| | p |a IHa b IHb|a IHa b IHb|a IHa]; simpl; try discriminate.
  - constructor.
  - intros H. apply andb_true_iff in H as [Ha Hb].
    exact (MSeq _ _ _ _ (IHa Ha) (IHb Hb)).
  - intros H. apply orb_true_iff in H as [H|H]; [apply MAltL|apply MAltR]; auto.
  - constructor.
Qed.

Lemma deriv_Matches (r : re) :
  forall c s, Matches (deriv c r) s -> Matches r (String c s).
Proof.
  induction r as [| | p |a IHa b IHb|a IHa b IHb|a IHa]; intros c s H; simpl in H.
  - inversion H.
  - inversion H.
  - destruct (p c) eqn:Hp; inversion H; subst. now constructor.
  - assert (Hseq : forall t, Matches (Seq (deriv c a) b) t -> Matches (Seq a b) (String c t)).
    { intros t Ht. inversion Ht as [| |a0 b0 s1 s2 H1 H2| | | |]; subst.
      exact (MSeq _ _ _ _ (IHa _ _ H1) H2). }
    destruct (nullable a) eqn:Hn; [|now apply Hseq].
    inversion H as [| | |a0 b0 s0 H1|a0 b0 s0 H1| |]; subst; [now apply Hseq|].
    exact (MSeq _ _ _ _ (nullable_Matches a Hn) (IHb _ _ H1)).
  - inversion H as [| | |a0 b0 s0 H1|a0 b0 s0 H1| |]; subst;
      [apply MAltL|apply MAltR]; auto.
  - inversion H as [| |a0 b0 s1 s2 H1 H2| | | |]; subst.
    exact (MStarCons _ _ _ (IHa _ _ H1) H2).
Qed.

(** The matcher accepts only strings the expression denotes. *)
Lemma test_sound (s : string) : forall r, test r s = true -> Matches r s.
Proof.
  induction s as [|c s IH]; intros r H; simpl in H.
  - now apply nullable_Matches.
  - apply deriv_Matches. now apply IH.
Qed.

Lemma test_app (a : string) : forall r s, test r (a ++ s) = test (fold_left (fun r c => deriv c r) (list_ascii_of_string a) r) s.
Proof.
  induction a as [|c a IH]; intros r s; simpl; [reflexivity | apply IH].
Qed.

Lemma MSeq_eq (a b : re) (s t w : string) :
  Matches a s -> Matches b t -> w = s ++ t -> Matches (Seq a b) w.
Proof. intros Ha Hb ->. now constructor. Qed.

Lemma Matches_Opt_nil (r : re) : Matches (Opt r) EmptyString.
Proof. apply MAltR. constructor. Qed.

Lemma Matches_Chr (c : ascii) : Matches (Chr c) (JsString.single c).
Proof. constructor. apply Ascii.eqb_refl. Qed.

Lemma Matches_Star_replicate (c : ascii) (n : nat) :
  Matches (Star (Chr c)) (JsString.replicate n c).
Proof.
  induction n as [|n IH]; simpl; [constructor|].
  exact (MStarCons _ _ _ (Matches_Chr c) IH).
Qed.

Lemma Matches_AtLeast (c : ascii) (k n : nat) :
  Matches (AtLeast k (Chr c)) (JsString.replicate (k + n) c).
Proof.
  induction k as [|k IH]; simpl; [apply Matches_Star_replicate|].
  exact (MSeq _ _ _ _ (Matches_Chr c) IH).
Qed.

End RegexFacts.

(* ===================================================================== *)
(** * Facts about locating the table *)
(* ===================================================================== *)

Module LocateFacts.

Import JsString.

Lemma Matches_separatorCell (n : nat) :
  Regex.Matches separatorCell (Examples.dashes (3 + n)).
Proof.
  unfold separatorCell.
  eapply RegexFacts.MSeq_eq; [apply RegexFacts.Matches_Opt_nil| |reflexivity].
  eapply RegexFacts.MSeq_eq; [apply (RegexFacts.Matches_AtLeast "-" 3 n)| |].
  - eapply RegexFacts.MSeq_eq; [apply RegexFacts.Matches_Opt_nil|apply Regex.MStarNil|reflexivity].
  - now rewrite StringFacts.append_nil_r.
Qed.

Lemma Matches_pipeCell (n : nat) :
  Regex.Matches (Regex.Seq (Regex.Chr "|") (Regex.Seq ws separatorCell))
    ("|" ++ Examples.dashes (3 + n)).
Proof.
  eapply RegexFacts.MSeq_eq; [apply RegexFacts.Matches_Chr| |reflexivity].
  eapply RegexFacts.MSeq_eq; [apply Regex.MStarNil|apply Matches_separatorCell|reflexivity].
Qed.

Lemma Matches_dashCells (extra : list nat) :
  Regex.Matches (Regex.Star (Regex.Seq (Regex.Chr "|") (Regex.Seq ws separatorCell)))
    (Examples.dashCells extra).
Proof.
  induction extra as [|n extra IH]; [constructor|].
  change (Examples.dashCells (n :: extra))
    with ("|" ++ Examples.dashes (3 + n) ++ Examples.dashCells extra).
  replace ("|" ++ Examples.dashes (3 + n) ++ Examples.dashCells extra)
    with (("|" ++ Examples.dashes (3 + n)) ++ Examples.dashCells extra)
    by (now rewrite StringFacts.append_assoc).
  exact (Regex.MStarCons _ _ _ (Matches_pipeCell n) IH).
Qed.

(** A line of two or more cells of three or more dashes each, between
    column separators, denotes a separator. *)
Lemma Matches_dash_line (n1 n2 : nat) (extra : list nat) :
  Regex.Matches separatorRe
    ("|" ++ Examples.dashes (3 + n1) ++ "|" ++ Examples.dashes (3 + n2)
       ++ Examples.dashCells extra ++ "|").
Proof.
  unfold separatorRe.
  eapply RegexFacts.MSeq_eq; [apply Regex.MStarNil| |reflexivity].
  eapply RegexFacts.MSeq_eq;
    [apply Regex.MAltL, (RegexFacts.Matches_Chr "|")| |reflexivity].
  eapply RegexFacts.MSeq_eq; [apply Regex.MStarNil| |reflexivity].
  eapply RegexFacts.MSeq_eq; [apply (Matches_separatorCell n1)| |reflexivity].
  eapply RegexFacts.MSeq_eq with
    (s := ("|" ++ Examples.dashes (3 + n2)) ++ Examples.dashCells extra)
    (t := "|").
  - exact (Regex.MSeq _ _ _ _ (Matches_pipeCell n2) (Matches_dashCells extra)).
  - eapply RegexFacts.MSeq_eq;
      [apply Regex.MAltL, (RegexFacts.Matches_Chr "|")|apply Regex.MStarNil|reflexivity].
  - now rewrite !StringFacts.append_assoc.
Qed.

Lemma countRows_rows (rows after : list string) :
  Forall (fun l => isTableRow l = true) rows ->
  (forall l, head after = Some l -> isTableRow l = false) ->
  countRows (rows ++ after)%list = length rows.
Proof.
  intros Hrows Hafter. induction Hrows as [|l rows Hl _ IH]; simpl.
  - destruct after as [|l after]; [reflexivity|].
    simpl. now rewrite (Hafter l eq_refl).
  - now rewrite Hl, IH.
Qed.

Lemma locateFrom_step (i : nat) (l0 l1 : string) (rest : list string) :
  locateFrom i (l0 :: l1 :: rest)
  = if isTableRow l0 && isTableSeparator l1
    then Some (i, i + 1 + countRows rest, splitRow l0)
    else locateFrom (S i) (l1 :: rest).
Proof. reflexivity. Qed.

(** The scan stops at the first line that is a table row and is
    followed by a separator. *)
Lemma locateFrom_first (before : list string) :
  forall (i : nat) (l0 l1 : string) (rest : list string),
    isTableRow l0 = true ->
    isTableSeparator l1 = true ->
    (forall j a b, j < length before ->
                   (before ++ l0 :: l1 :: rest)%list !! j = Some a ->
                   (before ++ l0 :: l1 :: rest)%list !! S j = Some b ->
                   isTableRow a && isTableSeparator b = false) ->
    locateFrom i (before ++ l0 :: l1 :: rest)
    = Some (i + length before, i + length before + 1 + countRows rest, splitRow l0).
Proof.
  induction before as [|x before IH]; intros i l0 l1 rest H0 H1 Hno.
  - simpl. rewrite H0, H1. simpl. now rewrite !Nat.add_0_r.
  - assert (Hstep : locateFrom i ((x :: before) ++ l0 :: l1 :: rest)
                    = locateFrom (S i) (before ++ l0 :: l1 :: rest)).
    { destruct before as [|y before'].
      - simpl app. rewrite locateFrom_step.
        now rewrite (Hno 0 x l0) by (simpl; auto; lia).
      - simpl app. rewrite locateFrom_step.
        now rewrite (Hno 0 x y) by (simpl; auto; lia). }
    rewrite Hstep, (IH (S i) l0 l1 rest H0 H1).
    + simpl length. do 3 f_equal; lia.
    + intros j a b Hj Ha Hb. apply (Hno (S j) a b); [simpl; lia|exact Ha|exact Hb].
Qed.

(** Whatever the scan returns is a table row over a separator, with
    no such pair of lines before it. *)
Lemma locateFrom_sound (ls : list string) :
  forall i tableStart tableEnd header,
    locateFrom i ls = Some (tableStart, tableEnd, header) ->
    exists k l0 l1,
      tableStart = i + k
      /\ ls !! k = Some l0 /\ ls !! S k = Some l1
      /\ isTableRow l0 = true /\ isTableSeparator l1 = true
      /\ header = splitRow l0
      /\ tableEnd = tableStart + 1 + countRows (drop (k + 2) ls)
      /\ forall j a b, j < k -> ls !! j = Some a -> ls !! S j = Some b ->
                       isTableRow a && isTableSeparator b = false.
Proof.
  induction ls as [|l0 ls IH]; intros i ts te h; [discriminate|].
  destruct ls as [|l1 rest]; [discriminate|].
  simpl locateFrom.
  destruct (isTableRow l0 && isTableSeparator l1) eqn:E.
  - intros [= <- <- <-]. apply andb_true_iff in E as [E0 E1].
    exists 0, l0, l1. rewrite Nat.add_0_r. repeat split; auto.
    intros j a b Hj. lia.
  - intros H. apply IH in H as (k & a0 & a1 & -> & Hk0 & Hk1 & Ha0 & Ha1 & -> & -> & Hmin).
    exists (S k), a0, a1. repeat split; auto; try lia.
    intros [|j] a b Hj Ha Hb.
    + simpl in Ha, Hb. injection Ha as <-. injection Hb as <-. exact E.
    + apply (Hmin j a b); [lia|exact Ha|exact Hb].
Qed.

Lemma locateFrom_None (ls : list string) :
  forall i, locateFrom i ls = None ->
    forall j a b, ls !! j = Some a -> ls !! S j = Some b ->
                  isTableRow a && isTableSeparator b = false.
Proof.
  induction ls as [|l0 ls IH]; intros i H j a b Ha Hb; [discriminate|].
  destruct ls as [|l1 rest]; [destruct j; discriminate|].
  simpl locateFrom in H.
  destruct (isTableRow l0 && isTableSeparator l1) eqn:E; [discriminate|].
  destruct j as [|j].
  - simpl in Ha, Hb. injection Ha as <-. injection Hb as <-. exact E.
  - exact (IH _ H j a b Ha Hb).
Qed.

End LocateFacts.

(* ===================================================================== *)
(** * Facts about serialization *)
(* ===================================================================== *)

Module SerializeFacts.

Import JsString.

Lemma serializeRow_shape (cells : list string) :
  serializeRow cells = String "|" ((" " ++ join " | " cells ++ " ") ++ "|").
Proof.
  unfold serializeRow. simpl. now rewrite !StringFacts.append_assoc.
Qed.

Lemma isTableRow_serializeRow (cells : list string) :
  isTableRow (serializeRow cells) = true.
Proof. reflexivity. Qed.

Lemma split_spaced (cells : list string) :
  cells <> [] ->
  Forall (fun c => includes "|" c = false) cells ->
  split "|" (" " ++ join " | " cells ++ " ")
  = map (fun c => " " ++ c ++ " ") cells.
Proof.
  induction cells as [|c cells IH]; [congruence|]. intros _ Hall.
  apply Forall_cons in Hall as [Hc Hall].
  destruct cells as [|c2 cs].
  - simpl map. simpl join. apply StringFacts.split_no_sep.
    change (" " ++ c ++ " ") with (String " " (c ++ " ")).
    simpl. now rewrite StringFacts.includes_app, Hc.
  - change (join " | " (c :: c2 :: cs)) with (c ++ " | " ++ join " | " (c2 :: cs)).
    replace (" " ++ (c ++ " | " ++ join " | " (c2 :: cs)) ++ " ")
      with ((" " ++ c ++ " ") ++ String "|" (" " ++ join " | " (c2 :: cs) ++ " "))
      by (simpl; now rewrite !StringFacts.append_assoc).
    rewrite StringFacts.split_app_sep.
    + rewrite IH by (auto; discriminate). reflexivity.
    + change (" " ++ c ++ " ") with (String " " (c ++ " ")).
      simpl. now rewrite StringFacts.includes_app, Hc.
Qed.

Lemma trim_barred (inner : string) :
  trim (String "|" (inner ++ "|")) = String "|" (inner ++ "|").
Proof.
  unfold trim. change (trimStart (String "|" (inner ++ "|")))
    with (String "|" inner ++ single "|").
  now apply StringFacts.trimEnd_snoc.
Qed.

(** Splitting a serialized row gives its cells back. *)
Lemma splitRow_serializeRow (cells : list string) :
  cells <> [] ->
  Forall cleanCell cells ->
  splitRow (serializeRow cells) = cells.
Proof.
  intros Hne Hall. unfold splitRow. rewrite serializeRow_shape.
  generalize (split_spaced cells Hne).
  generalize (" " ++ join " | " cells ++ " "). intros inner Hsplit.
  rewrite trim_barred.
  change (startsWith "|" (String "|" (inner ++ "|"))) with true. cbn iota.
  change (dropFirst (String "|" (inner ++ "|"))) with (inner ++ single "|").
  rewrite StringFacts.endsWith_snoc, StringFacts.dropLast_snoc.
  rewrite Hsplit.
  - rewrite map_map. rewrite <- (map_id cells) at 2.
    apply map_ext_in. intros c Hc.
    rewrite Forall_forall in Hall.
    apply StringFacts.trim_spaced. apply Hall. now apply list_elem_of_In.
  - eapply Forall_impl; [exact Hall|]. now intros c [_ Hc].
Qed.

(** White space after a serialized row does not change its cells. *)
Lemma splitRow_trailing (cells : list string) (pad : string) :
  isBlank pad = true ->
  splitRow (serializeRow cells ++ pad) = splitRow (serializeRow cells).
Proof.
  intros Hpad. unfold splitRow. rewrite serializeRow_shape.
  generalize (" " ++ join " | " cells ++ " "). intros inner.
  replace (trim (String "|" (inner ++ "|") ++ pad))
    with (trim (String "|" (inner ++ "|"))); [reflexivity|].
  unfold trim.
  change (trimStart (String "|" (inner ++ "|") ++ pad))
    with (String "|" (inner ++ "|") ++ pad).
  change (trimStart (String "|" (inner ++ "|"))) with (String "|" (inner ++ "|")).
  now rewrite StringFacts.trimEnd_app_blank.
Qed.

Lemma isTableRow_trailing (cells : list string) (pad : string) :
  isTableRow (serializeRow cells ++ pad) = true.
Proof. reflexivity. Qed.

Lemma totalOf_unmatched (n : nat) : totalOf (repeat None n) = zero.
Proof. unfold totalOf. induction n as [|n IH]; simpl; auto. Qed.

(** Rows none of which has a quote are only padded. *)
Lemma reconcile_unmatched header roles quotes (rows : list (list string)) :
  (forall r, In r rows ->
     quotes !! normalizeSymbol (cellOr (pad (length header) r) (tickerIndex roles))
     = None) ->
  reconcile header roles quotes rows = map (pad (length header)) rows.
Proof.
  intros Hq.
  assert (Hpass : firstPass header roles quotes rows
                  = map (fun r => (pad (length header) r, None)) rows).
  { unfold firstPass. apply map_ext_in. intros r Hr.
    now apply TableFacts.updateRow_unmatched, Hq. }
  unfold reconcile. rewrite Hpass, !map_map. simpl.
  replace (map (fun _ : list string => None) rows)
    with (repeat (@None number) (length rows))
    by (clear; induction rows; simpl; congruence).
  rewrite totalOf_unmatched.
  destruct (allocationIndex roles); reflexivity.
Qed.

Section Lines.

Variables (before after rowLines : list string) (headerLine sep : string).

Local Abbreviation lines := (before ++ headerLine :: sep :: rowLines ++ after)%list.
Local Abbreviation tableStart := (length before).
Local Abbreviation tableEnd := (length before + 1 + length rowLines).

Lemma take_before : take tableStart lines = before.
Proof. apply take_app_length. Qed.

Lemma separator_kept : lineAt lines (tableStart + 1) = sep.
Proof.
  unfold lineAt. rewrite lookup_app_r by lia.
  now replace (length before + 1 - length before) with 1 by lia.
Qed.

Lemma drop_after : drop (tableEnd + 1) lines = after.
Proof.
  replace lines with ((before ++ headerLine :: sep :: rowLines) ++ after)%list
    by (now rewrite <- app_assoc).
  apply drop_app_length'. rewrite length_app. simpl. lia.
Qed.

Lemma dataRowsOf_lines :
  dataRowsOf lines tableStart tableEnd = map splitRow rowLines.
Proof.
  unfold dataRowsOf. f_equal.
  replace lines with ((before ++ [headerLine; sep]) ++ rowLines ++ after)%list
    by (now rewrite <- app_assoc).
  rewrite drop_app_length' by (rewrite length_app; simpl; lia).
  apply take_app_length'. lia.
Qed.

(** The lines around the table and the separator go into the new text
    as they are. *)
Lemma updatedText_lines (header : list string) (updatedRows : list (list string)) :
  updatedText lines tableStart tableEnd header updatedRows
  = join (single newline)
      (before ++ serializeRow header :: sep :: map serializeRow updatedRows ++ after).
Proof.
  unfold updatedText. now rewrite take_before, separator_kept, drop_after.
Qed.

End Lines.

End SerializeFacts.

(* ===================================================================== *)
(** * Facts about the provider fallback *)
(* ===================================================================== *)

Module FetchFacts.

Section WithHost.

Variable respond : list Request -> Request -> Thrown + Response.
Variable dateParse : string -> number.

Lemma stooqLoop_nonempty (symbols : list string) :
  forall (m : gmap string Quote) (w : World),
    m <> ∅ -> fst (stooqLoop respond dateParse symbols m w) <> ∅.
Proof.
  induction symbols as [|symbol rest IH]; intros m w Hm; simpl; [exact Hm|].
  unfold bind. destruct (fetchStooqQuote respond dateParse symbol w) as [[q|] w1].
  - apply IH. apply insert_non_empty.
  - now apply IH.
Qed.

(** The fallback comes back with an empty map exactly when every
    symbol failed. *)
Lemma stooq_empty_iff (symbols : list string) :
  forall w,
    fst (fetchQuotesFromStooq respond dateParse symbols w) = ∅
    <-> stooqAllFail respond dateParse symbols w.
Proof.
  unfold fetchQuotesFromStooq.
  induction symbols as [|symbol rest IH]; intros w; simpl; [tauto|].
  unfold bind. destruct (fetchStooqQuote respond dateParse symbol w) as [[q|] w1]; simpl.
  - split.
    + intros H. exfalso. revert H. apply stooqLoop_nonempty, insert_non_empty.
    + intros [H _]. discriminate.
  - rewrite IH. tauto.
Qed.

Lemma size_positive (m : gmap string Quote) : (0 <? size m)%nat = false <-> m = ∅.
Proof.
  rewrite Nat.ltb_ge. rewrite <- map_size_empty_iff. lia.
Qed.

(** [fetchQuotes] on a list with a symbol in it, attempt by attempt. *)
Lemma fetchQuotes_steps (symbols : list string) (w : World) :
  cleanSymbols symbols <> [] ->
  let cleaned := cleanSymbols symbols in
  let urls := yahooUrls (Uri.encodeURIComponent (JsString.join "," cleaned)) in
  fetchQuotes respond dateParse symbols w
  = match yahooAttempt respond (nth 0 urls EmptyString) w with
    | (inr m, w1) => (inr m, w1)
    | (inl e1, w1) =>
        match yahooAttempt respond (nth 1 urls EmptyString) w1 with
        | (inr m, w2) => (inr m, w2)
        | (inl e2, w2) =>
            let '(stooq, w3) := fetchQuotesFromStooq respond dateParse cleaned w2 in
            if (0 <? size stooq)%nat then (inr stooq, w3)
            else (inl (surfaced (Some e2)), w3)
        end
    end.
Proof.
  intros Hne. cbv zeta. unfold fetchQuotes.
  destruct (cleanSymbols symbols) as [|c cs] eqn:E; [congruence|].
  unfold yahooUrls. simpl nth. simpl tryUrls. unfold bind, ret.
  destruct (yahooAttempt respond _ w) as [[e1|m] w1]; [|reflexivity].
  destruct (yahooAttempt respond _ w1) as [[e2|m] w2]; [|reflexivity].
  destruct (fetchQuotesFromStooq respond dateParse (c :: cs) w2) as [stooq w3].
  destruct (0 <? size stooq)%nat; reflexivity.
Qed.

(** What an attempt on the batch provider throws is an [Error], unless
    the host itself threw something else. *)
Lemma yahooAttempt_thrown (u : string) (w w' : World) (e : Thrown) :
  yahooAttempt respond u w = (inl e, w') ->
  instanceofError e = true
  \/ respond (requests w) (yahooRequest u) = inl e
  \/ exists response,
       respond (requests w) (yahooRequest u) = inr response
       /\ json response = inl e.
Proof.
  unfold yahooAttempt, bind, requestUrl, ret.
  destruct (respond (requests w) (yahooRequest u)) as [e0|response] eqn:Er.
  - intros [= <- _]. auto.
  - unfold yahooQuotesOf. destruct (json response) as [e0|data] eqn:Ej.
    + intros [= <- _]. right. right. eauto.
    + intros H. left.
      destruct (negb (Json.truthy _)); [now injection H as <- _|].
      destruct (Json.get (Json.get data "quoteResponse") "result") as [| | | | |items|];
        try (now injection H as <- _); try discriminate.
      injection H as H _. clear -H. revert H. generalize (∅ : gmap string Quote).
      induction items as [|item items IH]; intros m; simpl; [discriminate|].
      unfold addYahooQuote.
      destruct (Json.truthy (Json.get item "symbol")); [|apply IH].
      destruct (Json.get item "symbol"); try (now intros [= <-]); apply IH.
Qed.

Lemma yahooAttempt_requests (u : string) (w : World) :
  snd (yahooAttempt respond u w)
  = mkWorld (requests w ++ [yahooRequest u]) (notices w) (consoleErrors w).
Proof.
  unfold yahooAttempt, bind, requestUrl, ret.
  now destruct (respond (requests w) (yahooRequest u)).
Qed.

Lemma stooqAttempt_requests (normalized candidate : string) (w : World) :
  snd (stooqAttempt respond dateParse normalized candidate w)
  = mkWorld (requests w ++ [stooqRequest candidate]) (notices w) (consoleErrors w).
Proof.
  unfold stooqAttempt, bind, requestUrl, ret.
  now destruct (respond (requests w) (stooqRequest candidate)).
Qed.

(** The two spellings of a symbol, the second one tried only when the
    first gave no quote. *)
Lemma fetchStooqQuote_steps (symbol : string) (w : World) :
  let normalized := normalizeSymbol symbol in
  fetchStooqQuote respond dateParse symbol w
  = match stooqAttempt respond dateParse normalized
            (JsString.toLowerCase normalized) w with
    | (Some quote, w1) => (Some quote, w1)
    | (None, w1) =>
        stooqAttempt respond dateParse normalized
          (JsString.toLowerCase normalized ++ ".us") w1
    end.
Proof.
  intros normalized. unfold fetchStooqQuote, stooqCandidates. fold normalized.
  simpl tryCandidates. unfold bind, ret.
  destruct (stooqAttempt respond dateParse normalized _ w) as [[q|] w1]; [reflexivity|].
  now destruct (stooqAttempt respond dateParse normalized _ w1) as [[q|] w2].
Qed.

Lemma fetchStooqQuote_fail_requests (symbol : string) (w w' : World) :
  fetchStooqQuote respond dateParse symbol w = (None, w') ->
  w' = mkWorld
         (requests w ++ map stooqRequest (stooqCandidates (normalizeSymbol symbol)))
         (notices w) (consoleErrors w).
Proof.
  rewrite fetchStooqQuote_steps.
  pose proof (stooqAttempt_requests (normalizeSymbol symbol)
                (JsString.toLowerCase (normalizeSymbol symbol)) w) as H1.
  destruct (stooqAttempt respond dateParse _ _ w) as [[q|] w1]; [discriminate|].
  simpl in H1. subst w1. intros H2.
  pose proof (stooqAttempt_requests (normalizeSymbol symbol)
                (JsString.toLowerCase (normalizeSymbol symbol) ++ ".us")
                (mkWorld (requests w
                            ++ [stooqRequest (JsString.toLowerCase (normalizeSymbol symbol))])
                   (notices w) (consoleErrors w))) as H3.
  rewrite H2 in H3. simpl in H3. subst w'. simpl. now rewrite <- app_assoc.
Qed.

(** When every symbol fails, the fallback has sent both spellings of
    each, in the order of the symbols. *)
Lemma stooq_fail_requests (symbols : list string) :
  forall (m : gmap string Quote) (w : World),
    stooqAllFail respond dateParse symbols w ->
    snd (stooqLoop respond dateParse symbols m w)
    = mkWorld (requests w ++ stooqRequestsOf symbols) (notices w) (consoleErrors w).
Proof.
  induction symbols as [|symbol rest IH]; intros m w Hall.
  - simpl. rewrite app_nil_r. now destruct w.
  - simpl in Hall. destruct Hall as [Hnone Hrest]. simpl stooqLoop. unfold bind.
    destruct (fetchStooqQuote respond dateParse symbol w) as [[q|] w1] eqn:E;
      [discriminate|].
    simpl in Hrest. rewrite (IH m w1 Hrest).
    apply fetchStooqQuote_fail_requests in E. subst w1. simpl.
    unfold stooqRequestsOf. simpl flat_map. now rewrite <- app_assoc.
Qed.

End WithHost.

End FetchFacts.

(* ===================================================================== *)
(** * Facts about rendering *)
(* ===================================================================== *)

Module RenderFacts.

Lemma zero_falsy (z : number) : eqb z zero = true -> numTruthy (Some z) = false.
Proof. destruct z as [s|s| |s m e]; try destruct s; try discriminate; reflexivity. Qed.

Lemma zero_shape (z : number) : eqb z zero = true -> exists s, z = S754_zero s.
Proof. destruct z as [s|s| |s m e]; try destruct s; try discriminate; eauto. Qed.

End RenderFacts.

(* ===================================================================== *)
(** * Facts about the adapters *)
(* ===================================================================== *)

Module AdapterFacts.

Section WithHost.

Variable respond : list Request -> Request -> Thrown + Response.
Variable dateParse : string -> number.
Hypothesis dateParse_timeValue : forall s, isTimeValue (dateParse s) = true.

Lemma populated_parseNumber (v : option string) :
  populatedFinite (parseNumber v) = true.
Proof.
  destruct (parseNumber v) as [x|] eqn:E; [|reflexivity].
  exact (ParseFacts.parseNumber_finite v x E).
Qed.

Lemma populated_stooqUpdated (record : gmap string string) :
  populatedFinite (stooqUpdated dateParse record) = true.
Proof.
  unfold stooqUpdated. destruct (fieldTruthy (record !! "date")); [|reflexivity].
  set (iso := if fieldTruthy (record !! "time") then _ else _).
  pose proof (dateParse_timeValue iso) as Ht. unfold isTimeValue in Ht.
  destruct (isNaN (dateParse iso)); [reflexivity|].
  simpl in Ht. apply andb_true_iff in Ht as [Hf Hv]. simpl.
  now apply Overflow.seconds_finite.
Qed.

Lemma stooqQuoteOf_finite (normalized body : string) (q : Quote) :
  stooqQuoteOf dateParse normalized body = Some q ->
  quoteFinite q = true /\ symbol q = normalized.
Proof.
  unfold stooqQuoteOf.
  destruct (length _ <? 2)%nat; [discriminate|].
  destruct (negb _ || negb _); [discriminate|].
  intros [= <-]. split; [|reflexivity].
  unfold quoteFinite, numericFields. cbn [forallb bid ask regularMarketPrice
    regularMarketPreviousClose regularMarketDayLow regularMarketDayHigh
    fiftyTwoWeekLow fiftyTwoWeekHigh marketCap regularMarketVolume
    regularMarketTime populatedFinite andb].
  now rewrite !populated_parseNumber, populated_stooqUpdated.
Qed.

Lemma stooqAttempt_finite (normalized candidate : string) (w w' : World) (q : Quote) :
  stooqAttempt respond dateParse normalized candidate w = (Some q, w') ->
  quoteFinite q = true.
Proof.
  unfold stooqAttempt, bind, requestUrl, ret.
  destruct (respond (requests w) (stooqRequest candidate)) as [e|response];
    [discriminate|].
  intros [= E _]. now apply stooqQuoteOf_finite in E.
Qed.

Lemma tryCandidates_finite (normalized : string) (candidates : list string) :
  forall w q w',
    tryCandidates respond dateParse normalized candidates w = (Some q, w') ->
    quoteFinite q = true.
Proof.
  induction candidates as [|c cs IH]; intros w q w'; simpl; [discriminate|].
  unfold bind.
  destruct (stooqAttempt respond dateParse normalized c w) as [[q0|] w1] eqn:E.
  - intros [= <- _]. exact (stooqAttempt_finite _ _ _ _ _ E).
  - apply IH.
Qed.

Lemma stooqLoop_finite (symbols : list string) :
  forall (m : gmap string Quote) w,
    (forall k q, m !! k = Some q -> quoteFinite q = true) ->
    forall k q,
      fst (stooqLoop respond dateParse symbols m w) !! k = Some q ->
      quoteFinite q = true.
Proof.
  induction symbols as [|symbol rest IH]; intros m w Hm; simpl; [exact Hm|].
  unfold bind.
  destruct (fetchStooqQuote respond dateParse symbol w) as [[q0|] w1] eqn:E.
  - apply IH. intros k q Hk. apply lookup_insert_Some in Hk as [[_ <-]|[_ Hk]].
    + exact (tryCandidates_finite _ _ _ _ _ E).
    + exact (Hm k q Hk).
  - now apply IH.
Qed.

End WithHost.

End AdapterFacts.

(* ===================================================================== *)
(** * Facts about trimming and letter case *)
(* ===================================================================== *)

Module TrimFacts.

Import JsString Shape.

Lemma headOk_trimStart (s : string) : headOk (trimStart s) = true.
Proof.
  induction s as [|c s IH]; simpl; [reflexivity|].
  destruct (isWhiteSpace c) eqn:E; [exact IH|]. simpl. now rewrite E.
Qed.

Lemma trimStart_headOk (s : string) : headOk s = true -> trimStart s = s.
Proof.
  destruct s as [|c s]; simpl; [reflexivity|].
  now destruct (isWhiteSpace c).
Qed.

Lemma trimEnd_cons (c : ascii) (s : string) :
  trimEnd (String c s)
  = match trimEnd s with
    | EmptyString => if isWhiteSpace c then EmptyString else String c EmptyString
    | t => String c t
    end.
Proof. reflexivity. Qed.

Lemma lastOk_trimEnd (s : string) : lastOk (trimEnd s) = true.
Proof.
  induction s as [|c s IH]; [reflexivity|].
  rewrite trimEnd_cons. destruct (trimEnd s) as [|d t] eqn:E.
  - destruct (isWhiteSpace c) eqn:W; simpl; [reflexivity|now rewrite W].
  - exact IH.
Qed.

Lemma trimEnd_lastOk (s : string) : lastOk s = true -> trimEnd s = s.
Proof.
  induction s as [|c s IH]; [reflexivity|].
  intros H. rewrite trimEnd_cons. destruct s as [|d t].
  - simpl in *. now destruct (isWhiteSpace c).
  - rewrite IH by exact H. reflexivity.
Qed.

Lemma headOk_trimEnd (s : string) : headOk s = true -> headOk (trimEnd s) = true.
Proof.
  destruct s as [|c s]; [reflexivity|].
  intros H. rewrite trimEnd_cons. simpl in H.
  destruct (isWhiteSpace c) eqn:W; [discriminate|].
  destruct (trimEnd s); simpl; now rewrite W.
Qed.

Lemma trim_ok (s : string) : headOk (trim s) = true /\ lastOk (trim s) = true.
Proof.
  unfold trim. split.
  - apply headOk_trimEnd, headOk_trimStart.
  - apply lastOk_trimEnd.
Qed.

Lemma trim_id (s : string) : headOk s = true -> lastOk s = true -> trim s = s.
Proof.
  intros H1 H2. unfold trim. rewrite (trimStart_headOk s H1). now apply trimEnd_lastOk.
Qed.

Lemma trim_idempotent (s : string) : trim (trim s) = trim s.
Proof. destruct (trim_ok s). now apply trim_id. Qed.

Lemma trimStart_nil (s : string) : trimStart s = EmptyString <-> isBlank s = true.
Proof.
  induction s as [|c s IH]; simpl; [tauto|].
  destruct (isWhiteSpace c); simpl; [exact IH|]. split; discriminate.
Qed.

Lemma trimEnd_nil (s : string) : trimEnd s = EmptyString <-> isBlank s = true.
Proof.
  induction s as [|c s IH]; [simpl; tauto|].
  rewrite trimEnd_cons. simpl isBlank.
  destruct (trimEnd s) as [|d t].
  - destruct (isWhiteSpace c); simpl.
    + split; [intros _; now apply IH|reflexivity].
    + split; discriminate.
  - split; [discriminate|].
    intros H. apply andb_true_iff in H as [_ H]. apply IH in H. discriminate.
Qed.

Lemma isBlank_trimStart (s : string) : isBlank (trimStart s) = isBlank s.
Proof.
  induction s as [|c s IH]; simpl; [reflexivity|].
  destruct (isWhiteSpace c) eqn:E; simpl; [exact IH|now rewrite E].
Qed.

Lemma trim_nil (s : string) : trim s = EmptyString <-> isBlank s = true.
Proof.
  unfold trim. rewrite trimEnd_nil, isBlank_trimStart. tauto.
Qed.

Lemma includes_trimStart (c : ascii) (s : string) :
  includes c (trimStart s) = true -> includes c s = true.
Proof.
  induction s as [|d s IH]; simpl; [trivial|].
  destruct (isWhiteSpace d); simpl; [|trivial].
  intros H. rewrite (IH H). apply orb_true_r.
Qed.

Lemma includes_trimEnd (c : ascii) (s : string) :
  includes c (trimEnd s) = true -> includes c s = true.
Proof.
  induction s as [|d s IH]; [trivial|].
  rewrite trimEnd_cons. simpl includes.
  destruct (trimEnd s) as [|e t].
  - destruct (isWhiteSpace d); simpl; [discriminate|].
    rewrite orb_false_r. intros ->. reflexivity.
  - intros H. change (Ascii.eqb d c || includes c (String e t) = true) in H.
    apply orb_true_iff in H as [H|H]; [now rewrite H|].
    rewrite (IH H). apply orb_true_r.
Qed.

Lemma includes_trim (c : ascii) (s : string) :
  includes c (trim s) = true -> includes c s = true.
Proof. intros H. now apply includes_trimStart, includes_trimEnd. Qed.

Lemma trim_clean (c : ascii) (s : string) :
  includes c s = false -> includes c (trim s) = false.
Proof.
  intros H. destruct (includes c (trim s)) eqn:E; [|reflexivity].
  apply includes_trim in E. congruence.
Qed.

End TrimFacts.

Module CaseFacts.

Import JsString.

Lemma concatMap_app (f : ascii -> string) (a b : string) :
  concatMap f (a ++ b) = concatMap f a ++ concatMap f b.
Proof.
  induction a as [|c a IH]; simpl; [reflexivity|].
  now rewrite IH, StringFacts.append_assoc.
Qed.

Lemma upperChar_fixed (c : ascii) : concatMap upperChar (upperChar c) = upperChar c.
Proof. destruct c as [[] [] [] [] [] [] [] []]; vm_compute; reflexivity. Qed.

Lemma upperChar_ends (c : ascii) :
  upperChar c <> EmptyString
  /\ Shape.headOk (upperChar c) = negb (isWhiteSpace c)
  /\ Shape.lastOk (upperChar c) = negb (isWhiteSpace c).
Proof.
  destruct c as [[] [] [] [] [] [] [] []];
    (split; [vm_compute; discriminate|split; vm_compute; reflexivity]).
Qed.

Lemma toUpperCase_idempotent (s : string) : toUpperCase (toUpperCase s) = toUpperCase s.
Proof.
  unfold toUpperCase. induction s as [|c s IH]; simpl; [reflexivity|].
  now rewrite concatMap_app, upperChar_fixed, IH.
Qed.

Lemma toUpperCase_nil (s : string) : toUpperCase s = EmptyString <-> s = EmptyString.
Proof.
  split; [|intros ->; reflexivity].
  destruct s as [|c s]; [reflexivity|]. unfold toUpperCase. simpl. intros H.
  apply StringFacts.append_eq_nil in H as [H _].
  now destruct (upperChar_ends c) as [Hne _].
Qed.

Lemma headOk_app (a b : string) :
  a <> EmptyString -> Shape.headOk (a ++ b) = Shape.headOk a.
Proof. destruct a; [congruence|reflexivity]. Qed.

Lemma lastOk_app (a b : string) :
  b <> EmptyString -> Shape.lastOk (a ++ b) = Shape.lastOk b.
Proof.
  intros Hb. induction a as [|c a IH]; [reflexivity|].
  simpl. destruct (a ++ b) eqn:E; [|exact IH].
  apply StringFacts.append_eq_nil in E as [_ E]. congruence.
Qed.

Lemma headOk_toUpperCase (s : string) :
  Shape.headOk (toUpperCase s) = Shape.headOk s.
Proof.
  destruct s as [|c s]; [reflexivity|]. unfold toUpperCase. simpl concatMap.
  destruct (upperChar_ends c) as (Hne & Hh & _).
  rewrite headOk_app by exact Hne. exact Hh.
Qed.

Lemma lastOk_toUpperCase (s : string) :
  Shape.lastOk (toUpperCase s) = Shape.lastOk s.
Proof.
  unfold toUpperCase. induction s as [|c s IH]; [reflexivity|].
  simpl concatMap. destruct (upperChar_ends c) as (Hne & _ & Hl).
  destruct s as [|d s].
  - simpl concatMap. rewrite StringFacts.append_nil_r. exact Hl.
  - rewrite lastOk_app.
    + rewrite IH. reflexivity.
    + intros H. apply (toUpperCase_nil (String d s)) in H. discriminate.
Qed.

Lemma normalizeSymbol_trimmed (s : string) :
  trim (normalizeSymbol s) = normalizeSymbol s.
Proof.
  unfold normalizeSymbol. destruct (TrimFacts.trim_ok s) as [H1 H2].
  apply TrimFacts.trim_id.
  - now rewrite headOk_toUpperCase.
  - now rewrite lastOk_toUpperCase.
Qed.

Lemma normalizeSymbol_idempotent (s : string) :
  normalizeSymbol (normalizeSymbol s) = normalizeSymbol s.
Proof.
  unfold normalizeSymbol at 1. rewrite normalizeSymbol_trimmed.
  unfold normalizeSymbol. apply toUpperCase_idempotent.
Qed.

Lemma normalizeSymbol_nil (s : string) :
  normalizeSymbol s = EmptyString <-> isBlank s = true.
Proof.
  unfold normalizeSymbol. rewrite toUpperCase_nil. apply TrimFacts.trim_nil.
Qed.

End CaseFacts.

(* ===================================================================== *)
(** * Facts about the characters of formatted numbers *)
(* ===================================================================== *)

Module CharFacts.

Import JsString Shape.

Lemma allChars_app (p : ascii -> bool) (a b : string) :
  allChars p (a ++ b) = allChars p a && allChars p b.
Proof.
  induction a as [|c a IH]; simpl; [reflexivity|].
  now rewrite IH, andb_assoc.
Qed.

Lemma allChars_weaken (p q : ascii -> bool) (s : string) :
  (forall c, p c = true -> q c = true) ->
  allChars p s = true -> allChars q s = true.
Proof.
  intros Hpq. induction s as [|c s IH]; simpl; [trivial|].
  intros H. apply andb_true_iff in H as [Hc Hs].
  now rewrite (Hpq c Hc), IH.
Qed.

Lemma allChars_concatMap (p : ascii -> bool) (f : ascii -> string) (s : string) :
  (forall c, allChars p (f c) = true) -> allChars p (concatMap f s) = true.
Proof.
  intros Hf. induction s as [|c s IH]; simpl; [reflexivity|].
  now rewrite allChars_app, Hf, IH.
Qed.

Lemma allChars_takeN (p : ascii -> bool) (n : nat) :
  forall s, allChars p s = true -> allChars p (takeN n s) = true.
Proof.
  induction n as [|n IH]; intros [|c s]; simpl; trivial.
  intros H. apply andb_true_iff in H as [Hc Hs]. now rewrite Hc, IH.
Qed.

Lemma allChars_dropN (p : ascii -> bool) (n : nat) :
  forall s, allChars p s = true -> allChars p (dropN n s) = true.
Proof.
  induction n as [|n IH]; intros [|c s]; simpl; trivial.
  intros H. apply andb_true_iff in H as [_ Hs]. now apply IH.
Qed.

Lemma allChars_replicate (p : ascii -> bool) (n : nat) (c : ascii) :
  p c = true -> allChars p (replicate n c) = true.
Proof. intros Hc. induction n as [|n IH]; simpl; [reflexivity|]. now rewrite Hc. Qed.

Lemma allChars_includes (p : ascii -> bool) (c : ascii) (s : string) :
  p c = false -> allChars p s = true -> includes c s = false.
Proof.
  intros Hc. induction s as [|d s IH]; simpl; [trivial|].
  intros H. apply andb_true_iff in H as [Hd Hs]. rewrite (IH Hs), orb_false_r.
  destruct (Ascii.eqb d c) eqn:E; [|reflexivity].
  apply Ascii.eqb_eq in E. congruence.
Qed.

Lemma allChars_headOk (s : string) :
  allChars (fun c => negb (isWhiteSpace c)) s = true -> headOk s = true.
Proof. destruct s as [|c s]; simpl; [trivial|]. intros H. now apply andb_true_iff in H. Qed.

Lemma allChars_lastOk (s : string) :
  allChars (fun c => negb (isWhiteSpace c)) s = true -> lastOk s = true.
Proof.
  induction s as [|c s IH]; [trivial|].
  simpl allChars. intros H. apply andb_true_iff in H as [Hc Hs].
  destruct s as [|d s]; [exact Hc|]. exact (IH Hs).
Qed.

(** A string of plain characters is a clean cell. *)
Lemma plain_cleanCell (s : string) : allChars plain s = true -> cleanCell s.
Proof.
  intros H. split.
  - apply TrimFacts.trim_id.
    + apply allChars_headOk. revert H. apply allChars_weaken.
      intros c Hc. unfold plain in Hc. now apply andb_true_iff in Hc.
    + apply allChars_lastOk. revert H. apply allChars_weaken.
      intros c Hc. unfold plain in Hc. now apply andb_true_iff in Hc.
  - revert H. apply allChars_includes. reflexivity.
Qed.

Lemma plain_no_newline (s : string) :
  allChars plain s = true -> includes newline s = false.
Proof. apply allChars_includes. reflexivity. Qed.

Lemma numeric_plain (c : ascii) : numeric c = true -> plain c = true.
Proof. destruct c as [[] [] [] [] [] [] [] []]; vm_compute; trivial. Qed.

Lemma digit_numeric (c : ascii) : isDigit c = true -> numeric c = true.
Proof. unfold numeric. now intros ->. Qed.

Lemma length_takeN (n : nat) :
  forall s, String.length (takeN n s) = Nat.min n (String.length s).
Proof. induction n as [|n IH]; intros [|c s]; simpl; auto. Qed.

Lemma length_dropN (n : nat) :
  forall s, String.length (dropN n s) = String.length s - n.
Proof. induction n as [|n IH]; intros [|c s]; simpl; auto. Qed.

Lemma takeN_all (n : nat) : forall s, String.length s <= n -> takeN n s = s.
Proof.
  induction n as [|n IH]; intros [|c s]; simpl; trivial; intros H; [lia|].
  f_equal. apply IH. lia.
Qed.

Lemma dropN_all (n : nat) : forall s, String.length s <= n -> dropN n s = EmptyString.
Proof.
  induction n as [|n IH]; intros [|c s]; simpl; trivial; intros H; [lia|].
  apply IH. lia.
Qed.

Lemma length_replicate (n : nat) (c : ascii) : String.length (replicate n c) = n.
Proof. induction n as [|n IH]; simpl; auto. Qed.

Lemma length_nil (s : string) : String.length s = 0 -> s = EmptyString.
Proof. destruct s; [reflexivity|discriminate]. Qed.

End CharFacts.

Module FormatFacts.

Import JsString Shape.

Local Open Scope Z_scope.

Lemma digits_of_uint (d : Decimal.uint) :
  allChars isDigit (NilEmpty.string_of_uint d) = true.
Proof. induction d; simpl; trivial. Qed.

Lemma decimal_digits (z : Z) : allChars isDigit (decimal z) = true.
Proof.
  unfold decimal, NilZero.string_of_uint.
  destruct (N.to_uint (Z.to_N z)) eqn:E; try reflexivity;
    rewrite <- E; exact (digits_of_uint _) || (simpl; apply digits_of_uint).
Qed.

Lemma decimal_nonempty (z : Z) : decimal z <> EmptyString.
Proof.
  unfold decimal, NilZero.string_of_uint.
  destruct (N.to_uint (Z.to_N z)); discriminate.
Qed.

Lemma zeros_digits (n : Z) : allChars isDigit (zeros n) = true.
Proof. apply CharFacts.allChars_replicate. reflexivity. Qed.

(** The two parts [fixedDigits] cuts a number into: digits only, at
    least one before the point and exactly [f] after it. *)
Lemma fixedDigits_shape (n f : Z) :
  0 <= f ->
  let '(ip, fp) := fixedDigits n f in
  allChars isDigit ip = true /\ allChars isDigit fp = true
  /\ ip <> EmptyString /\ String.length fp = Z.to_nat f.
Proof.
  intros Hf. unfold fixedDigits.
  set (ds := decimal n).
  set (padded :=
         if Z.of_nat (String.length ds) <=? f
         then zeros (f + 1 - Z.of_nat (String.length ds)) ++ ds else ds).
  assert (Hd : allChars isDigit padded = true).
  { unfold padded. destruct (_ <=? _); [|apply decimal_digits].
    rewrite CharFacts.allChars_app, zeros_digits. apply decimal_digits. }
  assert (Hl : f < Z.of_nat (String.length padded)).
  { unfold padded. destruct (Z.leb_spec (Z.of_nat (String.length ds)) f); [|lia].
    rewrite StringFacts.length_append. unfold zeros.
    rewrite CharFacts.length_replicate. lia. }
  set (cut := Z.to_nat (Z.of_nat (String.length padded) - f)).
  assert (Hcut : (0 < cut /\ cut + Z.to_nat f = String.length padded)%nat)
    by (unfold cut; lia).
  split; [now apply CharFacts.allChars_takeN|].
  split; [now apply CharFacts.allChars_dropN|]. split.
  - intros H. pose proof (CharFacts.length_takeN cut padded) as L.
    rewrite H in L. simpl in L. lia.
  - rewrite CharFacts.length_dropN. lia.
Qed.

Lemma groupFrom_numeric (ds : string) :
  forall lead, allChars isDigit ds = true ->
               allChars numeric (groupFrom ds lead) = true.
Proof.
  induction ds as [|c ds IH]; intros lead; simpl; [trivial|].
  intros H. apply andb_true_iff in H as [Hc Hs].
  destruct lead as [|lead]; simpl; rewrite (CharFacts.digit_numeric c Hc);
    now rewrite IH.
Qed.

Lemma groupFrom_nonempty (ds : string) (lead : nat) :
  ds <> EmptyString -> groupFrom ds lead <> EmptyString.
Proof. destruct ds; [congruence|]. destruct lead; discriminate. Qed.

Lemma removeAll_app (p : ascii -> bool) (a b : string) :
  removeAll p (a ++ b) = removeAll p a ++ removeAll p b.
Proof.
  induction a as [|c a IH]; simpl; [reflexivity|].
  rewrite IH. now destruct (p c).
Qed.

Lemma digit_kept (c : ascii) : isDigit c = true -> isStripped c = false.
Proof. destruct c as [[] [] [] [] [] [] [] []]; vm_compute; trivial; discriminate. Qed.

Lemma removeAll_digits (s : string) :
  allChars isDigit s = true -> removeAll isStripped s = s.
Proof.
  induction s as [|c s IH]; [reflexivity|].
  cbn [allChars removeAll]. intros H. apply andb_true_iff in H as [Hc Hs].
  now rewrite (digit_kept c Hc), IH.
Qed.

(** Removing what [parseNumber] removes takes the commas out of the
    grouped digits and gives the digits back. *)
Lemma groupFrom_stripped (ds : string) :
  forall lead, allChars isDigit ds = true ->
               removeAll isStripped (groupFrom ds lead) = ds.
Proof.
  induction ds as [|c ds IH]; intros lead; [reflexivity|].
  cbn [allChars]. intros H. apply andb_true_iff in H as [Hc Hs].
  destruct lead as [|lead]; cbn [groupFrom removeAll];
    [change (isStripped ",") with true; cbv iota; cbn [removeAll]|];
    rewrite (digit_kept c Hc), IH; trivial.
Qed.

Lemma grouped_stripped (ip : string) :
  allChars isDigit ip = true -> removeAll isStripped (grouped ip) = ip.
Proof. apply groupFrom_stripped. Qed.

(** A finite number formatted with [f] digits after the point: an
    optional minus sign, the grouped digits before the point, and,
    unless [f] is 0, a point and exactly [f] digits. *)
Lemma formatNumber_finite (x : number) (f : Z) :
  0 <= f -> isFinite x = true ->
  exists ip fp,
    formatNumber x f
    = (if signBit x then "-" else "") ++ grouped ip
        ++ (if f =? 0 then "" else "." ++ fp)
    /\ allChars isDigit ip = true /\ allChars isDigit fp = true
    /\ ip <> EmptyString /\ String.length fp = Z.to_nat f.
Proof.
  intros Hf Hx. unfold formatNumber, formatLocale.
  pose proof (fixedDigits_shape (scaledShortest x f) f Hf) as Hs.
  destruct (fixedDigits (scaledShortest x f) f) as [ip fp].
  destruct Hs as (Hip & Hfp & Hne & Hlen).
  assert (Hkeep : takeN (Z.to_nat f) fp ++ stripZeros (dropN (Z.to_nat f) fp) = fp).
  { rewrite CharFacts.takeN_all, CharFacts.dropN_all by lia.
    simpl. apply StringFacts.append_nil_r. }
  assert (Hfrac : match fp with EmptyString => "" | _ => "." ++ fp end
                  = if f =? 0 then "" else "." ++ fp).
  { destruct (Z.eqb_spec f 0) as [->|Hnz].
    - now rewrite (CharFacts.length_nil fp Hlen).
    - destruct fp; [simpl in Hlen; lia|reflexivity]. }
  exists ip, fp. split; [|tauto].
  destruct x as [s| | |s m e]; try discriminate; rewrite Hkeep, Hfrac; reflexivity.
Qed.

Lemma grouped_numeric (ip : string) :
  allChars isDigit ip = true -> allChars numeric (grouped ip) = true.
Proof. apply groupFrom_numeric. Qed.

(** Whatever the number, the formatted text is not empty and can
    stand in a table cell: no white space, no line feed, no bar. *)
Lemma formatNumber_plain (x : number) (f : Z) :
  0 <= f ->
  allChars plain (formatNumber x f) = true /\ formatNumber x f <> EmptyString.
Proof.
  intros Hf. destruct (isFinite x) eqn:Hx.
  - destruct (formatNumber_finite x f Hf Hx) as (ip & fp & -> & Hip & Hfp & Hne & _).
    split.
    + apply (CharFacts.allChars_weaken numeric); [exact CharFacts.numeric_plain|].
      rewrite !CharFacts.allChars_app, (grouped_numeric ip Hip).
      assert (allChars numeric fp = true)
        by (revert Hfp; apply CharFacts.allChars_weaken, CharFacts.digit_numeric).
      destruct (signBit x), (f =? 0); simpl; trivial.
    + intros H. apply StringFacts.append_eq_nil in H as [_ H].
      apply StringFacts.append_eq_nil in H as [H _].
      revert H. now apply groupFrom_nonempty.
  - destruct x as [s|s| |s m e]; try discriminate.
    + destruct s; split; try (vm_compute; reflexivity); discriminate.
    + split; [vm_compute; reflexivity|discriminate].
Qed.

End FormatFacts.

(* ===================================================================== *)
(** * Facts about the roles of columns *)
(* ===================================================================== *)

Module RoleFacts.

Import TableFacts.

Lemma ticker_shares_disjoint n : In n tickerNames -> In n sharesNames -> False.
Proof. revert n. names_disjoint. Qed.
Lemma ticker_price_disjoint n : In n tickerNames -> In n priceNames -> False.
Proof. revert n. names_disjoint. Qed.
Lemma ticker_value_disjoint n : In n tickerNames -> In n valueNames -> False.
Proof. revert n. names_disjoint. Qed.
Lemma ticker_allocation_disjoint n : In n tickerNames -> In n allocationNames -> False.
Proof. revert n. names_disjoint. Qed.
Lemma shares_price_disjoint n : In n sharesNames -> In n priceNames -> False.
Proof. revert n. names_disjoint. Qed.
Lemma shares_value_disjoint n : In n sharesNames -> In n valueNames -> False.
Proof. revert n. names_disjoint. Qed.
Lemma shares_allocation_disjoint n : In n sharesNames -> In n allocationNames -> False.
Proof. revert n. names_disjoint. Qed.
Lemma price_value_disjoint n : In n priceNames -> In n valueNames -> False.
Proof. revert n. names_disjoint. Qed.

Lemma resolveRoles_Resolved (header : list string) (roles : Roles) :
  resolveRoles header = Some roles -> Resolved header roles.
Proof.
  intros H. apply resolveRoles_Some in H as (Ht & Hs & Hp & Hv & Ha).
  pose proof (fun i j => headerIndex_disjoint header _ _ i j ticker_shares_disjoint) as D1.
  pose proof (fun i j => headerIndex_disjoint header _ _ i j ticker_price_disjoint) as D2.
  pose proof (fun i j => headerIndex_disjoint header _ _ i j ticker_value_disjoint) as D3.
  pose proof (fun i j => headerIndex_disjoint header _ _ i j ticker_allocation_disjoint) as D4.
  pose proof (fun i j => headerIndex_disjoint header _ _ i j shares_price_disjoint) as D5.
  pose proof (fun i j => headerIndex_disjoint header _ _ i j shares_value_disjoint) as D6.
  pose proof (fun i j => headerIndex_disjoint header _ _ i j shares_allocation_disjoint) as D7.
  pose proof (fun i j => headerIndex_disjoint header _ _ i j price_value_disjoint) as D8.
  pose proof (fun i j => headerIndex_disjoint header _ _ i j price_allocation_disjoint) as D9.
  pose proof (fun i j => headerIndex_disjoint header _ _ i j value_allocation_disjoint) as D10.
  split.
  - eapply headerIndex_lt, Ht.
  - eapply headerIndex_lt, Hs.
  - intros p E. rewrite Hp in E. eapply headerIndex_lt, E.
  - intros v E. rewrite Hv in E. eapply headerIndex_lt, E.
  - intros a E. rewrite Ha in E. eapply headerIndex_lt, E.
  - exact (D1 _ _ Ht Hs).
  - rewrite Hp. intros E. exact (D2 _ _ Ht E eq_refl).
  - rewrite Hp. intros E. exact (D5 _ _ Hs E eq_refl).
  - rewrite Hv. intros E. exact (D3 _ _ Ht E eq_refl).
  - rewrite Hv. intros E. exact (D6 _ _ Hs E eq_refl).
  - rewrite Ha. intros E. exact (D4 _ _ Ht E eq_refl).
  - rewrite Ha. intros E. exact (D7 _ _ Hs E eq_refl).
  - intros p E. rewrite Hp in E. rewrite Hv. intros E'. exact (D8 _ _ E E' eq_refl).
  - intros p E. rewrite Hp in E. rewrite Ha. intros E'. exact (D9 _ _ E E' eq_refl).
  - intros v E. rewrite Hv in E. rewrite Ha. intros E'. exact (D10 _ _ E E' eq_refl).
Qed.

Lemma Resolved_NoDup (header : list string) (roles : Roles) :
  Resolved header roles -> NoDup (roleColumns roles).
Proof.
  intros [? ? ? ? ? Hts Hpt Hps Hvt Hvs Hat Has Hpv Hpa Hva].
  unfold roleColumns.
  destruct (priceIndex roles) as [p|], (valueIndex roles) as [v|],
    (allocationIndex roles) as [a|]; simpl;
    repeat (apply NoDup_cons; split; [rewrite ?elem_of_cons, ?elem_of_nil|]);
    try apply NoDup_nil_2;
    try specialize (Hpv _ eq_refl); try specialize (Hpa _ eq_refl);
    try specialize (Hva _ eq_refl);
    intuition congruence.
Qed.

Lemma Resolved_bounds (header : list string) (roles : Roles) :
  Resolved header roles -> Forall (fun i => i < length header) (roleColumns roles).
Proof.
  intros [Ht Hs Hp Hv Ha _ _ _ _ _ _ _ _ _ _]. unfold roleColumns.
  repeat apply Forall_cons_2; trivial.
  destruct (priceIndex roles) as [p|], (valueIndex roles) as [v|],
    (allocationIndex roles) as [a|]; simpl;
    repeat apply Forall_cons_2; try apply Forall_nil_2; auto.
Qed.

End RoleFacts.

(* ===================================================================== *)
(** * Facts about rows, the scan and separators *)
(* ===================================================================== *)

Module RowFacts.

Import JsString Shape.

Lemma split_clean (sep : ascii) (s : string) :
  Forall (fun x => includes sep x = false) (split sep s).
Proof.
  induction s as [|c s IH]; simpl.
  - repeat constructor.
  - destruct (Ascii.eqb c sep) eqn:E.
    + constructor; [reflexivity|exact IH].
    + destruct (split sep s) as [|x xs]; [repeat constructor; simpl; now rewrite E|].
      inversion IH as [|? ? Hx Hxs]; subst. constructor; [|exact Hxs].
      simpl. now rewrite E, Hx.
Qed.

Lemma length_split (sep : ascii) (s : string) :
  length (split sep s) = S (count sep s).
Proof.
  induction s as [|c s IH]; simpl; [reflexivity|].
  destruct (Ascii.eqb c sep); simpl; [now rewrite IH|].
  destruct (split sep s); simpl in *; lia.
Qed.

(** The cells of any line: at least one, each trimmed and without a
    bar. *)
Lemma splitRow_clean (line : string) : Forall cleanCell (splitRow line).
Proof.
  unfold splitRow. apply Forall_fmap.
  eapply Forall_impl; [apply (split_clean "|")|].
  intros x Hx. split; [apply TrimFacts.trim_idempotent|now apply TrimFacts.trim_clean].
Qed.

Lemma splitRow_nonempty (line : string) : splitRow line <> [].
Proof.
  unfold splitRow. intros H. apply fmap_nil_inv in H.
  revert H. apply StringFacts.split_nonempty.
Qed.

(** Writing the cells of a line and reading them again gives the
    same cells. *)
Lemma splitRow_canonical (line : string) :
  splitRow (serializeRow (splitRow line)) = splitRow line.
Proof.
  apply SerializeFacts.splitRow_serializeRow;
    [apply splitRow_nonempty|apply splitRow_clean].
Qed.

End RowFacts.

Module ScanFacts.

Import JsString.

Lemma countRows_le (ls : list string) : countRows ls <= length ls.
Proof.
  induction ls as [|l ls IH]; simpl; [lia|]. destruct (isTableRow l); simpl; lia.
Qed.

Lemma countRows_all_rows (ls : list string) :
  forall j, j < countRows ls -> exists l, ls !! j = Some l /\ isTableRow l = true.
Proof.
  induction ls as [|l ls IH]; simpl; [lia|].
  destruct (isTableRow l) eqn:E; [|lia].
  intros [|j] Hj; [now exists l|]. apply IH. lia.
Qed.

Lemma countRows_stop (ls : list string) (l : string) :
  ls !! countRows ls = Some l -> isTableRow l = false.
Proof.
  induction ls as [|l0 ls IH]; simpl; [discriminate|].
  destruct (isTableRow l0) eqn:E; simpl; [exact IH|]. now intros [= <-].
Qed.

(** The block the scan returns: the separator is inside the text,
    every line after it up to [tableEnd] is a table row, and the line
    after [tableEnd], if there is one, is not. *)
Lemma locateTable_block (lines : list string) (tableStart tableEnd : nat)
    (header : list string) :
  locateTable lines = Some (tableStart, tableEnd, header) ->
  tableStart + 1 <= tableEnd < length lines
  /\ (forall j, tableStart + 2 <= j <= tableEnd ->
                exists l, lines !! j = Some l /\ isTableRow l = true)
  /\ (forall l, lines !! (tableEnd + 1) = Some l -> isTableRow l = false)
  /\ length (dataRowsOf lines tableStart tableEnd) = tableEnd - (tableStart + 1).
Proof.
  intros H. apply LocateFacts.locateFrom_sound in H
    as (k & l0 & l1 & -> & H0 & H1 & _ & _ & _ & -> & _).
  simpl. pose proof (countRows_le (drop (k + 2) lines)) as Hle.
  rewrite length_drop in Hle. apply lookup_lt_Some in H1.
  split; [lia|]. split; [|split].
  - intros j Hj.
    destruct (countRows_all_rows (drop (k + 2) lines) (j - (k + 2))) as (l & Hl & Hr);
      [lia|].
    rewrite lookup_drop in Hl. exists l. split; [|exact Hr].
    rewrite <- Hl. f_equal. lia.
  - intros l Hl. apply (countRows_stop (drop (k + 2) lines)).
    rewrite lookup_drop. rewrite <- Hl. f_equal. lia.
  - unfold dataRowsOf. rewrite length_fmap, length_take, length_drop. lia.
Qed.

End ScanFacts.

Module SeparatorFacts.

Import JsString Regex.

Lemma Matches_Chr_inv (c : ascii) (s : string) :
  Matches (Chr c) s -> s = String c EmptyString.
Proof.
  unfold Chr. intros H. inv H.
  match goal with H : Ascii.eqb _ _ = true |- _ => apply Ascii.eqb_eq in H end.
  now subst.
Qed.

Lemma Matches_separatorCell_dash (s : string) :
  Matches separatorCell s -> includes "-" s = true.
Proof.
  unfold separatorCell. intros H. inv H.
  match goal with H : Matches (Seq (Seq (Chr "-") _) _) _ |- _ => inv H end.
  match goal with H : Matches (Seq (Chr "-") _) _ |- _ => inv H end.
  match goal with H : Matches (Chr "-") _ |- _ => apply Matches_Chr_inv in H; subst end.
  rewrite !StringFacts.includes_app. simpl. now rewrite !orb_true_r.
Qed.

Lemma Matches_group_bar (r : re) (s : string) :
  Matches (Plus (Seq (Chr "|") r)) s -> includes "|" s = true.
Proof.
  unfold Plus. intros H. inv H.
  match goal with H : Matches (Seq (Chr "|") _) _ |- _ => inv H end.
  match goal with H : Matches (Chr "|") _ |- _ => apply Matches_Chr_inv in H; subst end.
  rewrite !StringFacts.includes_app. reflexivity.
Qed.

(** A separator line has a bar and a dash in it. *)
Lemma separator_bar_dash (s : string) :
  isTableSeparator s = true -> includes "|" s = true /\ includes "-" s = true.
Proof.
  intros H. apply RegexFacts.test_sound in H. unfold separatorRe in H.
  inv H.
  match goal with H : Matches (Seq (Opt _) _) _ |- _ => inv H end.
  match goal with H : Matches (Seq ws _) _ |- _ => inv H end.
  match goal with H : Matches (Seq separatorCell _) _ |- _ => inv H end.
  match goal with H : Matches (Seq (Plus _) _) _ |- _ => inv H end.
  match goal with H : Matches separatorCell _ |- _ =>
    apply Matches_separatorCell_dash in H end.
  match goal with H : Matches (Plus _) _ |- _ => apply Matches_group_bar in H end.
  rewrite !StringFacts.includes_app.
  split; repeat match goal with H : includes _ _ = true |- _ => rewrite H end;
    now rewrite ?orb_true_r.
Qed.

Lemma separator_is_row (s : string) :
  isTableSeparator s = true -> isTableRow s = true.
Proof.
  intros H. destruct (separator_bar_dash s H) as [Hb Hd].
  unfold isTableRow. rewrite Hb. simpl.
  now rewrite (StringFacts.isBlank_includes "-" s eq_refl Hd).
Qed.

End SeparatorFacts.

(* ===================================================================== *)
(** * Facts about reconciliation *)
(* ===================================================================== *)

Module ReconcileFacts.

Import TableFacts RoleFacts.

Section Engine.

Variables (header : list string) (roles : Roles) (quotes : gmap string Quote).
Hypothesis resolved : Resolved header roles.

(** The row as the first pass leaves it, written out. *)
Lemma updateRow_matched (row : list string) (quote : Quote) :
  let padded := pad (length header) row in
  quotes !! normalizeSymbol (cellOr padded (tickerIndex roles)) = Some quote ->
  let price := priceOf quote in
  let value :=
    match price, parseNumber (padded !! sharesIndex roles) with
    | Some p, Some s => Some (mul p s)
    | _, _ => None
    end in
  let row1 :=
    match priceIndex roles, price with
    | Some i, Some p => <[i := formatNumber p 2]> padded
    | _, _ => padded
    end in
  updateRow header roles quotes row
  = (match valueIndex roles, value with
     | Some i, Some v => <[i := formatNumber v 2]> row1
     | _, _ => row1
     end, Some (default zero value)).
Proof. intros padded Hq. unfold updateRow. fold padded. now rewrite Hq. Qed.

(** The first pass leaves alone every cell outside the price and the
    value column. *)
Lemma updateRow_frame (row : list string) (j : nat) :
  priceIndex roles <> Some j -> valueIndex roles <> Some j ->
  fst (updateRow header roles quotes row) !! j = pad (length header) row !! j.
Proof.
  intros Hp Hv. unfold updateRow.
  destruct (quotes !! _) as [quote|]; [|reflexivity]. cbn [fst].
  assert (H1 : forall x,
             match priceIndex roles, x with
             | Some i, Some p => setCell i (formatNumber p 2) (pad (length header) row)
             | _, _ => pad (length header) row
             end !! j = pad (length header) row !! j).
  { intros x. destruct (priceIndex roles) as [i|], x as [p|]; trivial.
    apply list_lookup_insert_ne. congruence. }
  destruct (valueIndex roles) as [i|]; [|apply H1].
  destruct (match priceOf quote with Some _ => _ | None => _ end); [|apply H1].
  unfold setCell at 1. rewrite list_lookup_insert_ne by congruence. apply H1.
Qed.

(** Both passes leave alone every cell outside the price, value and
    allocation columns. *)
Lemma reconcile_frame (dataRows : list (list string)) (i j : nat) (row row' : list string) :
  dataRows !! i = Some row ->
  reconcile header roles quotes dataRows !! i = Some row' ->
  priceIndex roles <> Some j -> valueIndex roles <> Some j ->
  allocationIndex roles <> Some j ->
  row' !! j = pad (length header) row !! j.
Proof.
  intros Hi Hr Hp Hv Ha. rewrite (reconcile_lookup _ _ _ _ _ _ Hi) in Hr.
  injection Hr as <-. cbv zeta.
  destruct (allocationIndex roles) as [a|]; [|now apply updateRow_frame].
  destruct (gtb _ zero); [|now apply updateRow_frame].
  unfold setCell. rewrite list_lookup_insert_ne by congruence.
  now apply updateRow_frame.
Qed.

Lemma length_reconciled (dataRows : list (list string)) (i : nat) (row row' : list string) :
  dataRows !! i = Some row ->
  reconcile header roles quotes dataRows !! i = Some row' ->
  length row' = Nat.max (length header) (length row).
Proof.
  intros Hi Hr. rewrite (reconcile_lookup _ _ _ _ _ _ Hi) in Hr.
  injection Hr as <-. cbv zeta.
  destruct (allocationIndex roles) as [a|]; [|apply length_updateRow].
  destruct (gtb _ zero); [|apply length_updateRow].
  unfold setCell. rewrite length_insert. apply length_updateRow.
Qed.

(** A row that already holds what the first pass would write into it
    goes through the first pass unchanged, with the same value. *)
Lemma updateRow_stable (row row' : list string) :
  length header <= length row' ->
  row' !! tickerIndex roles = pad (length header) row !! tickerIndex roles ->
  row' !! sharesIndex roles = pad (length header) row !! sharesIndex roles ->
  (forall j, priceIndex roles = Some j \/ valueIndex roles = Some j ->
             row' !! j = fst (updateRow header roles quotes row) !! j) ->
  updateRow header roles quotes row' = (row', snd (updateRow header roles quotes row)).
Proof.
  intros Hlen Ht Hs Hcells. unfold updateRow in *.
  rewrite (pad_wide _ row' Hlen).
  assert (Hsym : cellOr row' (tickerIndex roles)
                 = cellOr (pad (length header) row) (tickerIndex roles))
    by (unfold cellOr; now rewrite Ht).
  rewrite Hsym, Hs.
  destruct (quotes !! _) as [quote|]; [|reflexivity]. cbn [fst snd] in *.
  f_equal.
  set (padded := pad (length header) row) in *.
  set (value := match priceOf quote with
                | Some p => match parseNumber (padded !! sharesIndex roles) with
                            | Some s => Some (mul p s)
                            | None => None
                            end
                | None => None
                end) in *.
  assert (Hpl : length header <= length padded)
    by (unfold padded; rewrite length_pad; lia).
  assert (Hprice : match priceIndex roles, priceOf quote with
                   | Some i, Some p => setCell i (formatNumber p 2) row'
                   | _, _ => row'
                   end = row').
  { destruct (priceIndex roles) as [i|] eqn:Ei; [|reflexivity].
    destruct (priceOf quote) as [p|]; [|reflexivity].
    apply list_insert_id. rewrite (Hcells i (or_introl eq_refl)).
    assert (Hi : i < length padded) by (pose proof (price_lt _ _ resolved i Ei); lia).
    destruct (valueIndex roles) as [v|] eqn:Ev, value; unfold setCell;
      try (now apply list_lookup_insert_eq).
    rewrite list_lookup_insert_ne.
    - now apply list_lookup_insert_eq.
    - intros ->. exact (price_value _ _ resolved i Ei Ev). }
  rewrite Hprice.
  destruct (valueIndex roles) as [v|] eqn:Ev; [|reflexivity].
  destruct value as [x|]; [|reflexivity].
  apply list_insert_id. rewrite (Hcells v (or_intror eq_refl)).
  unfold setCell. apply list_lookup_insert_eq.
  pose proof (value_lt _ _ resolved v Ev).
  destruct (priceIndex roles), (priceOf quote); rewrite ?length_insert; lia.
Qed.

(** The cells the first pass writes are still there after the second
    pass. *)
Lemma reconcile_keeps_first_pass (dataRows : list (list string)) (i j : nat)
    (row row' : list string) :
  dataRows !! i = Some row ->
  reconcile header roles quotes dataRows !! i = Some row' ->
  allocationIndex roles <> Some j ->
  row' !! j = fst (updateRow header roles quotes row) !! j.
Proof.
  intros Hi Hr Ha. rewrite (reconcile_lookup _ _ _ _ _ _ Hi) in Hr.
  injection Hr as <-. cbv zeta.
  destruct (allocationIndex roles) as [a|]; [|reflexivity].
  destruct (gtb _ zero); [|reflexivity].
  unfold setCell. apply list_lookup_insert_ne. congruence.
Qed.

Lemma reconciled_stable (dataRows : list (list string)) (i : nat) (row row' : list string) :
  dataRows !! i = Some row ->
  reconcile header roles quotes dataRows !! i = Some row' ->
  updateRow header roles quotes row' = (row', snd (updateRow header roles quotes row)).
Proof.
  intros Hi Hr. apply updateRow_stable.
  - rewrite (length_reconciled _ _ _ _ Hi Hr). lia.
  - apply (reconcile_frame _ _ _ _ _ Hi Hr).
    + apply (price_ticker _ _ resolved).
    + apply (value_ticker _ _ resolved).
    + apply (allocation_ticker _ _ resolved).
  - apply (reconcile_frame _ _ _ _ _ Hi Hr).
    + apply (price_shares _ _ resolved).
    + apply (value_shares _ _ resolved).
    + apply (allocation_shares _ _ resolved).
  - intros j Hj. apply (reconcile_keeps_first_pass _ _ _ _ _ Hi Hr).
    destruct Hj as [Hj|Hj].
    + exact (price_allocation _ _ resolved j Hj).
    + exact (value_allocation _ _ resolved j Hj).
Qed.

Lemma reconcile_values (dataRows : list (list string)) :
  map snd (firstPass header roles quotes (reconcile header roles quotes dataRows))
  = map snd (firstPass header roles quotes dataRows).
Proof.
  apply list_eq. intros i. rewrite !list_lookup_fmap, !firstPass_lookup.
  destruct (dataRows !! i) as [row|] eqn:Hi.
  - destruct (reconcile header roles quotes dataRows !! i) as [row'|] eqn:Hr.
    + simpl. now rewrite (reconciled_stable _ _ _ _ Hi Hr).
    + apply lookup_ge_None in Hr. rewrite length_reconcile in Hr.
      apply lookup_lt_Some in Hi. lia.
  - apply lookup_ge_None in Hi.
    rewrite (proj2 (lookup_ge_None _ _)); [reflexivity|].
    now rewrite length_reconcile.
Qed.

(** Reconciling again with the same quotes changes nothing. *)
Lemma reconcile_idempotent (dataRows : list (list string)) :
  reconcile header roles quotes (reconcile header roles quotes dataRows)
  = reconcile header roles quotes dataRows.
Proof.
  apply list_eq. intros i.
  destruct (reconcile header roles quotes dataRows !! i) as [row'|] eqn:Hr.
  - destruct (dataRows !! i) as [row|] eqn:Hi.
    + rewrite (reconcile_lookup _ _ _ _ _ _ Hr). f_equal. cbv zeta.
      rewrite (reconciled_stable _ _ _ _ Hi Hr). cbn [fst snd].
      unfold totalValue. rewrite reconcile_values.
      pose proof Hr as Hr'. rewrite (reconcile_lookup _ _ _ _ _ _ Hi) in Hr'.
      injection Hr' as Hr'. cbv zeta in Hr'. unfold totalValue in Hr'.
      destruct (allocationIndex roles) as [a|]; [|reflexivity].
      destruct (gtb _ zero); [|reflexivity].
      rewrite <- Hr' at 1. unfold setCell. rewrite list_insert_insert_eq.
      exact Hr'.
    + apply lookup_ge_None in Hi. apply lookup_lt_Some in Hr.
      rewrite length_reconcile in Hr. lia.
  - apply lookup_ge_None in Hr. apply lookup_ge_None.
    now rewrite length_reconcile.
Qed.

End Engine.

(** What holds of the empty cell and of every formatted number
    holds of every cell after reconciliation, if it held before. *)
Section Cells.

Variable P : string -> Prop.
Hypothesis P_nil : P EmptyString.
Hypothesis P_format : forall x : number, P (formatNumber x 2).

Lemma Forall_pad (width : nat) (row : list string) :
  Forall P row -> Forall P (pad width row).
Proof.
  intros H. unfold pad. apply Forall_app. split; [exact H|].
  apply Forall_forall. intros c Hc. apply list_elem_of_In, repeat_spec in Hc.
  subst. exact P_nil.
Qed.

Lemma Forall_updateRow header roles quotes (row : list string) :
  Forall P row -> Forall P (fst (updateRow header roles quotes row)).
Proof.
  intros H. apply (Forall_pad (length header)) in H. unfold updateRow.
  destruct (quotes !! _) as [quote|]; [|exact H]. cbn [fst].
  assert (H1 : Forall P
                 match priceIndex roles, priceOf quote with
                 | Some i, Some p => setCell i (formatNumber p 2) (pad (length header) row)
                 | _, _ => pad (length header) row
                 end).
  { destruct (priceIndex roles), (priceOf quote); trivial.
    apply Forall_insert; [exact H|apply P_format]. }
  destruct (valueIndex roles); [|exact H1].
  destruct (match priceOf quote with Some _ => _ | None => _ end); [|exact H1].
  apply Forall_insert; [exact H1|apply P_format].
Qed.

Lemma Forall_reconcile header roles quotes (dataRows : list (list string)) :
  Forall (Forall P) dataRows ->
  Forall (Forall P) (reconcile header roles quotes dataRows).
Proof.
  intros H. apply Forall_lookup. intros i row' Hr.
  destruct (dataRows !! i) as [row|] eqn:Hi.
  - rewrite (reconcile_lookup _ _ _ _ _ _ Hi) in Hr. injection Hr as <-. cbv zeta.
    pose proof (Forall_updateRow header roles quotes row
                  (proj1 (Forall_lookup _ _) H i row Hi)) as Hu.
    destruct (allocationIndex roles); [|exact Hu].
    destruct (gtb _ zero); [|exact Hu].
    apply Forall_insert; [exact Hu|]. unfold allocationCell. apply P_format.
  - apply lookup_ge_None in Hi. apply lookup_lt_Some in Hr.
    rewrite length_reconcile in Hr. lia.
Qed.

End Cells.

Lemma cleanCell_nil : cleanCell EmptyString.
Proof. split; reflexivity. Qed.

Lemma cleanCell_formatNumber (x : number) : cleanCell (formatNumber x 2).
Proof. apply CharFacts.plain_cleanCell, FormatFacts.formatNumber_plain. lia. Qed.

Lemma formatNumber_one_line (x : number) :
  JsString.includes newline (formatNumber x 2) = false.
Proof. apply CharFacts.plain_no_newline, FormatFacts.formatNumber_plain. lia. Qed.

(** A row that leaves reconciliation, for data rows read from
    lines. *)
Lemma reconciled_row header roles quotes (ls : list string) (i : nat)
    (row' : list string) :
  reconcile header roles quotes (map splitRow ls) !! i = Some row' ->
  row' <> [] /\ Forall cleanCell row'.
Proof.
  intros Hr. split.
  - destruct (map splitRow ls !! i) as [row|] eqn:Hi.
    + pose proof (length_reconciled header roles quotes _ _ _ _ Hi Hr) as Hlen.
      rewrite list_lookup_fmap in Hi. destruct (ls !! i) as [l|]; [|discriminate].
      injection Hi as <-. pose proof (RowFacts.splitRow_nonempty l) as Hne.
      destruct (splitRow l); [congruence|]. destruct row'; [simpl in Hlen; lia|].
      discriminate.
    + apply lookup_ge_None in Hi. apply lookup_lt_Some in Hr.
      rewrite length_reconcile in Hr. lia.
  - refine (proj1 (Forall_lookup _ _) _ i row' Hr).
    apply (Forall_reconcile cleanCell cleanCell_nil cleanCell_formatNumber).
    apply Forall_fmap, Forall_forall. intros l _. apply RowFacts.splitRow_clean.
Qed.

Lemma readback header roles quotes (ls : list string) :
  map splitRow (map serializeRow (reconcile header roles quotes (map splitRow ls)))
  = reconcile header roles quotes (map splitRow ls).
Proof.
  rewrite <- list_fmap_compose. apply list_eq. intros i. rewrite list_lookup_fmap.
  destruct (reconcile header roles quotes (map splitRow ls) !! i) as [row'|] eqn:Hr;
    [|reflexivity].
  destruct (reconciled_row _ _ _ _ _ _ Hr) as [Hne Hclean]. simpl. f_equal.
  now apply SerializeFacts.splitRow_serializeRow.
Qed.

End ReconcileFacts.

(* ===================================================================== *)
(** * Facts about the world, the symbols and the plain-text provider *)
(* ===================================================================== *)

Module WorldFacts.

Lemma sends_nil (w : World) : sends w w [].
Proof. unfold sends. destruct w. simpl. now rewrite app_nil_r. Qed.

Lemma sends_trans (w1 w2 w3 : World) (a b : list Request) :
  sends w1 w2 a -> sends w2 w3 b -> sends w1 w3 (a ++ b).
Proof. unfold sends. intros -> ->. simpl. now rewrite app_assoc. Qed.

Lemma sends_requests (w w' : World) (sent : list Request) :
  sends w w' sent ->
  requests w' = (requests w ++ sent)%list
  /\ notices w' = notices w /\ consoleErrors w' = consoleErrors w.
Proof. intros ->. auto. Qed.

End WorldFacts.

Module SymbolFacts.

Lemma cleanSymbols_cons (s : string) (symbols : list string) :
  cleanSymbols (s :: symbols)
  = if JsString.isBlank s then cleanSymbols symbols
    else normalizeSymbol s :: cleanSymbols symbols.
Proof.
  unfold cleanSymbols. rewrite fmap_cons, filter_cons.
  destruct (JsString.isBlank s) eqn:E.
  - apply CaseFacts.normalizeSymbol_nil in E. rewrite E. reflexivity.
  - destruct (normalizeSymbol s) eqn:N; [|reflexivity].
    apply CaseFacts.normalizeSymbol_nil in N. congruence.
Qed.

(** Nothing is left to fetch exactly when every symbol is blank. *)
Lemma cleanSymbols_nil (symbols : list string) :
  cleanSymbols symbols = [] <-> Forall (fun s => JsString.isBlank s = true) symbols.
Proof.
  induction symbols as [|s symbols IH]; [split; [constructor|reflexivity]|].
  rewrite cleanSymbols_cons. destruct (JsString.isBlank s) eqn:E.
  - rewrite IH. split; [now constructor|]. intros H. now inv H.
  - split; [discriminate|]. intros H. inv H. congruence.
Qed.

(** What is fetched is normalized already. *)
Lemma cleanSymbols_normalized (symbols : list string) :
  Forall (fun s => normalizeSymbol s = s /\ s <> EmptyString) (cleanSymbols symbols).
Proof.
  induction symbols as [|s symbols IH]; [constructor|].
  rewrite cleanSymbols_cons. destruct (JsString.isBlank s) eqn:E; [exact IH|].
  constructor; [|exact IH]. split; [apply CaseFacts.normalizeSymbol_idempotent|].
  intros N. apply CaseFacts.normalizeSymbol_nil in N. congruence.
Qed.

Lemma cleanSymbols_length (symbols : list string) :
  length (cleanSymbols symbols) <= length symbols.
Proof.
  induction symbols as [|s symbols IH]; [reflexivity|].
  rewrite cleanSymbols_cons. destruct (JsString.isBlank s); simpl; lia.
Qed.

End SymbolFacts.

Module StooqFacts.

Section WithHost.

Variable respond : list Request -> Request -> Thrown + Response.
Variable dateParse : string -> number.

(** What the plain-text adapter fills in, and what it never does. *)
Lemma stooqQuoteOf_fields (normalized body : string) (q : Quote) :
  stooqQuoteOf dateParse normalized body = Some q ->
  symbol q = normalized
  /\ shortName q = None /\ longName q = None /\ currency q = None
  /\ bid q = None /\ ask q = None /\ regularMarketPreviousClose q = None
  /\ fiftyTwoWeekLow q = None /\ fiftyTwoWeekHigh q = None /\ marketCap q = None.
Proof.
  unfold stooqQuoteOf. destruct (_ <? _)%nat; [discriminate|].
  destruct (_ || _); [discriminate|]. intros [= <-]. repeat split.
Qed.

Lemma stooqAttempt_fields (normalized candidate : string) (w w' : World) (q : Quote) :
  stooqAttempt respond dateParse normalized candidate w = (Some q, w') ->
  exists body, stooqQuoteOf dateParse normalized body = Some q.
Proof.
  unfold stooqAttempt, bind, requestUrl, ret.
  destruct (respond _ _) as [e|response]; [discriminate|].
  intros [= H _]. now exists (text response).
Qed.

Lemma tryCandidates_fields (normalized : string) (candidates : list string) :
  forall w q w',
    tryCandidates respond dateParse normalized candidates w = (Some q, w') ->
    exists body, stooqQuoteOf dateParse normalized body = Some q.
Proof.
  induction candidates as [|c rest IH]; intros w q w'; [discriminate|].
  cbn [tryCandidates]. unfold bind at 1.
  destruct (stooqAttempt respond dateParse normalized c w) as [[q0|] w0] eqn:E.
  - unfold ret. intros [= <- <-]. eapply stooqAttempt_fields, E.
  - apply IH.
Qed.

Lemma tryCandidates_sends (normalized : string) (candidates : list string) :
  forall w,
    exists n, n <= length candidates
      /\ (candidates <> [] -> 1 <= n)
      /\ sends w (snd (tryCandidates respond dateParse normalized candidates w))
           (map stooqRequest (take n candidates)).
Proof.
  induction candidates as [|c rest IH]; intros w.
  - exists 0. split; [reflexivity|]. split; [congruence|]. apply WorldFacts.sends_nil.
  - cbn [tryCandidates]. unfold bind at 1.
    pose proof (FetchFacts.stooqAttempt_requests respond dateParse normalized c w) as R.
    destruct (stooqAttempt respond dateParse normalized c w) as [[q0|] w0].
    + exists 1. simpl in *. split; [lia|]. split; [lia|].
      unfold sends. exact R.
    + simpl in R. destruct (IH w0) as (n & Hn & _ & Hs).
      exists (S n). simpl. split; [lia|]. split; [lia|].
      unfold sends in *. rewrite Hs, R. simpl. now rewrite <- app_assoc.
Qed.

Lemma fetchStooqQuote_sends (symbol : string) (w : World) :
  exists n, 1 <= n <= 2
    /\ sends w (snd (fetchStooqQuote respond dateParse symbol w))
         (map stooqRequest (take n (stooqCandidates (normalizeSymbol symbol)))).
Proof.
  unfold fetchStooqQuote.
  destruct (tryCandidates_sends (normalizeSymbol symbol)
              (stooqCandidates (normalizeSymbol symbol)) w) as (n & Hn & H1 & Hs).
  exists n. split; [|exact Hs]. simpl in Hn. split; [|exact Hn].
  apply H1. discriminate.
Qed.

(** The plain-text requests of a run: one or two for each symbol. *)
Lemma stooqLoop_sends (symbols : list string) :
  forall (m : gmap string Quote) (w : World),
    exists sent,
      sends w (snd (stooqLoop respond dateParse symbols m w)) sent
      /\ length symbols <= length sent <= 2 * length symbols
      /\ Forall (fun req => exists candidate, req = stooqRequest candidate) sent.
Proof.
  induction symbols as [|s rest IH]; intros m w.
  - exists []. split; [apply WorldFacts.sends_nil|]. split; [simpl; lia|constructor].
  - cbn [stooqLoop]. unfold bind at 1.
    destruct (fetchStooqQuote_sends s w) as (n & Hn & Hs).
    destruct (fetchStooqQuote respond dateParse s w) as [q w0]. simpl in Hs.
    assert (Hrest : forall m', exists sent,
               sends w (snd (stooqLoop respond dateParse rest m' w0)) sent
               /\ length (s :: rest) <= length sent <= 2 * length (s :: rest)
               /\ Forall (fun req => exists candidate, req = stooqRequest candidate) sent).
    { intros m'. destruct (IH m' w0) as (sent & Hsent & Hlen & Hall).
      exists (map stooqRequest (take n (stooqCandidates (normalizeSymbol s))) ++ sent)%list.
      split; [eapply WorldFacts.sends_trans; eassumption|]. split.
      - rewrite length_app, length_fmap, length_take. simpl. lia.
      - apply Forall_app. split; [|exact Hall].
        apply Forall_fmap, Forall_forall. intros c _. now exists c. }
    destruct q; apply Hrest.
Qed.

(** The map the plain-text provider fills: a quote sits under its own
    symbol, and that symbol is one of those asked for, normalized. *)
Lemma stooqLoop_keys (symbols : list string) :
  forall (m : gmap string Quote) (w : World) (k : string) (q : Quote),
    fst (stooqLoop respond dateParse symbols m w) !! k = Some q ->
    m !! k = Some q
    \/ (symbol q = k /\ exists s, In s symbols /\ k = normalizeSymbol s).
Proof.
  induction symbols as [|s rest IH]; intros m w k q; [now left|].
  cbn [stooqLoop]. unfold bind at 1.
  destruct (fetchStooqQuote respond dateParse s w) as [[q0|] w0] eqn:E.
  - intros H. apply IH in H as [H|(Hq & s' & Hin & ->)].
    + destruct (decide (normalizeSymbol s = k)) as [<-|Hne].
      * rewrite lookup_insert_eq in H. injection H as <-. right.
        unfold fetchStooqQuote in E. apply tryCandidates_fields in E as [body E].
        apply stooqQuoteOf_fields in E as [E _].
        split; [exact E|]. exists s. split; [now left|reflexivity].
      * rewrite lookup_insert_ne in H by exact Hne. now left.
    + right. split; [exact Hq|]. exists s'. split; [now right|reflexivity].
  - intros H. apply IH in H as [H|(Hq & s' & Hin & ->)]; [now left|].
    right. split; [exact Hq|]. exists s'. split; [now right|reflexivity].
Qed.

End WithHost.

End StooqFacts.

(* ===================================================================== *)
(** * Facts about the batch and the API-keyed providers *)
(* ===================================================================== *)

Module YahooFacts.

Lemma addYahooQuote_cases (m m' : gmap string Quote) (item : JSValue) :
  addYahooQuote m item = inr m' ->
  m' = m
  \/ exists s, s <> EmptyString
       /\ symbol (Json.toQuote item) = s
       /\ m' = <[JsString.toUpperCase s := Json.toQuote item]> m.
Proof.
  unfold addYahooQuote.
  destruct (Json.get item "symbol") as [| |b|x|s|items|fields] eqn:E; simpl;
    try (intros [= <-]; now left); try (destruct b; [discriminate|intros [= <-]; now left]);
    try (destruct (JsNumber.truthy x); [discriminate|intros [= <-]; now left]);
    try discriminate.
  destruct s as [|c s]; simpl; intros [= <-]; [now left|].
  right. exists (String c s). split; [discriminate|]. split; [|reflexivity].
  unfold Json.toQuote, Json.stringField. simpl. now rewrite E.
Qed.

(** A quote of the batch provider sits under the upper-case form of
    its own symbol, which is not empty. *)
Lemma addYahooQuotes_keys (items : list JSValue) :
  forall (m m' : gmap string Quote) (k : string) (q : Quote),
    addYahooQuotes m items = inr m' ->
    m' !! k = Some q ->
    m !! k = Some q
    \/ (symbol q <> EmptyString /\ k = JsString.toUpperCase (symbol q)
        /\ exists item, In item items /\ q = Json.toQuote item).
Proof.
  induction items as [|item rest IH]; intros m m' k q; simpl.
  - intros [= <-]. now left.
  - destruct (addYahooQuote m item) as [e|m0] eqn:E; [discriminate|].
    intros Hrest Hk. destruct (IH _ _ _ _ Hrest Hk) as [H|(Hs & Hkey & item' & Hin & Hq)].
    + apply addYahooQuote_cases in E as [->|(s & Hs & Hsym & ->)]; [now left|].
      destruct (decide (JsString.toUpperCase s = k)) as [<-|Hne].
      * rewrite lookup_insert_eq in H. injection H as <-. right.
        rewrite Hsym. split; [exact Hs|]. split; [reflexivity|].
        exists item. split; [now left|reflexivity].
      * rewrite lookup_insert_ne in H by exact Hne. now left.
    + right. split; [exact Hs|]. split; [exact Hkey|].
      exists item'. split; [now right|exact Hq].
Qed.

Lemma yahooQuotesOf_keys (response : Response) (m : gmap string Quote)
    (k : string) (q : Quote) :
  yahooQuotesOf response = inr m ->
  m !! k = Some q ->
  symbol q <> EmptyString /\ k = JsString.toUpperCase (symbol q).
Proof.
  unfold yahooQuotesOf. destruct (json response) as [e|data]; [discriminate|].
  destruct (negb _); [discriminate|].
  destruct (Json.get _ "result") as [| |b|x|s|items|fields]; try discriminate.
  - intros [= <-]. now rewrite lookup_empty.
  - intros Hm Hk. destruct (addYahooQuotes_keys _ _ _ _ _ Hm Hk) as [H|(H1 & H2 & _)].
    + now rewrite lookup_empty in H.
    + now split.
Qed.

(** An empty result array is an answer: the empty map. *)
Lemma yahooQuotesOf_empty (response : Response) (data : JSValue) :
  json response = inr data ->
  Json.get (Json.get data "quoteResponse") "result" = JArr [] ->
  yahooQuotesOf response = inr ∅.
Proof. intros Hj Hr. unfold yahooQuotesOf. now rewrite Hj, Hr. Qed.

Section WithHost.

Variable respond : list Request -> Request -> Thrown + Response.
Variable dateParse : string -> number.

Lemma yahooAttempt_keys (u : string) (w w' : World) (m : gmap string Quote)
    (k : string) (q : Quote) :
  yahooAttempt respond u w = (inr m, w') ->
  m !! k = Some q ->
  symbol q <> EmptyString /\ k = JsString.toUpperCase (symbol q).
Proof.
  unfold yahooAttempt, bind, requestUrl, ret.
  destruct (respond _ _) as [e|response]; [discriminate|].
  intros [= H _]. now apply (yahooQuotesOf_keys response m).
Qed.

Lemma yahooAttempt_sends (u : string) (w : World) :
  sends w (snd (yahooAttempt respond u w)) [yahooRequest u].
Proof. apply FetchFacts.yahooAttempt_requests. Qed.

(** What a run of [fetchQuotes] does to the world: requests only, the
    first batch request first, at most two batch requests and two
    plain-text requests for each symbol. *)
Lemma fetchQuotes_sends (symbols : list string) (w : World) :
  let cleaned := cleanSymbols symbols in
  let urls := yahooUrls (Uri.encodeURIComponent (JsString.join "," cleaned)) in
  exists sent,
    sends w (snd (fetchQuotes respond dateParse symbols w)) sent
    /\ length sent <= 2 + 2 * length cleaned
    /\ (cleaned = [] -> sent = [])
    /\ (cleaned <> [] ->
        exists rest, sent = yahooRequest (nth 0 urls EmptyString) :: rest)
    /\ Forall (fun req => (exists u, In u urls /\ req = yahooRequest u)
                          \/ exists candidate, req = stooqRequest candidate) sent.
Proof.
  intros cleaned urls.
  destruct (decide (cleaned = [])) as [Hnil|Hne].
  - exists []. unfold fetchQuotes. fold cleaned. rewrite Hnil. simpl.
    split; [apply WorldFacts.sends_nil|]. split; [lia|]. split; [trivial|].
    split; [congruence|constructor].
  - rewrite (FetchFacts.fetchQuotes_steps respond dateParse symbols w Hne).
    cbv zeta. fold cleaned. fold urls.
    set (u1 := nth 0 urls EmptyString). set (u2 := nth 1 urls EmptyString).
    assert (In1 : In u1 urls) by (left; reflexivity).
    assert (In2 : In u2 urls) by (right; left; reflexivity).
    pose proof (yahooAttempt_sends u1 w) as S1.
    destruct (yahooAttempt respond u1 w) as [[e1|m1] w1]; simpl in S1.
    + pose proof (yahooAttempt_sends u2 w1) as S2.
      destruct (yahooAttempt respond u2 w1) as [[e2|m2] w2]; simpl in S2.
      * unfold fetchQuotesFromStooq.
        destruct (StooqFacts.stooqLoop_sends respond dateParse cleaned ∅ w2)
          as (sent & S3 & Hlen & Hall).
        destruct (stooqLoop respond dateParse cleaned ∅ w2) as [stooq w3].
        simpl in S3.
        exists ([yahooRequest u1] ++ [yahooRequest u2] ++ sent)%list.
        split.
        { destruct (0 <? size stooq)%nat;
            exact (WorldFacts.sends_trans _ _ _ _ _ S1
                     (WorldFacts.sends_trans _ _ _ _ _ S2 S3)). }
        split; [cbn [app length]; lia|]. split; [congruence|].
        split; [intros _; now eexists|].
        constructor; [left; now exists u1|]. constructor; [left; now exists u2|].
        eapply Forall_impl; [exact Hall|]. intros req H. now right.
      * exists ([yahooRequest u1] ++ [yahooRequest u2])%list. split.
        { exact (WorldFacts.sends_trans _ _ _ _ _ S1 S2). }
        split; [cbn [app length]; lia|]. split; [congruence|].
        split; [intros _; now eexists|].
        constructor; [left; now exists u1|]. constructor; [left; now exists u2|].
        constructor.
    + exists [yahooRequest u1]. split; [exact S1|].
      split; [cbn [length]; lia|]. split; [congruence|]. split; [intros _; now eexists|].
      constructor; [left; now exists u1|]. constructor.
Qed.

(** Whichever provider answered, a quote sits under the upper-case
    form of its symbol. *)
Lemma fetchQuotes_keys (symbols : list string) (w w' : World)
    (m : gmap string Quote) (k : string) (q : Quote) :
  fetchQuotes respond dateParse symbols w = (inr m, w') ->
  m !! k = Some q ->
  k = JsString.toUpperCase (symbol q).
Proof.
  destruct (decide (cleanSymbols symbols = [])) as [Hnil|Hne].
  - unfold fetchQuotes. rewrite Hnil. unfold ret. intros [= <- _].
    now rewrite lookup_empty.
  - rewrite (FetchFacts.fetchQuotes_steps respond dateParse symbols w Hne). cbv zeta.
    destruct (yahooAttempt respond _ w) as [[e1|m1] w1] eqn:E1.
    + destruct (yahooAttempt respond _ w1) as [[e2|m2] w2] eqn:E2.
      * unfold fetchQuotesFromStooq.
        pose proof (StooqFacts.stooqLoop_keys respond dateParse (cleanSymbols symbols)
                      ∅ w2 k q) as K.
        destruct (stooqLoop respond dateParse (cleanSymbols symbols) ∅ w2)
          as [stooq w3].
        destruct (0 <? size stooq)%nat; [|discriminate].
        intros [= <- _] Hk. destruct (K Hk) as [H|(Hq & s & _ & ->)].
        { now rewrite lookup_empty in H. }
        rewrite Hq. unfold normalizeSymbol.
        now rewrite CaseFacts.toUpperCase_idempotent.
      * intros [= <- _] Hk. now apply (yahooAttempt_keys _ _ _ _ _ _ E2).
    + intros [= <- _] Hk. now apply (yahooAttempt_keys _ _ _ _ _ _ E1).
Qed.

End WithHost.

End YahooFacts.

Module FinnhubFacts.

Section WithHost.

Variable respond : list Request -> Request -> Thrown + Response.

Lemma fetchFinnhubQuote_sends (symbol apiKey : string) (w : World) :
  sends w (snd (fetchFinnhubQuote respond symbol apiKey w))
    [finnhubRequest symbol apiKey].
Proof.
  unfold fetchFinnhubQuote, bind, requestUrl, ret, sends, finnhubRequest.
  destruct (respond _ _) as [e|response]; [reflexivity|].
  destruct (negb _); [reflexivity|].
  destruct (json response) as [e|data]; [reflexivity|].
  destruct (_ || _); reflexivity.
Qed.

(** What the adapter returns for an answer, read off the response. *)
Lemma fetchFinnhubQuote_result (symbol apiKey : string) (w : World) :
  fst (fetchFinnhubQuote respond symbol apiKey w)
  = match respond (requests w) (finnhubRequest symbol apiKey) with
    | inl e => inl e
    | inr response =>
        if negb (status response =? 200)%Z then inr None
        else match json response with
             | inl e => inl e
             | inr data =>
                 if negb (Json.truthy data) || negb (isNumber (Json.get data "c"))
                 then inr None
                 else inr (Some
                   (mkQuote (normalizeSymbol symbol) None None None None None
                      (Json.numberField data "c") (Json.numberField data "pc")
                      (Json.numberField data "l") (Json.numberField data "h")
                      None None None None (Json.numberField data "t")))
             end
    end.
Proof.
  unfold fetchFinnhubQuote, bind, requestUrl, ret, finnhubRequest.
  destruct (respond _ _) as [e|response]; [reflexivity|]. cbn [fst].
  destruct (negb (status response =? 200)%Z); [reflexivity|].
  destruct (json response) as [e|data]; [reflexivity|].
  destruct (_ || _); reflexivity.
Qed.

(** A quote of the API-keyed adapter carries the normalized symbol
    and a price; it never carries a name, a currency, a bid, an ask,
    a yearly range, a market capitalisation or a volume. *)
Lemma fetchFinnhubQuote_fields (ticker apiKey : string) (w w' : World) (q : Quote) :
  fetchFinnhubQuote respond ticker apiKey w = (inr (Some q), w') ->
  symbol q = normalizeSymbol ticker
  /\ (exists price, regularMarketPrice q = Some price)
  /\ shortName q = None /\ longName q = None /\ currency q = None
  /\ bid q = None /\ ask q = None
  /\ fiftyTwoWeekLow q = None /\ fiftyTwoWeekHigh q = None
  /\ marketCap q = None /\ regularMarketVolume q = None.
Proof.
  intros H. pose proof (fetchFinnhubQuote_result ticker apiKey w) as R.
  rewrite H in R. cbn [fst] in R.
  destruct (respond _ _) as [e|response]; [discriminate|].
  destruct (negb (status response =? 200)%Z); [discriminate|].
  destruct (json response) as [e|data]; [discriminate|].
  destruct (_ || _) eqn:E; [discriminate|]. injection R as ->. cbn.
  apply orb_false_iff in E as [_ E]. apply negb_false_iff in E.
  unfold Json.numberField. destruct (Json.get data "c"); try discriminate.
  repeat split. now eexists.
Qed.

(** The loop over the symbols: when nothing is thrown, one request
    for each symbol, in order; a quote sits under the symbol it was
    asked for. *)
Lemma finnhubLoop_ok (symbols : list string) (apiKey : string) :
  forall (m m' : gmap string Quote) (w w' : World),
    finnhubLoop respond symbols apiKey m w = (inr m', w') ->
    sends w w' (map (fun s => finnhubRequest s apiKey) symbols)
    /\ forall k q,
         m' !! k = Some q ->
         m !! k = Some q
         \/ (In k symbols /\ symbol q = normalizeSymbol k
             /\ exists price, regularMarketPrice q = Some price).
Proof.
  induction symbols as [|s rest IH]; intros m m' w w'.
  - simpl. unfold ret. intros [= <- <-]. split; [apply WorldFacts.sends_nil|]. now left.
  - cbn [finnhubLoop]. unfold bind at 1.
    pose proof (fetchFinnhubQuote_sends s apiKey w) as S1.
    destruct (fetchFinnhubQuote respond s apiKey w) as [[e|[q0|]] w0] eqn:E;
      [discriminate| |]; simpl in S1; intros H; apply IH in H as [S2 K].
    + split; [exact (WorldFacts.sends_trans _ _ _ _ _ S1 S2)|].
      intros k q Hk. destruct (K k q Hk) as [H|(Hin & Hq)].
      * destruct (decide (s = k)) as [<-|Hne].
        -- rewrite lookup_insert_eq in H. injection H as <-. right.
           apply fetchFinnhubQuote_fields in E as (Hs & Hp & _).
           split; [now left|]. now split.
        -- rewrite lookup_insert_ne in H by exact Hne. now left.
      * right. split; [now right|exact Hq].
    + split; [exact (WorldFacts.sends_trans _ _ _ _ _ S1 S2)|].
      intros k q Hk. destruct (K k q Hk) as [H|(Hin & Hq)]; [now left|].
      right. split; [now right|exact Hq].
Qed.

(** The loop has no [try]: what the host throws for a symbol ends
    it, after the requests up to that symbol. *)
Lemma finnhubLoop_thrown (symbols : list string) (apiKey : string) :
  forall (m : gmap string Quote) (w w' : World) (e : Thrown),
    finnhubLoop respond symbols apiKey m w = (inl e, w') ->
    exists n s w0,
      symbols !! n = Some s
      /\ sends w w0 (map (fun s => finnhubRequest s apiKey) (take n symbols))
      /\ fetchFinnhubQuote respond s apiKey w0 = (inl e, w').
Proof.
  induction symbols as [|s rest IH]; intros m w w' e; [discriminate|].
  cbn [finnhubLoop]. unfold bind at 1.
  pose proof (fetchFinnhubQuote_sends s apiKey w) as S1.
  destruct (fetchFinnhubQuote respond s apiKey w) as [[e0|[q0|]] w0] eqn:E;
    simpl in S1.
  - unfold ret. intros [= <- <-]. exists 0, s, w.
    split; [reflexivity|]. split; [apply WorldFacts.sends_nil|exact E].
  - intros H. apply IH in H as (n & s' & w1 & Hn & S2 & H).
    exists (S n), s', w1. split; [exact Hn|]. split; [|exact H].
    exact (WorldFacts.sends_trans _ _ _ _ _ S1 S2).
  - intros H. apply IH in H as (n & s' & w1 & Hn & S2 & H).
    exists (S n), s', w1. split; [exact Hn|]. split; [|exact H].
    exact (WorldFacts.sends_trans _ _ _ _ _ S1 S2).
Qed.

Lemma fetchQuotesFinnhub_loop (symbols : list string) (apiKey : string) (w : World) :
  fetchQuotesFinnhub respond symbols apiKey w
  = finnhubLoop respond (cleanSymbols symbols) apiKey ∅ w.
Proof. unfold fetchQuotesFinnhub. now destruct (cleanSymbols symbols). Qed.

End WithHost.

End FinnhubFacts.

(* ===================================================================== *)
(** * Facts about the commands *)
(* ===================================================================== *)

Module CommandFacts.

Import JsString.

(** A cell read from a table line that is not empty is not blank, and
    normalizing it twice is normalizing it once: what the table
    command hands to [fetchQuotes] is clean already. *)
Lemma trimmed_not_blank (c : string) :
  trim c = c -> truthy c = true -> isBlank c = false.
Proof.
  intros Ht Hc. destruct (isBlank c) eqn:E; [|reflexivity].
  apply TrimFacts.trim_nil in E. rewrite Ht in E. subst. discriminate.
Qed.

Lemma cleanSymbols_trimmed (cells : list string) :
  Forall (fun c => trim c = c) cells ->
  cleanSymbols (map normalizeSymbol (filter (fun s => truthy s = true) cells))
  = map normalizeSymbol (filter (fun s => truthy s = true) cells).
Proof.
  induction cells as [|c cells IH]; intros H; [reflexivity|].
  inv H. rewrite filter_cons. destruct (decide (truthy c = true)) as [Hc|Hc];
    [|now apply IH].
  rewrite fmap_cons, SymbolFacts.cleanSymbols_cons.
  pose proof (trimmed_not_blank c H2 Hc) as Hb.
  destruct (isBlank (normalizeSymbol c)) eqn:E.
  - apply CaseFacts.normalizeSymbol_nil in E.
    rewrite CaseFacts.normalizeSymbol_idempotent in E.
    apply CaseFacts.normalizeSymbol_nil in E. congruence.
  - rewrite CaseFacts.normalizeSymbol_idempotent. f_equal. now apply IH.
Qed.

Lemma cellOr_trimmed (row : list string) (i : nat) :
  Forall cleanCell row -> trim (cellOr row i) = cellOr row i.
Proof.
  intros H. unfold cellOr. destruct (row !! i) as [c|] eqn:E; [|reflexivity].
  exact (proj1 (proj1 (Forall_lookup _ _) H i c E)).
Qed.

Lemma symbolsOf_clean (roles : Roles) (ls : list string) :
  cleanSymbols (symbolsOf roles (map splitRow ls)) = symbolsOf roles (map splitRow ls).
Proof.
  unfold symbolsOf. apply cleanSymbols_trimmed.
  apply Forall_fmap, Forall_fmap, Forall_forall. intros l _.
  apply cellOr_trimmed, RowFacts.splitRow_clean.
Qed.

Lemma dataRowsOf_split (lines : list string) (tableStart tableEnd : nat) :
  exists ls, dataRowsOf lines tableStart tableEnd = map splitRow ls.
Proof. unfold dataRowsOf. now eexists. Qed.

Section WithHost.

Variable respond : list Request -> Request -> Thrown + Response.
Variable dateParse : string -> number.

(** Fetching for a table always asks the network. *)
Lemma table_fetch_sends (roles : Roles) (lines : list string) (tableStart tableEnd : nat)
    (w : World) :
  symbolsOf roles (dataRowsOf lines tableStart tableEnd) <> [] ->
  exists req rest,
    sends w
      (snd (fetchQuotes respond dateParse
              (symbolsOf roles (dataRowsOf lines tableStart tableEnd)) w))
      (req :: rest).
Proof.
  intros Hne. destruct (dataRowsOf_split lines tableStart tableEnd) as [ls Hls].
  rewrite Hls in *.
  destruct (YahooFacts.fetchQuotes_sends respond dateParse
              (symbolsOf roles (map splitRow ls)) w) as (sent & Hs & _ & _ & Hhead & _).
  cbv zeta in Hhead. rewrite symbolsOf_clean in Hhead.
  destruct (Hhead Hne) as [rest ->]. eexists _, _. exact Hs.
Qed.

End WithHost.

End CommandFacts.

(* ===================================================================== *)
(** * Facts about comparison, URLs, the modals and rejected keys *)
(* ===================================================================== *)

Module CompareFacts.

Lemma SFcompare_antisym (x y : number) (c : comparison) :
  SFcompare x y = Some c -> SFcompare y x = Some (CompOpp c).
Proof.
  destruct x as [sx|sx| |sx mx ex], y as [sy|sy| |sy my ey]; simpl;
    try discriminate; try (intros [= <-]; try destruct sx; try destruct sy; reflexivity).
  intros [= <-]. f_equal.
  rewrite (Z.compare_antisym ex ey).
  pose proof (Pos.compare_cont_antisym mx my Eq) as A. cbn [CompOpp] in A.
  destruct sx, sy; try reflexivity; destruct (ex ?= ey)%Z; cbn [CompOpp];
    try reflexivity; rewrite <- A; now destruct (Pos.compare_cont Eq mx my).
Qed.

(** Two numbers neither of which is NaN compare: when the first is
    not below the second it is above it or equal to it. *)
Lemma ltb_false_geb (x y : number) :
  isNaN x = false -> isNaN y = false -> ltb x y = false -> geb x y = true.
Proof.
  intros Hx Hy. unfold ltb, geb, SFltb, SFleb.
  destruct (SFcompare x y) as [c|] eqn:E.
  - rewrite (SFcompare_antisym x y c E). now destruct c.
  - destruct x, y; simpl in *; discriminate.
Qed.

Lemma ltb_nan (y : number) : ltb S754_nan y = false.
Proof. reflexivity. Qed.

Lemma geb_nan (y : number) : geb S754_nan y = false.
Proof. unfold geb, SFleb. now destruct y. Qed.

End CompareFacts.

Module UriFacts.

Import JsString Shape.

Lemma encodeChar_safe (c : ascii) : allChars urlSafe (Uri.encodeChar c) = true.
Proof. destruct c as [[] [] [] [] [] [] [] []]; vm_compute; reflexivity. Qed.

Lemma encodeURIComponent_safe (s : string) :
  allChars urlSafe (Uri.encodeURIComponent s) = true.
Proof. apply CharFacts.allChars_concatMap, encodeChar_safe. Qed.

Lemma encodeURIComponent_unreserved (s : string) :
  allChars Uri.isUnreserved s = true -> Uri.encodeURIComponent s = s.
Proof.
  unfold Uri.encodeURIComponent. induction s as [|c s IH]; [reflexivity|].
  cbn [concatMap allChars]. intros H. apply andb_true_iff in H as [Hc Hs].
  rewrite (IH Hs). unfold Uri.encodeChar. rewrite Hc. reflexivity.
Qed.

Lemma encodeURIComponent_app (a b : string) :
  Uri.encodeURIComponent (a ++ b)
  = Uri.encodeURIComponent a ++ Uri.encodeURIComponent b.
Proof. apply CaseFacts.concatMap_app. Qed.

End UriFacts.

Module ModalFacts.

Import Modal.

Lemma fieldOfKey_options (key : string) :
  In key dropdownOptions ->
  exists f, fieldOfKey key = Some f /\ fieldName f = key.
Proof.
  unfold dropdownOptions, STOCK_FIELDS. simpl.
  intros H.
  repeat (destruct H as [<-|H]; [eexists; split; vm_compute; reflexivity|]).
  destruct H.
Qed.

Lemma fieldOfKey_fieldName (f : Field) :
  fieldOfKey (fieldName f) = Some f /\ In (fieldName f) dropdownOptions.
Proof. destruct f; split; vm_compute; auto 12. Qed.

Lemma singleValueRun_field (events : list Event) :
  forall (m : SingleValueModal) (t k : string),
    Forall fromDropdown events ->
    In (field m) dropdownOptions ->
    singleValueRun m events = Some (t, k) ->
    In k dropdownOptions.
Proof.
  induction events as [|ev rest IH]; intros m t k Hev Hm; [discriminate|].
  inv Hev. destruct ev as [value|value|]; cbn [singleValueRun].
  - apply IH; assumption.
  - apply IH; assumption.
  - now intros [= _ <-].
Qed.

Lemma last_cons (l : list string) :
  forall a d d', List.last (a :: l) d = List.last (a :: l) d'.
Proof.
  induction l as [|b l IH]; intros a d d'; [reflexivity|].
  change (List.last (b :: l) d = List.last (b :: l) d'). apply IH.
Qed.

Lemma insertLinkRun_typed (typed : list string) :
  forall (m : InsertLinkModal) (rest : list Event),
    insertLinkRun m (map TickerInput typed ++ ButtonClick :: rest)
    = Some (List.last typed (linkTicker m)).
Proof.
  induction typed as [|v typed IH]; intros m rest; [reflexivity|].
  cbn [map app insertLinkRun]. rewrite IH. cbn [linkTicker].
  destruct typed as [|a typed]; [reflexivity|].
  change (List.last (v :: a :: typed) (linkTicker m))
    with (List.last (a :: typed) (linkTicker m)).
  f_equal. apply last_cons.
Qed.

Lemma last_typed (l : list string) (v d : string) :
  List.last (v :: l) d = List.last l v.
Proof.
  destruct l as [|a l]; [reflexivity|].
  change (List.last (a :: l) d = List.last (a :: l) v). apply last_cons.
Qed.

(** What the single-value modal hands over at the click: the ticker
    typed last and the field picked last, or what it opened with. *)
Lemma singleValueRun_click (before : list Event) :
  forall (m : SingleValueModal) (rest : list Event),
    forallb (fun ev => negb (isClick ev)) before = true ->
    singleValueRun m (before ++ ButtonClick :: rest)
    = Some (List.last (typedTickers before) (ticker m),
            List.last (chosenFields before) (field m)).
Proof.
  induction before as [|ev before IH]; intros m rest Hb; [reflexivity|].
  cbn [forallb] in Hb. apply andb_true_iff in Hb as [Hev Hb].
  destruct ev as [value|value|]; [| |discriminate];
    cbn [app singleValueRun typedTickers chosenFields];
    rewrite (IH _ rest Hb); cbn [ticker field]; now rewrite last_typed.
Qed.

Lemma insertLinkRun_click (before : list Event) :
  forall (m : InsertLinkModal) (rest : list Event),
    forallb (fun ev => negb (isClick ev)) before = true ->
    insertLinkRun m (before ++ ButtonClick :: rest)
    = Some (List.last (typedTickers before) (linkTicker m)).
Proof.
  induction before as [|ev before IH]; intros m rest Hb; [reflexivity|].
  cbn [forallb] in Hb. apply andb_true_iff in Hb as [Hev Hb].
  destruct ev as [value|value|]; [| |discriminate];
    cbn [app insertLinkRun typedTickers];
    rewrite (IH _ rest Hb); cbn [linkTicker]; [now rewrite last_typed|reflexivity].
Qed.

(** Without a click nothing is handed over. *)
Lemma runs_stay_open (events : list Event) :
  forallb (fun ev => negb (isClick ev)) events = true ->
  forall m m', singleValueRun m events = None /\ insertLinkRun m' events = None.
Proof.
  induction events as [|ev events IH]; intros Hb m m'; [split; reflexivity|].
  cbn [forallb] in Hb. apply andb_true_iff in Hb as [Hev Hb].
  destruct ev as [value|value|]; [| |discriminate];
    cbn [singleValueRun insertLinkRun]; apply (IH Hb).
Qed.

(** A run that hands something over has a first click in it. *)
Lemma first_click (events : list Event) :
  forall m r,
    singleValueRun m events = Some r ->
    exists before rest,
      events = (before ++ ButtonClick :: rest)%list
      /\ forallb (fun ev => negb (isClick ev)) before = true.
Proof.
  induction events as [|ev events IH]; intros m r; [discriminate|].
  destruct ev as [value|value|]; cbn [singleValueRun].
  - intros H. destruct (IH _ _ H) as (before & rest & -> & Hb).
    exists (TickerInput value :: before), rest. split; [reflexivity|exact Hb].
  - intros H. destruct (IH _ _ H) as (before & rest & -> & Hb).
    exists (FieldChoice value :: before), rest. split; [reflexivity|exact Hb].
  - intros _. exists [], events. split; reflexivity.
Qed.

End ModalFacts.

Module KeyedFacts.

Section WithHost.

Variable respond : list Request -> Request -> Thrown + Response.

Lemma fetchFinnhubQuote_rejected (symbol apiKey : string) (w : World) :
  rejecting respond -> fst (fetchFinnhubQuote respond symbol apiKey w) = inr None.
Proof.
  intros Hr. rewrite FinnhubFacts.fetchFinnhubQuote_result.
  destruct (Hr (requests w) (finnhubRequest symbol apiKey)) as (response & -> & Hs).
  destruct (Z.eqb_spec (status response) 200); [contradiction|reflexivity].
Qed.

Lemma finnhubLoop_rejected (symbols : list string) (apiKey : string) :
  rejecting respond ->
  forall (m : gmap string Quote) (w : World),
    finnhubLoop respond symbols apiKey m w
    = (inr m, mkWorld (requests w ++ map (fun s => finnhubRequest s apiKey) symbols)
                (notices w) (consoleErrors w)).
Proof.
  intros Hr. induction symbols as [|s rest IH]; intros m w.
  - simpl. unfold ret. destruct w. simpl. now rewrite app_nil_r.
  - cbn [finnhubLoop]. unfold bind at 1.
    pose proof (fetchFinnhubQuote_rejected s apiKey w Hr) as F.
    pose proof (FinnhubFacts.fetchFinnhubQuote_sends respond s apiKey w) as S1.
    destruct (fetchFinnhubQuote respond s apiKey w) as [r w0]. simpl in F, S1.
    subst r. rewrite IH, S1. simpl. now rewrite <- app_assoc.
Qed.

End WithHost.

End KeyedFacts.

Module CountFacts.

Import JsString Shape.

Lemma count_app (c : ascii) (a b : string) : count c (a ++ b) = count c a + count c b.
Proof.
  induction a as [|d a IH]; simpl; [reflexivity|]. rewrite IH. lia.
Qed.

Lemma count_none (p : ascii -> bool) (c : ascii) (s : string) :
  p c = false -> allChars p s = true -> count c s = 0.
Proof.
  intros Hc. induction s as [|d s IH]; simpl; [trivial|].
  intros H. apply andb_true_iff in H as [Hd Hs]. rewrite (IH Hs).
  destruct (Ascii.eqb d c) eqn:E; [|reflexivity].
  apply Ascii.eqb_eq in E. congruence.
Qed.

Lemma count_encoded (c : ascii) (s : string) :
  urlSafe c = false -> count c (Uri.encodeURIComponent s) = 0.
Proof.
  intros Hc. apply (count_none urlSafe); [exact Hc|].
  apply UriFacts.encodeURIComponent_safe.
Qed.

End CountFacts.

(* ===================================================================== *)
(** * Facts about lines and records *)
(* ===================================================================== *)

Module LineFacts.

Import JsString.

Lemma split_join (sep : ascii) (l : list string) :
  l <> [] ->
  Forall (fun x => includes sep x = false) l ->
  split sep (join (single sep) l) = l.
Proof.
  induction l as [|x l IH]; [congruence|]. intros _ H. inv H.
  destruct l as [|y l].
  - simpl. now apply StringFacts.split_no_sep.
  - change (join (single sep) (x :: y :: l))
      with (x ++ String sep (join (single sep) (y :: l))).
    rewrite StringFacts.split_app_sep by assumption.
    f_equal. apply IH; [discriminate|assumption].
Qed.

Lemma includes_dropFirst (c : ascii) (s : string) :
  includes c s = false -> includes c (dropFirst s) = false.
Proof.
  destruct s as [|d s]; simpl; [trivial|]. intros H.
  now apply orb_false_iff in H.
Qed.

Lemma includes_dropLast (c : ascii) (s : string) :
  includes c s = false -> includes c (dropLast s) = false.
Proof.
  induction s as [|d s IH]; [trivial|].
  intros H. simpl in H. apply orb_false_iff in H as [Hd Hs].
  destruct s as [|e s]; [reflexivity|].
  change (dropLast (String d (String e s))) with (String d (dropLast (String e s))).
  simpl includes. rewrite Hd. now apply IH.
Qed.

Lemma split_excludes (c sep : ascii) (s : string) :
  includes c s = false -> Forall (fun x => includes c x = false) (split sep s).
Proof.
  induction s as [|d s IH]; simpl.
  - repeat constructor.
  - intros H. apply orb_false_iff in H as [Hd Hs]. specialize (IH Hs).
    destruct (Ascii.eqb d sep).
    + constructor; [reflexivity|exact IH].
    + destruct (split sep s) as [|x xs]; [repeat constructor; simpl; now rewrite Hd|].
      inv IH. constructor; [|assumption]. simpl. rewrite Hd. assumption.
Qed.

(** The cells of a line have no character the line has not. *)
Lemma splitRow_excludes (c : ascii) (line : string) :
  includes c line = false -> Forall (fun x => includes c x = false) (splitRow line).
Proof.
  intros H. unfold splitRow. apply Forall_fmap.
  eapply Forall_impl.
  - apply split_excludes.
    apply (TrimFacts.trim_clean c) in H.
    destruct (startsWith "|" (trim line));
      destruct (endsWith "|" _);
      try apply includes_dropLast; try apply includes_dropFirst; exact H.
  - intros x Hx. now apply TrimFacts.trim_clean.
Qed.

Lemma join_excludes (c : ascii) (sep : string) (l : list string) :
  includes c sep = false ->
  Forall (fun x => includes c x = false) l ->
  includes c (join sep l) = false.
Proof.
  intros Hsep. induction l as [|x l IH]; [reflexivity|]. intros H. inv H.
  destruct l as [|y l]; [assumption|].
  change (join sep (x :: y :: l)) with (x ++ sep ++ join sep (y :: l)).
  rewrite !StringFacts.includes_app.
  rewrite IH by assumption.
  repeat match goal with H : includes _ _ = false |- _ => rewrite H end.
  reflexivity.
Qed.

Lemma serializeRow_one_line (cells : list string) :
  Forall (fun x => includes newline x = false) cells ->
  includes newline (serializeRow cells) = false.
Proof.
  intros H. unfold serializeRow. rewrite !StringFacts.includes_app.
  now rewrite (join_excludes newline " | " cells eq_refl H).
Qed.

(** The text the engine writes, split into lines again. *)
Lemma updatedText_split (text : string) (tableStart tableEnd : nat)
    (header : list string) (roles : Roles) (quotes : gmap string Quote) :
  let lines := split newline text in
  locateTable lines = Some (tableStart, tableEnd, header) ->
  split newline
    (updatedText lines tableStart tableEnd header
       (reconcile header roles quotes (dataRowsOf lines tableStart tableEnd)))
  = (take tableStart lines
       ++ serializeRow header :: lineAt lines (tableStart + 1)
       :: map serializeRow
            (reconcile header roles quotes (dataRowsOf lines tableStart tableEnd))
       ++ drop (tableEnd + 1) lines)%list.
Proof.
  intros lines Hloc. unfold updatedText.
  pose proof (RowFacts.split_clean newline text) as Hlines. fold lines in Hlines.
  assert (Hline : forall j l, lines !! j = Some l -> includes newline l = false)
    by (intros j l Hl; exact (proj1 (Forall_lookup _ _) Hlines j l Hl)).
  pose proof (LocateFacts.locateFrom_sound _ _ _ _ _ Hloc)
    as (k & l0 & l1 & Hk & H0 & H1 & _ & _ & Hh & _). simpl in Hk. subst k.
  apply split_join.
  - destruct (take tableStart lines); discriminate.
  - apply Forall_app. split; [now apply Forall_take|].
    constructor.
    { apply serializeRow_one_line. rewrite Hh.
      apply splitRow_excludes. exact (Hline _ _ H0). }
    constructor.
    { unfold lineAt. replace (tableStart + 1) with (S tableStart) by lia.
      rewrite H1. exact (Hline _ _ H1). }
    apply Forall_app. split; [|now apply Forall_drop].
    apply Forall_fmap.
    eapply Forall_impl;
      [apply (ReconcileFacts.Forall_reconcile
                (fun x => includes newline x = false) eq_refl
                ReconcileFacts.formatNumber_one_line)|].
    + unfold dataRowsOf. apply Forall_fmap, Forall_forall. intros l Hl.
      apply splitRow_excludes.
      apply list_elem_of_lookup in Hl as [j Hj].
      apply lookup_take_Some in Hj as [Hj _]. rewrite lookup_drop in Hj.
      exact (Hline _ _ Hj).
    + intros row Hrow. now apply serializeRow_one_line.
Qed.

End LineFacts.

Module RecordFacts.

Section WithHost.

Variable dateParse : string -> number.

Lemma fillRecord_keys (header values : list string) :
  forall (index : nat) (record : gmap string string) (k v : string),
    fillRecord header values index record !! k = Some v ->
    record !! k = Some v \/ In k header.
Proof.
  induction header as [|key header IH]; intros index record k v; simpl; [now left|].
  intros H. apply IH in H as [H|H]; [|now right; right].
  destruct (decide (key = k)) as [->|Hne]; [right; now left|].
  rewrite lookup_insert_ne in H by exact Hne. now left.
Qed.

Lemma fieldTruthy_Some (v : option string) :
  fieldTruthy v = true -> exists s, v = Some s /\ s <> EmptyString.
Proof.
  destruct v as [[|c s]|]; try discriminate. intros _. eexists. split; [reflexivity|discriminate].
Qed.

(** No quote without a header line that names a "symbol" and a
    "close" column, spelled so. *)
Lemma stooqQuoteOf_header (normalized body : string) (q : Quote) :
  stooqQuoteOf dateParse normalized body = Some q ->
  let lines := splitLines (JsString.trim body) in
  2 <= length lines
  /\ In "symbol" (parseStooqCsvLine (lineAt lines 0))
  /\ In "close" (parseStooqCsvLine (lineAt lines 0)).
Proof.
  intros H lines. unfold stooqQuoteOf in H. fold lines in H.
  destruct (Nat.ltb_spec (length lines) 2) as [|Hlen]; [discriminate|].
  destruct (_ || _) eqn:E; [discriminate|].
  apply orb_false_iff in E as [Es Ec].
  apply negb_false_iff, fieldTruthy_Some in Es as (s & Es & _).
  apply negb_false_iff, fieldTruthy_Some in Ec as (c & Ec & _).
  apply fillRecord_keys in Es as [Es|Es]; [now rewrite lookup_empty in Es|].
  apply fillRecord_keys in Ec as [Ec|Ec]; [now rewrite lookup_empty in Ec|].
  auto.
Qed.

End WithHost.

End RecordFacts.

Module PatternFacts.

Import JsString Regex Shape Pattern.

(** What a pattern matches is made of the characters of its classes. *)
Lemma Matches_within (P : ascii -> bool) (r : re) (s : string) :
  Matches r s -> within P r -> allChars P s = true.
Proof.
  induction 1 as [|p c Hc|a b s t _ IHa _ IHb|a b s _ IH|a b s _ IH| |a s t _ IHa _ IHb];
    simpl; intros W.
  - reflexivity.
  - now rewrite (W c Hc).
  - destruct W as [Wa Wb]. now rewrite CharFacts.allChars_app, IHa, IHb.
  - now apply IH.
  - now apply IH.
  - reflexivity.
  - now rewrite CharFacts.allChars_app, IHa, IHb.
Qed.

Lemma separatorRe_within : within separatorChar separatorRe.
Proof.
  unfold separatorRe, separatorCell, Plus, Opt, ws, Chr; cbn [within AtLeast].
  repeat split; intros c H; unfold separatorChar;
    try (apply Ascii.eqb_eq in H; subst c; reflexivity);
    now rewrite H.
Qed.

Lemma separator_chars (s : string) :
  isTableSeparator s = true -> allChars separatorChar s = true.
Proof.
  intros H. apply RegexFacts.test_sound in H.
  exact (Matches_within _ _ _ H separatorRe_within).
Qed.

Lemma allChars_trimStart (P : ascii -> bool) (s : string) :
  allChars P s = true -> allChars P (trimStart s) = true.
Proof.
  induction s as [|c s IH]; simpl; [trivial|]. intros H.
  destruct (isWhiteSpace c); [|exact H].
  apply andb_true_iff in H as [_ Hs]. now apply IH.
Qed.

Lemma allChars_trimEnd (P : ascii -> bool) (s : string) :
  allChars P s = true -> allChars P (trimEnd s) = true.
Proof.
  induction s as [|c s IH]; [trivial|]. intros H.
  cbn [allChars] in H. apply andb_true_iff in H as [Hc Hs].
  specialize (IH Hs). cbn [trimEnd].
  destruct (trimEnd s) as [|d t].
  - destruct (isWhiteSpace c); simpl; [reflexivity|now rewrite Hc].
  - cbn [allChars] in *. now rewrite Hc, IH.
Qed.

Lemma allChars_trim (P : ascii -> bool) (s : string) :
  allChars P s = true -> allChars P (trim s) = true.
Proof. intros H. now apply allChars_trimEnd, allChars_trimStart. Qed.

Lemma allChars_join (P : ascii -> bool) (sep : string) (l : list string) :
  allChars P (join sep l) = true -> Forall (fun x => allChars P x = true) l.
Proof.
  induction l as [|x l IH]; [constructor|].
  destruct l as [|y l].
  - simpl. intros H. now repeat constructor.
  - cbn [join]. rewrite !CharFacts.allChars_app. intros H.
    apply andb_true_iff in H as [Hx H]. apply andb_true_iff in H as [_ H].
    constructor; [exact Hx|now apply IH].
Qed.

Lemma lowerChar_separatorChar (c : ascii) :
  separatorChar c = true -> lowerChar c = single c.
Proof. destruct c as [[] [] [] [] [] [] [] []]; vm_compute; congruence. Qed.

Lemma toLowerCase_separatorChars (s : string) :
  allChars separatorChar s = true -> toLowerCase s = s.
Proof.
  unfold toLowerCase. induction s as [|c s IH]; [reflexivity|].
  cbn [allChars concatMap]. intros H. apply andb_true_iff in H as [Hc Hs].
  now rewrite (lowerChar_separatorChar c Hc), IH.
Qed.

(** A header with a ticker column is not a separator line, however it
    is written out. *)
Lemma header_not_separator (header : list string) (roles : Roles) :
  resolveRoles header = Some roles ->
  isTableSeparator (serializeRow header) = false.
Proof.
  intros Hroles. destruct (isTableSeparator (serializeRow header)) eqn:Hsep; [|reflexivity].
  exfalso. apply separator_chars in Hsep. unfold serializeRow in Hsep.
  rewrite !CharFacts.allChars_app in Hsep.
  apply andb_true_iff in Hsep as [_ Hsep]. apply andb_true_iff in Hsep as [Hcells _].
  apply allChars_join in Hcells.
  unfold resolveRoles in Hroles.
  destruct (headerIndex header tickerNames) as [t|] eqn:Ht; [|discriminate].
  apply TableFacts.headerIndex_name in Ht as (h & Hh & Hname).
  pose proof (proj1 (Forall_lookup _ _) Hcells t h Hh) as Hchars.
  apply allChars_trim in Hchars.
  rewrite (toLowerCase_separatorChars _ Hchars) in Hname.
  unfold tickerNames in Hname. simpl in Hname.
  destruct Hname as [E|[E|[E|[E|[]]]]]; rewrite <- E in Hchars; discriminate.
Qed.

End PatternFacts.

Module BlockFacts.

Import JsString.

(** A text in which a table is found, cut at the table: the lines
    before it, the header line, the separator, the data lines, and
    the lines after it. *)
Lemma located_parts (lines : list string) (tableStart tableEnd : nat)
    (header : list string) :
  locateTable lines = Some (tableStart, tableEnd, header) ->
  exists before headerLine sep rowLines after,
    lines = (before ++ headerLine :: sep :: rowLines ++ after)%list
    /\ tableStart = length before
    /\ tableEnd = length before + 1 + length rowLines
    /\ header = splitRow headerLine
    /\ isTableRow headerLine = true
    /\ isTableSeparator sep = true
    /\ Forall (fun l => isTableRow l = true) rowLines
    /\ (forall l, head after = Some l -> isTableRow l = false).
Proof.
  intros Hloc.
  destruct (ScanFacts.locateTable_block lines tableStart tableEnd header Hloc)
    as (Hb & Hrows & Hstop & _).
  apply LocateFacts.locateFrom_sound in Hloc
    as (k & l0 & l1 & Hk & H0 & H1 & Hr0 & Hs1 & Hh & _ & _).
  simpl in Hk. subst k.
  set (n := tableEnd - (tableStart + 1)).
  exists (take tableStart lines), l0, l1,
    (take n (drop (tableStart + 2) lines)), (drop (tableEnd + 1) lines).
  assert (Hlen : length (take tableStart lines) = tableStart)
    by (rewrite length_take; lia).
  assert (Hn : length (take n (drop (tableStart + 2) lines)) = n)
    by (rewrite length_take, length_drop; lia).
  split.
  { rewrite <- (take_drop tableStart lines) at 1. f_equal.
    rewrite (drop_S _ _ _ H0), (drop_S _ _ _ H1). do 2 f_equal.
    replace (S (S tableStart)) with (tableStart + 2) by lia.
    rewrite <- (take_drop n (drop (tableStart + 2) lines)) at 1. f_equal.
    rewrite drop_drop. f_equal. lia. }
  split; [now rewrite Hlen|]. split; [rewrite Hlen, Hn; lia|].
  split; [exact Hh|]. split; [exact Hr0|]. split; [exact Hs1|]. split.
  - apply Forall_lookup. intros i l Hl.
    apply lookup_take_Some in Hl as [Hl Hi]. rewrite lookup_drop in Hl.
    destruct (Hrows (tableStart + 2 + i)) as (l' & Hl' & Hrow); [lia|].
    congruence.
  - intros l Hl. rewrite head_lookup, lookup_drop in Hl. apply Hstop.
    rewrite <- Hl. f_equal. lia.
Qed.

End BlockFacts.

(* ===================================================================== *)
(** * Facts about reading decimal literals *)
(* ===================================================================== *)

Module LiteralFacts.

Import JsString Shape Literal.

Local Open Scope Z_scope.

Lemma digitsOnto_app (a b : string) (acc : Z) :
  digitsOnto acc (a ++ b) = digitsOnto (digitsOnto acc a) b.
Proof.
  unfold digitsOnto. revert acc. induction a as [|c a IH]; intros acc; simpl; [reflexivity|].
  apply IH.
Qed.

(** A run of digits is read to its end. *)
Lemma readDigits_run (ds rest : string) :
  allChars isDigit ds = true ->
  match rest with String c _ => isDigit c = false | EmptyString => True end ->
  forall acc count,
    readDigits (ds ++ rest) acc count
    = (digitsOnto acc ds, (count + String.length ds)%nat, rest).
Proof.
  intros Hds Hrest. induction ds as [|c ds IH]; intros acc count.
  - simpl. rewrite Nat.add_0_r. destruct rest as [|c r]; [reflexivity|].
    simpl. now rewrite Hrest.
  - cbn [allChars] in Hds. apply andb_true_iff in Hds as [Hc Hds].
    simpl. rewrite Hc, (IH Hds). unfold digitsOnto. simpl.
    f_equal. f_equal. lia.
Qed.

Lemma digit_not_sign (c : ascii) :
  isDigit c = true ->
  Ascii.eqb c "-" = false /\ Ascii.eqb c "+" = false /\ Ascii.eqb c "." = false
  /\ Ascii.eqb c "e" = false /\ Ascii.eqb c "E" = false /\ Ascii.eqb c "I" = false
  /\ isWhiteSpace c = false.
Proof. destruct c as [[] [] [] [] [] [] [] []]; vm_compute; intuition discriminate. Qed.

Lemma endsLiteral_head (rest : string) :
  endsLiteral rest = true ->
  match rest with
  | String c _ =>
      isDigit c = false /\ Ascii.eqb c "." = false /\ Ascii.eqb c "e" = false
      /\ Ascii.eqb c "E" = false
  | EmptyString => True
  end.
Proof.
  destruct rest as [|c r]; [trivial|]. simpl. intros H.
  apply negb_true_iff in H. repeat (apply orb_false_iff in H as [H ?]). auto.
Qed.

Lemma signed_digits (s : option bool) (ds rest : string) :
  allChars isDigit ds = true -> JsString.truthy ds = true ->
  match signText s ++ ds ++ rest with
  | String d t =>
      if Ascii.eqb d "-" then (true, t)
      else if Ascii.eqb d "+" then (false, t)
      else (false, signText s ++ ds ++ rest)
  | EmptyString => (false, signText s ++ ds ++ rest)
  end = (isMinus s, ds ++ rest).
Proof.
  intros Hds Hne. destruct s as [[|]|]; [reflexivity|reflexivity|].
  destruct ds as [|d ds']; [discriminate|].
  cbn [allChars] in Hds. apply andb_true_iff in Hds as [Hd _].
  destruct (digit_not_sign d Hd) as (Hm & Hp & _).
  simpl. now rewrite Hm, Hp.
Qed.

(** The exponent part is read when it is there in full. *)
Lemma readExponent_text (e : option (bool * option bool * string)) (rest : string) :
  match e with
  | Some (_, _, ds) => allChars isDigit ds = true /\ JsString.truthy ds = true
  | None => True
  end ->
  endsLiteral rest = true ->
  readExponent (exponentText e ++ rest) = (exponentValue e, rest).
Proof.
  intros He Hrest. pose proof (endsLiteral_head rest Hrest) as Hh.
  destruct e as [[[capital s] ds]|].
  - destruct He as [Hds Hne].
    assert (Hd : match rest with String c _ => isDigit c = false | EmptyString => True end)
      by (destruct rest; tauto).
    pose proof (readDigits_run ds rest Hds Hd 0 0%nat) as Hrun.
    pose proof (signed_digits s ds rest Hds Hne) as Hsign.
    assert (Hlen : String.length ds <> 0%nat) by (destruct ds; [discriminate|discriminate]).
    assert (E : exponentText (Some (capital, s, ds)) ++ rest
                = String (if capital then "E" else "e")%char (signText s ++ ds ++ rest)).
    { unfold exponentText. destruct capital; simpl;
        now rewrite <- !StringFacts.append_assoc. }
    rewrite E. unfold exponentValue, digitsValue.
    destruct capital; cbn [readExponent Ascii.eqb Bool.eqb orb andb];
      rewrite Hsign, Hrun; destruct (String.length ds); try congruence;
      destruct (isMinus s); reflexivity.
  - simpl. destruct rest as [|c r]; [reflexivity|].
    destruct Hh as (_ & _ & He1 & He2). simpl. now rewrite He1, He2.
Qed.

Lemma hasPrefix_Infinity (c : ascii) (s : string) :
  Ascii.eqb c "I" = false -> hasPrefix "Infinity" (String c s) = false.
Proof. intros H. cbn [hasPrefix]. now rewrite (Ascii.eqb_sym "I" c), H. Qed.

(** The mantissa begins with a digit or with the point. *)
Lemma mantissa_head (ip : string) (f : option string) (rest : string) :
  allChars isDigit ip = true ->
  JsString.truthy (ip ++ default "" f) = true ->
  exists c r,
    ip ++ fracText f ++ rest = String c r
    /\ Ascii.eqb c "-" = false /\ Ascii.eqb c "+" = false
    /\ Ascii.eqb c "I" = false /\ isWhiteSpace c = false.
Proof.
  intros Hip Hne. destruct ip as [|d ip'].
  - destruct f as [fp|]; [|discriminate].
    exists "."%char, (fp ++ rest). repeat split; reflexivity.
  - cbn [allChars] in Hip. apply andb_true_iff in Hip as [Hd _].
    destruct (digit_not_sign d Hd) as (Hm & Hp & _ & _ & _ & HI & Hw).
    exists d, (ip' ++ fracText f ++ rest). repeat split; assumption.
Qed.

(** The sign, when the literal has one, is read off. *)
Lemma signed_mantissa (s : option bool) (body : string) :
  (exists c r, body = String c r /\ Ascii.eqb c "-" = false /\ Ascii.eqb c "+" = false) ->
  match signText s ++ body with
  | String c t =>
      if Ascii.eqb c "-" then (true, t)
      else if Ascii.eqb c "+" then (false, t)
      else (false, signText s ++ body)
  | EmptyString => (false, signText s ++ body)
  end = (isMinus s, body).
Proof.
  intros (c & r & -> & Hm & Hp). destruct s as [[|]|]; [reflexivity|reflexivity|].
  simpl. now rewrite Hm, Hp.
Qed.

Lemma mantissa_some {A : Type} (ni nf : nat) (x : A) :
  (nf <> 0 \/ ni <> 0)%nat ->
  match ni with
  | O => match nf with O => None | S _ => Some x end
  | S _ => Some x
  end = Some x.
Proof. destruct ni, nf; intros [H|H]; congruence. Qed.

Lemma integer_some {A : Type} (ni : nat) (x : A) :
  ni <> 0%nat -> match ni with O => None | S _ => Some x end = Some x.
Proof. destruct ni; congruence. Qed.

(** The parser reads a literal in full and returns the number it
    denotes, leaving what follows. *)
Lemma readDecimalLiteral_text (l : Literal.t) (rest : string) :
  wellFormed l = true -> endsLiteral rest = true ->
  readDecimalLiteral (text l ++ rest) = Some (value l, rest).
Proof.
  destruct l as [s ip f e]. unfold wellFormed, text, value. cbn [sign intDigits fracDigits exponent].
  intros Hwf Hrest.
  apply andb_true_iff in Hwf as [Hwf He]. apply andb_true_iff in Hwf as [Hwf Hne].
  apply andb_true_iff in Hwf as [Hip Hfp].
  assert (He' : match e with
                | Some (_, _, ds) => allChars isDigit ds = true /\ JsString.truthy ds = true
                | None => True
                end).
  { destruct e as [[[capital sg] ds]|]; [|exact I]. now apply andb_true_iff in He. }
  pose proof (readExponent_text e rest He' Hrest) as Hexp.
  pose proof (endsLiteral_head rest Hrest) as Hh.
  set (tail := exponentText e ++ rest) in *.
  assert (Htail : match tail with
                  | String c _ => isDigit c = false /\ Ascii.eqb c "." = false
                  | EmptyString => True
                  end).
  { unfold tail. destruct e as [[[capital sg] ds]|].
    - destruct capital; simpl; split; reflexivity.
    - simpl. destruct rest; [exact I|tauto]. }
  assert (Hbody : signText s ++ ip ++ fracText f ++ exponentText e ++ rest
                  = signText s ++ (ip ++ fracText f ++ tail)).
  { reflexivity. }
  rewrite !StringFacts.append_assoc. fold tail.
  destruct (mantissa_head ip f tail Hip Hne) as (c & r & Ebody & Hm & Hp & HI & _).
  unfold readDecimalLiteral.
  rewrite (signed_mantissa s (ip ++ fracText f ++ tail))
    by (exists c, r; auto).
  rewrite Ebody, (hasPrefix_Infinity c r HI), <- Ebody.
  destruct f as [fp|]; cbn [fracText default] in *.
  - change (("." ++ fp) ++ tail) with (String "." (fp ++ tail)) in *.
    assert (Hdot : match String "." (fp ++ tail) with
                   | String c _ => isDigit c = false
                   | EmptyString => True
                   end) by reflexivity.
    rewrite (readDigits_run ip (String "." (fp ++ tail)) Hip Hdot 0 0%nat).
    cbv iota. cbn [Ascii.eqb Bool.eqb andb].
    assert (Htd : match tail with String c _ => isDigit c = false | EmptyString => True end)
      by (destruct tail; tauto).
    rewrite (readDigits_run fp tail Hfp Htd (digitsOnto 0 ip) 0%nat).
    unfold digitsValue. rewrite digitsOnto_app.
    rewrite (mantissa_some (0 + String.length ip) (0 + String.length fp)).
    + rewrite Hexp. unfold id. cbn [Nat.add].
      now destruct (scale10 _ _ _).
    + destruct ip; [|right; discriminate]. destruct fp; [discriminate|left; discriminate].
  - rewrite StringFacts.append_nil_r in Hne.
    assert (Htd : match "" ++ tail with String c _ => isDigit c = false | EmptyString => True end)
      by (simpl; destruct tail; tauto).
    rewrite (readDigits_run ip ("" ++ tail) Hip Htd 0 0%nat).
    change ("" ++ tail) with tail.
    assert (Hlen : (0 + String.length ip)%nat <> 0%nat) by (destruct ip; discriminate).
    rewrite StringFacts.append_nil_r. unfold digitsValue.
    destruct tail as [|c' r'] eqn:Et.
    + rewrite (integer_some _ _ Hlen), Hexp. cbn [String.length Z.of_nat].
      now destruct (scale10 _ _ _).
    + destruct Htail as [_ Hnd]. rewrite Hnd.
      rewrite (integer_some _ _ Hlen), Hexp. cbn [String.length Z.of_nat].
      now destruct (scale10 _ _ _).
Qed.

Lemma parseFloat_text (l : Literal.t) (rest : string) :
  wellFormed l = true -> endsLiteral rest = true ->
  parseFloat (text l ++ rest) = value l.
Proof.
  intros Hwf Hrest. unfold parseFloat.
  assert (Htrim : trimStart (text l ++ rest) = text l ++ rest).
  { destruct l as [s ip f e]. unfold wellFormed, text in *.
    cbn [sign intDigits fracDigits exponent] in *.
    apply andb_true_iff in Hwf as [Hwf _]. apply andb_true_iff in Hwf as [Hwf Hne].
    apply andb_true_iff in Hwf as [Hip _].
    rewrite !StringFacts.append_assoc.
    destruct (mantissa_head ip f (exponentText e ++ rest) Hip Hne)
      as (c & r & Ebody & _ & _ & _ & Hw).
    destruct s as [[|]|]; [reflexivity|reflexivity|].
    simpl. rewrite Ebody. simpl. now rewrite Hw. }
  now rewrite Htrim, (readDecimalLiteral_text l rest Hwf Hrest).
Qed.

(** A text that begins with no sign, digit, point or capital I has
    no literal at its head. *)
Lemma parseFloat_no_literal (c : ascii) (s : string) :
  startsNoLiteral c = true -> parseFloat (String c s) = S754_nan.
Proof.
  unfold startsNoLiteral. intros H. apply negb_true_iff in H.
  repeat (apply orb_false_iff in H as [H ?]).
  unfold parseFloat. cbn [trimStart].
  match goal with Hw : isWhiteSpace c = false |- _ => rewrite Hw end.
  unfold readDecimalLiteral.
  repeat match goal with Hx : Ascii.eqb c _ = false |- _ => rewrite Hx; clear Hx end.
  rewrite hasPrefix_Infinity by assumption.
  cbn [readDigits]. rewrite H. 
  match goal with Hx : Ascii.eqb c _ = false |- _ => rewrite Hx end.
  reflexivity.
Qed.

Lemma text_nonempty (l : Literal.t) :
  wellFormed l = true -> exists c r, text l = String c r.
Proof.
  destruct l as [s ip f e]. unfold wellFormed, text.
  cbn [sign intDigits fracDigits exponent]. intros Hwf.
  apply andb_true_iff in Hwf as [Hwf _]. apply andb_true_iff in Hwf as [Hwf Hne].
  apply andb_true_iff in Hwf as [Hip _].
  destruct (mantissa_head ip f (exponentText e) Hip Hne) as (c & r & E & _).
  rewrite E. destruct s as [[|]|]; simpl; eauto.
Qed.

End LiteralFacts.

(* ===================================================================== *)
(** * C1: the single-row example *)
(* ===================================================================== *)

(** C1, as the specification words it: the value cell without a
    thousands separator and the allocation cell left empty. The engine
    does not produce that row. *)
Lemma single_row_not_as_specified :
  resolveRoles Examples.portfolioHeader = Some Examples.portfolioRoles
  /\ reconcile Examples.portfolioHeader Examples.portfolioRoles Examples.appleOnly
       [["AAPL"; "10"; ""; ""; ""]]
     <> [["AAPL"; "10"; "150.00"; "1500.00"; ""]].
Proof. split; [reflexivity | vm_compute; discriminate]. Qed.

(** C1, amended. For the header Ticker, Shares, Current Price, Value,
    Allocation, the row AAPL, 10 and a quote of 150 for AAPL the engine
    produces the row AAPL, 10, 150.00, 1,500.00, 100.00: the value has
    the thousands separator of the en-US format, and the allocation
    cell is filled because the total, 1500, is positive. Whenever the
    total of the row values is not strictly positive the second pass
    writes nothing, and a strictly positive total has a row of
    strictly positive value behind it. *)
Theorem single_row_reconciled :
  reconcile Examples.portfolioHeader Examples.portfolioRoles Examples.appleOnly
    [["AAPL"; "10"; ""; ""; ""]]
  = [["AAPL"; "10"; "150.00"; "1,500.00"; "100.00"]]
  /\ (forall header roles quotes dataRows,
        gtb (totalValue header roles quotes dataRows) zero = false ->
        reconcile header roles quotes dataRows
        = map fst (firstPass header roles quotes dataRows))
  /\ (forall header roles quotes dataRows,
        gtb (totalValue header roles quotes dataRows) zero = true ->
        exists i row v,
          dataRows !! i = Some row
          /\ snd (updateRow header roles quotes row) = Some v
          /\ gtb v zero = true).
Proof.
  split; [vm_compute; reflexivity|]. split.
  - intros header roles quotes dataRows H. unfold reconcile.
    fold (totalValue header roles quotes dataRows). rewrite H.
    now destruct (allocationIndex roles).
  - intros header roles quotes dataRows H. unfold totalValue, totalOf in H.
    apply TableFacts.totalOf_positive in H as [H|(i & x & Hi & Hx)]; [discriminate|].
    rewrite list_lookup_fmap, TableFacts.firstPass_lookup in Hi.
    destruct (dataRows !! i) as [row|] eqn:Hrow; [|discriminate].
    simpl in Hi. injection Hi as Hi. exists i, row, x. auto.
Qed.

(** The two general parts of [single_row_reconciled] at work: a table
    whose only row has no quote has total 0 and keeps its allocation
    cell, and the table of the claim has the positive row the total
    needs. *)
Lemma single_row_reconciled_witness :
  reconcile Examples.portfolioHeader Examples.portfolioRoles Examples.appleOnly
    [["MSFT"; "3"; ""; ""; "n/a"]]
  = map fst (firstPass Examples.portfolioHeader Examples.portfolioRoles
               Examples.appleOnly [["MSFT"; "3"; ""; ""; "n/a"]])
  /\ exists i row v,
       [["AAPL"; "10"; ""; ""; ""]] !! i = Some row
       /\ snd (updateRow Examples.portfolioHeader Examples.portfolioRoles
                 Examples.appleOnly row) = Some v
       /\ gtb v zero = true.
Proof.
  split.
  - apply (proj1 (proj2 single_row_reconciled)). vm_compute. reflexivity.
  - apply (proj2 (proj2 single_row_reconciled) Examples.portfolioHeader
             Examples.portfolioRoles Examples.appleOnly).
    vm_compute. reflexivity.
Defined.

(* ===================================================================== *)
(** * C2: rows without a quote *)
(* ===================================================================== *)

(** C2, as the specification words it: a row without a quote keeps all
    its cells. With an allocation column and a positive total the
    second pass rewrites the allocation cell of such a row as well. *)
Lemma unmatched_row_not_untouched :
  let rows := [["AAPL"; "10"; ""; ""; ""]; ["MSFT"; "3"; "x"; "y"; "z"]] in
  Examples.appleOnly !! normalizeSymbol "MSFT" = None
  /\ reconcile Examples.portfolioHeader Examples.portfolioRoles Examples.appleOnly rows
       !! 1 = Some ["MSFT"; "3"; "x"; "y"; "0.00"]
  /\ reconcile Examples.portfolioHeader Examples.portfolioRoles Examples.appleOnly rows
       !! 1 <> Some (pad (length Examples.portfolioHeader) ["MSFT"; "3"; "x"; "y"; "z"]).
Proof.
  repeat split; [vm_compute; reflexivity.. | vm_compute; discriminate].
Qed.

(** C2, amended. A data row whose normalized ticker has no quote comes
    out of reconciliation as the row padded to the header's width,
    except that its allocation cell reads 0.00 when the header has an
    allocation column and the total of the row values is strictly
    positive. Its price and value cells, and every cell outside the
    allocation column, keep their contents, whichever optional columns
    the header has and whatever the other rows hold. *)
Theorem unmatched_row_frame :
  forall header roles quotes dataRows i row,
    resolveRoles header = Some roles ->
    dataRows !! i = Some row ->
    quotes !! normalizeSymbol (cellOr (pad (length header) row) (tickerIndex roles))
      = None ->
    let padded := pad (length header) row in
    let total := totalValue header roles quotes dataRows in
    exists row',
      reconcile header roles quotes dataRows !! i = Some row'
      /\ row' = match allocationIndex roles with
                | Some a => if gtb total zero then <[a := "0.00"]> padded else padded
                | None => padded
                end
      /\ length row' = length padded
      /\ (forall p, priceIndex roles = Some p -> row' !! p = padded !! p)
      /\ (forall v, valueIndex roles = Some v -> row' !! v = padded !! v)
      /\ (forall j, allocationIndex roles <> Some j -> row' !! j = padded !! j).
Proof.
  intros header roles quotes dataRows i row Hroles Hrow Hq padded total.
  apply TableFacts.resolveRoles_Some in Hroles as (_ & _ & Hp & Hv & Ha).
  rewrite (TableFacts.reconcile_lookup _ _ _ _ _ _ Hrow).
  rewrite (TableFacts.updateRow_unmatched _ _ _ _ Hq). cbn zeta. simpl fst. simpl snd.
  fold padded. fold total.
  eexists. split; [reflexivity|].
  destruct (allocationIndex roles) as [a|] eqn:Hai;
    [destruct (gtb total zero) eqn:Ht|]; try (repeat split; auto; fail).
  unfold setCell. rewrite (TableFacts.allocationCell_unmatched _ Ht).
  split; [reflexivity|]. split; [apply length_insert|].
  repeat split.
  - intros p Hpi. apply list_lookup_insert_ne, not_eq_sym.
    rewrite Hpi in Hp.
    exact (TableFacts.headerIndex_disjoint _ _ _ _ _
             TableFacts.price_allocation_disjoint (eq_sym Hp) (eq_sym Ha)).
  - intros v Hvi. apply list_lookup_insert_ne, not_eq_sym.
    rewrite Hvi in Hv.
    exact (TableFacts.headerIndex_disjoint _ _ _ _ _
             TableFacts.value_allocation_disjoint (eq_sym Hv) (eq_sym Ha)).
  - intros j Hj. apply list_lookup_insert_ne. congruence.
Qed.

Lemma unmatched_row_frame_witness :
  exists row',
    reconcile Examples.portfolioHeader Examples.portfolioRoles Examples.appleOnly
      [["AAPL"; "10"; ""; ""; ""]; ["MSFT"; "3"; "x"; "y"]] !! 1 = Some row'
    /\ row' = ["MSFT"; "3"; "x"; "y"; "0.00"]
    /\ row' !! 2 = Some "x" /\ row' !! 3 = Some "y".
Proof.
  destruct (unmatched_row_frame Examples.portfolioHeader Examples.portfolioRoles
              Examples.appleOnly
              [["AAPL"; "10"; ""; ""; ""]; ["MSFT"; "3"; "x"; "y"]] 1
              ["MSFT"; "3"; "x"; "y"] eq_refl eq_refl eq_refl)
    as (row' & Hlook & Hrow & _ & Hp & Hv & _).
  exists row'. split; [exact Hlook|]. split; [exact Hrow|].
  split; [exact (Hp 2 eq_refl) | exact (Hv 3 eq_refl)].
Defined.

(* ===================================================================== *)
(** * C3: the allocation column *)
(* ===================================================================== *)

(** C3. When the header has an allocation column and the total of the
    row values is strictly positive, every row leaves reconciliation
    with [formatNumber(rowValue / total * 100)] in its allocation
    cell, the value of a row without one counting as 0. For a table of
    two rows worth 1500 and 500 the cells read 75.00 and 25.00. The
    share is printed as [Intl.NumberFormat] prints it, from the
    shortest decimal that identifies the number, ties away from zero:
    a row worth 201 out of 20000 has the share 1.005 and reads 1.01. *)
Theorem allocation_written_to_every_row :
  (forall header roles quotes dataRows a,
      resolveRoles header = Some roles ->
      allocationIndex roles = Some a ->
      gtb (totalValue header roles quotes dataRows) zero = true ->
      length (reconcile header roles quotes dataRows) = length dataRows
      /\ forall i row,
           dataRows !! i = Some row ->
           exists row',
             reconcile header roles quotes dataRows !! i = Some row'
             /\ row' !! a
                = Some (formatNumber
                          (mul (div (default zero (snd (updateRow header roles quotes row)))
                                  (totalValue header roles quotes dataRows))
                             (ofZ 100)) 2))
  /\ reconcile Examples.portfolioHeader Examples.portfolioRoles
       Examples.appleAndMicrosoft
       [["AAPL"; "10"; ""; ""; ""]; ["MSFT"; "5"; ""; ""; ""]]
     = [["AAPL"; "10"; "150.00"; "1,500.00"; "75.00"];
        ["MSFT"; "5"; "100.00"; "500.00"; "25.00"]]
  /\ reconcile Examples.portfolioHeader Examples.portfolioRoles
       (<["MSFT" := Examples.priced "MSFT" 19799]>
          {[ "AAPL" := Examples.priced "AAPL" 201 ]})
       [["AAPL"; "1"; ""; ""; ""]; ["MSFT"; "1"; ""; ""; ""]]
     = [["AAPL"; "1"; "201.00"; "201.00"; "1.01"];
        ["MSFT"; "1"; "19,799.00"; "19,799.00"; "99.00"]]
  /\ toString (mul (div (ofZ 201) (ofZ 20000)) (ofZ 100)) = "1.005".
Proof.
  split; [|vm_compute; repeat split; reflexivity].
  intros header roles quotes dataRows a Hroles Ha Ht.
  split; [apply TableFacts.length_reconcile|].
  intros i row Hrow.
  rewrite (TableFacts.reconcile_lookup _ _ _ _ _ _ Hrow). cbn zeta.
  rewrite Ha, Ht. eexists. split; [reflexivity|].
  unfold setCell, allocationCell. apply list_lookup_insert_eq.
  rewrite TableFacts.length_updateRow.
  apply TableFacts.resolveRoles_Some in Hroles as (_ & _ & _ & _ & Hai).
  rewrite Ha in Hai. symmetry in Hai. apply TableFacts.headerIndex_lt in Hai. lia.
Qed.

Lemma allocation_written_to_every_row_witness :
  exists row',
    reconcile Examples.portfolioHeader Examples.portfolioRoles
      Examples.appleAndMicrosoft
      [["AAPL"; "10"; ""; ""; ""]; ["MSFT"; "5"; ""; ""; ""]] !! 1 = Some row'
    /\ row' !! 4 = Some "25.00".
Proof.
  destruct (proj1 allocation_written_to_every_row Examples.portfolioHeader
              Examples.portfolioRoles Examples.appleAndMicrosoft
              [["AAPL"; "10"; ""; ""; ""]; ["MSFT"; "5"; ""; ""; ""]] 4
              eq_refl eq_refl eq_refl) as [_ H].
  exact (H 1 ["MSFT"; "5"; ""; ""; ""] eq_refl).
Defined.

(* ===================================================================== *)
(** * C4: locating and re-serializing the table *)
(* ===================================================================== *)

(** C4, as the specification words it: the text of a table written
    without spaces around its cells does not come back byte for byte,
    nor up to white space at the ends of lines, although no cell
    changed. *)
Lemma compact_table_not_reproduced :
  let text := "|Ticker|Shares|" ++ nl ++ "|---|---|" ++ nl ++ "|AAPL|10|" in
  let lines := JsString.split newline text in
  let header := ["Ticker"; "Shares"] in
  let roles := mkRoles 0 1 None None None in
  let out := updatedText lines 0 2 header
               (reconcile header roles ∅ (dataRowsOf lines 0 2)) in
  locateTable lines = Some (0, 2, header)
  /\ resolveRoles header = Some roles
  /\ reconcile header roles ∅ (dataRowsOf lines 0 2) = dataRowsOf lines 0 2
  /\ out = "| Ticker | Shares |" ++ nl ++ "|---|---|" ++ nl ++ "| AAPL | 10 |"
  /\ map JsString.trimEnd (JsString.split newline out)
     <> map JsString.trimEnd (JsString.split newline text).
Proof.
  repeat split; try (vm_compute; reflexivity). vm_compute. discriminate.
Qed.

(** C4, amended. For lines made of a header row, a separator and data
    rows, with no row-over-separator pair of lines earlier and with
    the line after the data rows, if any, not a table row, the scan
    returns exactly the first and the last line of the block. However
    the rows are rewritten, the new text is the lines before the block,
    the header row, the separator line as it was, the data rows, and
    the lines after the block, joined by line feeds. When every line of
    the block is in the form the engine writes, a bar, the trimmed
    cells with " | " between them and a bar, possibly followed by white
    space, with no data row shorter than the header, and no row has a
    quote, the new text is the old text without that white space: byte
    for byte the old text when there is none. *)
Theorem table_located_and_rewritten_in_place :
  forall (before after rowLines : list string) (headerLine sep : string),
    let lines := (before ++ headerLine :: sep :: rowLines ++ after)%list in
    let tableStart := length before in
    let tableEnd := length before + 1 + length rowLines in
    isTableRow headerLine = true ->
    isTableSeparator sep = true ->
    Forall (fun l => isTableRow l = true) rowLines ->
    (forall l, head after = Some l -> isTableRow l = false) ->
    (forall j a b, j < length before ->
                   lines !! j = Some a -> lines !! S j = Some b ->
                   isTableRow a && isTableSeparator b = false) ->
    locateTable lines = Some (tableStart, tableEnd, splitRow headerLine)
    /\ dataRowsOf lines tableStart tableEnd = map splitRow rowLines
    /\ (forall header updatedRows,
          updatedText lines tableStart tableEnd header updatedRows
          = JsString.join nl
              (before ++ serializeRow header :: sep
                 :: map serializeRow updatedRows ++ after))
    /\ (forall text roles quotes headerCells headerPad
               (rows : list (list string * string)),
          JsString.split newline text = lines ->
          headerLine = serializeRow headerCells ++ headerPad ->
          rowLines = map (fun r => serializeRow (fst r) ++ snd r) rows ->
          headerCells <> [] ->
          Forall cleanCell headerCells ->
          JsString.isBlank headerPad = true ->
          Forall (fun r => Forall cleanCell (fst r)
                           /\ length headerCells <= length (fst r)
                           /\ JsString.isBlank (snd r) = true) rows ->
          (forall r, In r rows ->
             quotes !! normalizeSymbol (cellOr (fst r) (tickerIndex roles)) = None) ->
          let out :=
            updatedText lines tableStart tableEnd (splitRow headerLine)
              (reconcile (splitRow headerLine) roles quotes
                 (dataRowsOf lines tableStart tableEnd)) in
          out = JsString.join nl
                  (before ++ serializeRow headerCells :: sep
                     :: map (fun r => serializeRow (fst r)) rows ++ after)
          /\ (headerPad = EmptyString ->
              Forall (fun r => snd r = EmptyString) rows ->
              out = text)).
Proof.
  intros before after rowLines headerLine sep lines tableStart tableEnd
    Hh Hs Hrows Hafter Hfirst.
  subst lines tableStart tableEnd.
  split; [|split; [|split]].
  - unfold locateTable.
    rewrite (LocateFacts.locateFrom_first before 0 headerLine sep _ Hh Hs Hfirst).
    now rewrite (LocateFacts.countRows_rows _ _ Hrows Hafter).
  - apply SerializeFacts.dataRowsOf_lines.
  - intros header updatedRows. apply SerializeFacts.updatedText_lines.
  - intros text roles quotes headerCells headerPad rows Htext Hhl Hrl Hne Hclean
      Hpad Hwide Hq out.
    rewrite Forall_forall in Hwide.
    assert (Hcells : forall r, In r rows ->
              Forall cleanCell (fst r) /\ length headerCells <= length (fst r)
              /\ JsString.isBlank (snd r) = true)
      by (intros r Hr; apply Hwide; now apply list_elem_of_In).
    assert (Hsplit : map splitRow rowLines = map fst rows).
    { rewrite Hrl, map_map. apply map_ext_in. intros r Hr.
      destruct (Hcells r Hr) as (Hr1 & Hr2 & Hr3).
      rewrite SerializeFacts.splitRow_trailing by exact Hr3.
      apply SerializeFacts.splitRow_serializeRow; [|exact Hr1].
      destruct (fst r); [|discriminate].
      destruct headerCells; [congruence|simpl in Hr2; lia]. }
    assert (Hheader : splitRow headerLine = headerCells).
    { rewrite Hhl, SerializeFacts.splitRow_trailing by exact Hpad.
      now apply SerializeFacts.splitRow_serializeRow. }
    assert (Hout : out = JsString.join nl
                     (before ++ serializeRow headerCells :: sep
                        :: map (fun r => serializeRow (fst r)) rows ++ after)).
    { unfold out. rewrite SerializeFacts.dataRowsOf_lines, Hsplit, Hheader.
      rewrite SerializeFacts.reconcile_unmatched.
      - rewrite SerializeFacts.updatedText_lines, !map_map. do 5 f_equal.
        apply map_ext_in. intros r Hr. destruct (Hcells r Hr) as (_ & Hr2 & _).
        now rewrite TableFacts.pad_wide.
      - intros c Hc. apply in_map_iff in Hc as (r & <- & Hr).
        destruct (Hcells r Hr) as (_ & Hr2 & _).
        rewrite TableFacts.pad_wide by exact Hr2. now apply Hq. }
    split; [exact Hout|].
    intros Hnopad Hnopads. rewrite Hout, <- (StringFacts.join_split newline text), Htext.
    rewrite Hhl, Hrl, Hnopad, StringFacts.append_nil_r. do 5 f_equal.
    apply map_ext_in. intros r Hr. rewrite Forall_forall in Hnopads.
    rewrite (Hnopads r) by (now apply list_elem_of_In).
    now rewrite StringFacts.append_nil_r.
Qed.

Lemma table_located_and_rewritten_in_place_witness :
  let text :=
    "intro" ++ nl ++ "| Ticker | Shares |" ++ nl ++ "|---|---|" ++ nl
      ++ "| AAPL | 10 |" ++ nl ++ nl ++ "tail" in
  let lines := JsString.split newline text in
  let header := ["Ticker"; "Shares"] in
  locateTable lines = Some (1, 3, header)
  /\ updatedText lines 1 3 header
       (reconcile header (mkRoles 0 1 None None None) ∅ (dataRowsOf lines 1 3))
     = text.
Proof.
  intros text lines header.
  assert (Hrows : Forall (fun l => isTableRow l = true) ["| AAPL | 10 |"])
    by (repeat constructor).
  assert (Hafter : forall l, head [""; "tail"] = Some l -> isTableRow l = false)
    by (intros l [= <-]; reflexivity).
  assert (Hfirst :
    forall j a b, j < length ["intro"] ->
      (["intro"] ++ "| Ticker | Shares |" :: "|---|---|"
         :: ["| AAPL | 10 |"] ++ [""; "tail"])%list !! j = Some a ->
      (["intro"] ++ "| Ticker | Shares |" :: "|---|---|"
         :: ["| AAPL | 10 |"] ++ [""; "tail"])%list !! S j = Some b ->
      isTableRow a && isTableSeparator b = false).
  { intros [|j] a b Hj; [|simpl in Hj; lia].
    intros [= <-] [= <-]. reflexivity. }
  destruct (table_located_and_rewritten_in_place ["intro"] [""; "tail"]
              ["| AAPL | 10 |"] "| Ticker | Shares |" "|---|---|"
              eq_refl eq_refl Hrows Hafter Hfirst) as (Hloc & _ & _ & Hsame).
  split; [exact Hloc|].
  refine (proj2 (Hsame text (mkRoles 0 1 None None None) ∅ ["Ticker"; "Shares"]
                   EmptyString [(["AAPL"; "10"], EmptyString)]
                   eq_refl eq_refl eq_refl _ _ eq_refl _ _) eq_refl _).
  - discriminate.
  - repeat constructor.
  - repeat constructor.
  - intros r Hr. reflexivity.
  - repeat constructor.
Defined.

(* ===================================================================== *)
(** * C5: where a table begins *)
(* ===================================================================== *)

(** C5, as the specification words it: a line of cells of two dashes
    is not taken for a separator. *)
Lemma two_dash_cells_not_a_separator : isTableSeparator "|--|--|" = false.
Proof. vm_compute. reflexivity. Qed.

(** C5, amended. The table begins at the first line that is a table
    row, a line with a bar in it that is not blank, and is followed by
    a line matching the separator pattern; without such a pair of
    lines no table is found. The pattern asks for runs of three or more
    dashes, each optionally between colons, at least two of them, with
    bars between them and optionally around them. So every line of two
    or more cells of three or more dashes is a separator, a line whose
    first cell has exactly two dashes is not, whatever follows, and
    neither is a line of one cell. *)
Theorem table_begins_at_first_row_over_separator :
  (forall lines tableStart tableEnd header,
      locateTable lines = Some (tableStart, tableEnd, header) ->
      exists l0 l1,
        lines !! tableStart = Some l0 /\ lines !! S tableStart = Some l1
        /\ isTableRow l0 = true /\ isTableSeparator l1 = true
        /\ header = splitRow l0
        /\ forall j a b, j < tableStart ->
             lines !! j = Some a -> lines !! S j = Some b ->
             isTableRow a && isTableSeparator b = false)
  /\ (forall lines,
        locateTable lines = None ->
        forall j a b, lines !! j = Some a -> lines !! S j = Some b ->
                      isTableRow a && isTableSeparator b = false)
  /\ (forall l, isTableRow l = JsString.includes "|" l && negb (JsString.isBlank l))
  /\ (forall s, isTableSeparator s = true <-> Regex.Matches separatorRe s)
  /\ (forall n1 n2 extra,
        isTableSeparator
          ("|" ++ Examples.dashes (3 + n1) ++ "|" ++ Examples.dashes (3 + n2)
             ++ Examples.dashCells extra ++ "|") = true)
  /\ (forall s, isTableSeparator ("|--|" ++ s) = false)
  /\ (forall s, isTableSeparator ("--|" ++ s) = false)
  /\ isTableSeparator "|---|---|" = true
  /\ isTableSeparator " :---: | ---: " = true
  /\ isTableSeparator "|---|" = false.
Proof.
  split; [|split; [|split; [|split; [|split; [|split; [|split; [|split; [|split]]]]]]]].
  - intros lines ts te h H. unfold locateTable in H.
    apply LocateFacts.locateFrom_sound in H
      as (k & l0 & l1 & -> & H0 & H1 & Hr & Hs & Hh & _ & Hmin).
    exists l0, l1. simpl. auto 10.
  - intros lines H. exact (LocateFacts.locateFrom_None lines 0 H).
  - reflexivity.
  - intros s. split; [apply RegexFacts.test_sound|apply RegexFacts.test_complete].
  - intros n1 n2 extra. apply RegexFacts.test_complete, LocateFacts.Matches_dash_line.
  - intros s. unfold isTableSeparator. rewrite RegexFacts.test_app.
    apply RegexFacts.test_isVoid. vm_compute. reflexivity.
  - intros s. unfold isTableSeparator. rewrite RegexFacts.test_app.
    apply RegexFacts.test_isVoid. vm_compute. reflexivity.
  - vm_compute. reflexivity.
  - vm_compute. reflexivity.
  - vm_compute. reflexivity.
Qed.

Lemma table_begins_at_first_row_over_separator_witness :
  exists l0 l1,
    ["text"; "a | b"; "---|---"; "1 | 2"] !! 1 = Some l0
    /\ ["text"; "a | b"; "---|---"; "1 | 2"] !! 2 = Some l1
    /\ isTableRow l0 = true /\ isTableSeparator l1 = true
    /\ ["a"; "b"] = splitRow l0
    /\ forall j a b, j < 1 ->
         ["text"; "a | b"; "---|---"; "1 | 2"] !! j = Some a ->
         ["text"; "a | b"; "---|---"; "1 | 2"] !! S j = Some b ->
         isTableRow a && isTableSeparator b = false.
Proof.
  exact (proj1 table_begins_at_first_row_over_separator
           ["text"; "a | b"; "---|---"; "1 | 2"] 1 3 ["a"; "b"] eq_refl).
Defined.

(* ===================================================================== *)
(** * C6: a table without a required column *)
(* ===================================================================== *)

(** C6. When the header of the located table resolves no ticker column
    or no shares column, the command shows the notice that the table
    must include both, sends no request, and leaves the editor exactly
    as it was. *)
Theorem missing_required_column_leaves_document :
  forall respond dateParse (ed : Editor) (w : World) tableStart tableEnd header,
    let targetText :=
      if JsString.truthy (EditorOps.getSelection ed)
      then EditorOps.getSelection ed else EditorOps.getValue ed in
    locateTable (JsString.split newline targetText)
      = Some (tableStart, tableEnd, header) ->
    headerIndex header tickerNames = None \/ headerIndex header sharesNames = None ->
    updatePortfolioTable respond dateParse (Some ed) w
    = (Some ed,
       mkWorld (requests w) (notices w ++ [(requiredColumnsMessage, 7000%Z)])
         (consoleErrors w)).
Proof.
  intros respond dateParse ed w ts te header targetText Hloc Hmissing.
  apply TableFacts.resolveRoles_None in Hmissing.
  unfold updatePortfolioTable. fold targetText. rewrite Hloc, Hmissing.
  reflexivity.
Qed.

Lemma missing_required_column_leaves_document_witness :
  let ed :=
    mkEditor ("Holdings" ++ nl) EmptyString
      ("| Ticker | Price |" ++ nl ++ "|---|---|" ++ nl ++ "| AAPL | 1 |") in
  updatePortfolioTable (fun _ _ => inl (ErrorObject "offline")) (fun _ => S754_nan)
    (Some ed) emptyWorld
  = (Some ed, mkWorld [] [(requiredColumnsMessage, 7000%Z)] []).
Proof.
  exact (missing_required_column_leaves_document
           (fun _ _ => inl (ErrorObject "offline")) (fun _ => S754_nan)
           (mkEditor ("Holdings" ++ nl) EmptyString
              ("| Ticker | Price |" ++ nl ++ "|---|---|" ++ nl ++ "| AAPL | 1 |"))
           emptyWorld 1 3 ["Ticker"; "Price"] eq_refl (or_intror eq_refl)).
Defined.

(* ===================================================================== *)
(** * C7: provider fallback *)
(* ===================================================================== *)




(* ===================================================================== *)
(** * C8: what a quote holds *)
(* ===================================================================== *)




(* ===================================================================== *)
(** * C9: parseNumber *)
(* ===================================================================== *)




(* ===================================================================== *)
(** * C10: zero-valued fields in rendering *)
(* ===================================================================== *)

(** C10, as the specification words it: in the callout a field equal
    to 0 is rendered as if it were absent, and the single-value command
    prints "0" for a field equal to 0. An ask of 0 hides a price that
    an absent ask would have let through from the bid, and a market
    capitalisation of 0 prints as "0M". *)
Lemma zero_not_always_rendered_as_absent :
  let quote :=
    mkQuote "AAPL" None None None (Some (ofZ 5)) None None None None None None
      None None None None in
  callout (fun _ => EmptyString) "AAPL" (withAsk (Some zero) quote) = "> [!info]- AAPL "
  /\ callout (fun _ => EmptyString) "AAPL" (withAsk None quote)
     = "> [!info]- AAPL (Price: 5)"
  /\ callout (fun _ => EmptyString) "AAPL" (withAsk (Some zero) quote)
     <> callout (fun _ => EmptyString) "AAPL" (withAsk None quote)
  /\ singleValue (withMarketCap (Some zero) quote) F_marketCap = Some "0M"
  /\ singleValue (withMarketCap (Some zero) quote) F_marketCap <> Some "0".
Proof.
  repeat split; try (vm_compute; reflexivity); vm_compute; discriminate.
Qed.

(** C10, amended. For a number [z] equal to 0: a quote whose bid or
    ask is [z] gets no bid/ask/spread subtitle; a previous close of [z]
    gives neither the previous-close subtitle nor the previous-close
    line; a volume of [z] gives no volume line and a time of [z] no
    timestamp line. A bid, previous close, volume, time or market
    capitalisation of [z] leaves the callout exactly as the absent
    field would. (An ask of 0 does not: it still ends the search for a
    price.) The single-value command does not treat [z] as absent: it
    prints "0" for it, except that it prints "0M" for the market
    capitalisation and "-0" for a volume of negative zero. *)
Theorem zero_fields_in_rendering :
  forall (z : number),
    eqb z zero = true ->
    (forall quote,
        bid quote = Some z \/ ask quote = Some z ->
        subtitle quote
        = if numTruthy (regularMarketPreviousClose quote)
          then "(Previous close: " ++ shown (regularMarketPreviousClose quote) ++ ")"
          else if numTruthy (priceOf quote)
               then "(Price: " ++ shown (priceOf quote) ++ ")"
               else EmptyString)
    /\ (forall quote,
          regularMarketPreviousClose quote = Some z ->
          previousCloseLine quote = EmptyString
          /\ subtitle quote
             = if numTruthy (bid quote) && numTruthy (ask quote)
               then "(Bid: " ++ shown (bid quote) ++ ", Ask: " ++ shown (ask quote)
                      ++ ", Spread: "
                      ++ toFixed (mul (div (sub (get (ask quote)) (get (bid quote)))
                                         (get (ask quote))) (ofZ 100)) 3
                      ++ "%)"
               else if numTruthy (priceOf quote)
                    then "(Price: " ++ shown (priceOf quote) ++ ")"
                    else EmptyString)
    /\ (forall quote, regularMarketVolume quote = Some z -> volumeLine quote = EmptyString)
    /\ (forall dateString quote,
          regularMarketTime quote = Some z ->
          timestampLine dateString quote = EmptyString)
    /\ (forall dateString ticker quote,
          callout dateString ticker (withBid (Some z) quote)
          = callout dateString ticker (withBid None quote)
          /\ callout dateString ticker (withPreviousClose (Some z) quote)
             = callout dateString ticker (withPreviousClose None quote)
          /\ callout dateString ticker (withVolume (Some z) quote)
             = callout dateString ticker (withVolume None quote)
          /\ callout dateString ticker (withTime (Some z) quote)
             = callout dateString ticker (withTime None quote)
          /\ callout dateString ticker (withMarketCap (Some z) quote)
             = callout dateString ticker (withMarketCap None quote))
    /\ (forall quote f,
          stockData quote f = Some (inl z) ->
          singleValue quote f
          = Some match f with
                 | F_marketCap => "0M"
                 | F_volume => if signBit z then "-0" else "0"
                 | _ => "0"
                 end).
Proof.
  intros z Hz. pose proof (RenderFacts.zero_falsy z Hz) as Hf.
  split; [|split; [|split; [|split; [|split]]]].
  - intros quote [H|H]; unfold subtitle; rewrite H, Hf; simpl;
      rewrite ?andb_false_r; reflexivity.
  - intros quote H. unfold previousCloseLine, subtitle. rewrite H, Hf.
    split; reflexivity.
  - intros quote H. unfold volumeLine. now rewrite H, Hf.
  - intros dateString quote H. unfold timestampLine. now rewrite H, Hf.
  - intros dateString ticker quote.
    apply RenderFacts.zero_shape in Hz as [s ->].
    destruct quote as [sy sn ln cu b a p pc lo hi l52 h52 mc vo ti].
    unfold callout, subtitle, nameLine, currencyLine, volumeLine, marketCapLine,
      previousCloseLine, dayRangeLine, fiftyTwoWeekLine, timestampLine, priceOf,
      withBid, withPreviousClose, withVolume, withTime, withMarketCap.
    cbn [bid ask regularMarketPrice regularMarketPreviousClose regularMarketDayLow
         regularMarketDayHigh fiftyTwoWeekLow fiftyTwoWeekHigh marketCap
         regularMarketVolume regularMarketTime currency longName shortName symbol].
    split; [|split; [|split; [|split]]].
    + destruct p as [p|], a as [a|], pc as [pc|];
        cbn [orElse numTruthy JsNumber.truthy andb]; try reflexivity.
      destruct (JsNumber.truthy pc); reflexivity.
    + destruct p as [p|], a as [a|], b as [b|];
        cbn [orElse numTruthy JsNumber.truthy andb]; reflexivity.
    + reflexivity.
    + reflexivity.
    + cbn [numTruthy JsNumber.truthy]. rewrite andb_false_r. reflexivity.
  - intros quote f H. apply RenderFacts.zero_shape in Hz as [s ->].
    unfold singleValue. rewrite H. destruct f, s; reflexivity.
Qed.

Lemma zero_fields_in_rendering_witness :
  subtitle (withBid (Some zero) (Examples.priced "AAPL" 7)) = "(Price: 7)"
  /\ singleValue (withBid (Some zero) (Examples.priced "AAPL" 7)) F_bid = Some "0".
Proof.
  destruct (zero_fields_in_rendering zero eq_refl) as (Hsub & _ & _ & _ & _ & Hval).
  split.
  - exact (Hsub (withBid (Some zero) (Examples.priced "AAPL" 7)) (or_introl eq_refl)).
  - exact (Hval (withBid (Some zero) (Examples.priced "AAPL" 7)) F_bid eq_refl).
Defined.

(* ===================================================================== *)
(** * Further properties: symbols and numbers *)
(* ===================================================================== *)

(** X1. Normalizing a symbol twice is normalizing it once; a
    normalized symbol has no white space at its ends; and it is empty
    exactly when the symbol typed was blank. *)
Theorem normalizeSymbol_is_idempotent :
  forall s : string,
    normalizeSymbol (normalizeSymbol s) = normalizeSymbol s
    /\ JsString.trim (normalizeSymbol s) = normalizeSymbol s
    /\ (normalizeSymbol s = EmptyString <-> JsString.isBlank s = true).
Proof.
  intros s. split; [|split].
  - apply CaseFacts.normalizeSymbol_idempotent.
  - apply CaseFacts.normalizeSymbol_trimmed.
  - apply CaseFacts.normalizeSymbol_nil.
Qed.

(** X2. A list of symbols that are all blank leaves nothing to fetch:
    both variants of [fetchQuotes] return the empty map and send no
    request; and blank symbols are the only ones dropped. *)
Theorem nothing_to_fetch_sends_nothing :
  forall respond dateParse (symbols : list string) (apiKey : string) (w : World),
    Forall (fun s => JsString.isBlank s = true) symbols ->
    fetchQuotes respond dateParse symbols w = (inr ∅, w)
    /\ fetchQuotesFinnhub respond symbols apiKey w = (inr ∅, w)
    /\ (forall others, cleanSymbols others = []
                       <-> Forall (fun s => JsString.isBlank s = true) others).
Proof.
  intros respond dateParse symbols apiKey w H.
  apply SymbolFacts.cleanSymbols_nil in H.
  split; [|split].
  - unfold fetchQuotes. now rewrite H.
  - unfold fetchQuotesFinnhub. now rewrite H.
  - exact SymbolFacts.cleanSymbols_nil.
Qed.

Lemma nothing_to_fetch_sends_nothing_witness :
  fetchQuotes (fun _ _ => inl (ErrorObject "offline")) (fun _ => S754_nan)
    [""; "  "] emptyWorld
  = (inr ∅, emptyWorld).
Proof.
  refine (proj1 (nothing_to_fetch_sends_nothing _ _ [""; "  "] "key" emptyWorld _)).
  repeat constructor.
Defined.



(** X4. Whatever the number, NaN and the infinities included, its
    formatted text can stand in a table cell: it is not empty, has no
    white space at its ends, no bar and no line feed in it. *)
Theorem formatted_number_is_a_clean_cell :
  forall x : number,
    cleanCell (formatNumber x 2)
    /\ formatNumber x 2 <> EmptyString
    /\ JsString.includes newline (formatNumber x 2) = false.
Proof.
  intros x. destruct (FormatFacts.formatNumber_plain x 2 ltac:(lia)) as [Hp Hne].
  split; [now apply CharFacts.plain_cleanCell|]. split; [exact Hne|].
  now apply CharFacts.plain_no_newline.
Qed.

(** X5. [formatLongNumber] has no answer for NaN and for NaN only;
    for every other number the three tests leave no gap: the suffix is
    M below a thousand million, B from there to below a million
    million, T from there on. So the market capitalisation line of
    the callout never reads "undefined". *)
Theorem formatLongNumber_defined_unless_NaN :
  forall n : number,
    match formatLongNumber n with
    | None => isNaN n = true
    | Some s =>
        isNaN n = false
        /\ exists body,
             s = body ++ (if ltb n (ofZ (10 ^ 9)) then "M"
                          else if ltb n (ofZ (10 ^ 12)) then "B" else "T")
    end
    /\ (JsNumber.truthy n = true -> formatLongNumber n <> None).
Proof.
  intros n.
  assert (H : match formatLongNumber n with
              | None => isNaN n = true
              | Some s =>
                  isNaN n = false
                  /\ exists body,
                       s = body ++ (if ltb n (ofZ (10 ^ 9)) then "M"
                                    else if ltb n (ofZ (10 ^ 12)) then "B" else "T")
              end).
  { destruct (isNaN n) eqn:Hn.
    - assert (n = S754_nan) as -> by (destruct n; discriminate Hn || reflexivity).
      unfold formatLongNumber.
      now rewrite CompareFacts.ltb_nan, !CompareFacts.geb_nan.
    - unfold formatLongNumber.
      destruct (ltb n (ofZ (10 ^ 9))) eqn:E1; [split; [reflexivity|now eexists]|].
      rewrite (CompareFacts.ltb_false_geb n (ofZ (10 ^ 9)) Hn eq_refl E1). cbn [andb].
      destruct (ltb n (ofZ (10 ^ 12))) eqn:E2; [split; [reflexivity|now eexists]|].
      rewrite (CompareFacts.ltb_false_geb n (ofZ (10 ^ 12)) Hn eq_refl E2).
      split; [reflexivity|now eexists]. }
  split; [exact H|].
  intros Ht E. rewrite E in H. clear E. destruct n; discriminate.
Qed.

(* ===================================================================== *)
(** * Further properties: request URLs *)
(* ===================================================================== *)

(** X6. Whatever is typed as a symbol or stored as a key, it enters a
    request URL as data only: the URL has as many question marks,
    ampersands, equals signs, slashes, number signs, spaces and commas
    as the URL built for the empty symbol. A symbol of letters and
    digits enters as it is. *)
Theorem request_urls_keep_their_shape :
  forall c : ascii,
    Shape.urlSafe c = false ->
    (forall candidate,
        Shape.count c (stooqUrl candidate) = Shape.count c (stooqUrl EmptyString))
    /\ (forall symbols,
          map (Shape.count c)
            (yahooUrls (Uri.encodeURIComponent (JsString.join "," symbols)))
          = map (Shape.count c) (yahooUrls EmptyString))
    /\ (forall normalized apiKey,
          Shape.count c (finnhubUrl normalized apiKey)
          = Shape.count c (finnhubUrl EmptyString EmptyString))
    /\ (forall s, Shape.allChars Uri.isUnreserved s = true ->
                  Uri.encodeURIComponent s = s).
Proof.
  intros c Hc. split; [|split; [|split]].
  - intros candidate. unfold stooqUrl.
    rewrite !CountFacts.count_app, !CountFacts.count_encoded by exact Hc.
    reflexivity.
  - intros symbols. unfold yahooUrls. cbn [map].
    rewrite !CountFacts.count_app, !CountFacts.count_encoded by exact Hc.
    reflexivity.
  - intros normalized apiKey. unfold finnhubUrl.
    rewrite !CountFacts.count_app, !CountFacts.count_encoded by exact Hc.
    reflexivity.
  - exact UriFacts.encodeURIComponent_unreserved.
Qed.

Lemma request_urls_keep_their_shape_witness :
  Shape.count "&" (stooqUrl "a&b=c") = 3
  /\ Uri.encodeURIComponent "AAPL" = "AAPL".
Proof.
  destruct (request_urls_keep_their_shape "&" eq_refl) as (Hs & _ & _ & Hu).
  split; [exact (Hs "a&b=c")|exact (Hu "AAPL" eq_refl)].
Defined.

(* ===================================================================== *)
(** * Further properties: the table *)
(* ===================================================================== *)

(** X7. The cells [splitRow] reads from any line: there is at least
    one, each has no white space at its ends and no bar in it, and
    writing them as a row and reading that row gives the same cells
    again. *)
Theorem splitRow_cells_are_clean :
  forall line : string,
    splitRow line <> []
    /\ Forall cleanCell (splitRow line)
    /\ splitRow (serializeRow (splitRow line)) = splitRow line.
Proof.
  intros line. split; [|split].
  - apply RowFacts.splitRow_nonempty.
  - apply RowFacts.splitRow_clean.
  - apply RowFacts.splitRow_canonical.
Qed.

(** X8. A separator line is itself a table row: it has a bar and a
    dash in it. So a second separator line right below the first is
    counted among the data rows of the table. *)
Theorem separator_line_is_a_table_row :
  forall s : string,
    isTableSeparator s = true ->
    isTableRow s = true
    /\ JsString.includes "|" s = true /\ JsString.includes "-" s = true
    /\ (forall header rest,
          isTableRow header = true ->
          locateTable (header :: s :: s :: rest)
          = Some (0, 2 + countRows rest, splitRow header)).
Proof.
  intros s Hs. pose proof (SeparatorFacts.separator_is_row s Hs) as Hr.
  destruct (SeparatorFacts.separator_bar_dash s Hs) as [Hb Hd].
  split; [exact Hr|]. split; [exact Hb|]. split; [exact Hd|].
  intros header rest Hh. unfold locateTable.
  rewrite LocateFacts.locateFrom_step, Hh, Hs. cbn [andb countRows].
  now rewrite Hr.
Qed.

Lemma separator_line_is_a_table_row_witness :
  isTableRow "|---|---|" = true
  /\ locateTable ["| Ticker | Shares |"; "|---|---|"; "|---|---|"; "| AAPL | 1 |"]
     = Some (0, 3, ["Ticker"; "Shares"]).
Proof.
  destruct (separator_line_is_a_table_row "|---|---|" eq_refl) as (Hr & _ & _ & Hl).
  split; [exact Hr|exact (Hl "| Ticker | Shares |" ["| AAPL | 1 |"] eq_refl)].
Defined.

(** X9. The block the scan returns, for any text: the separator line
    is inside the text, every line from the one after the separator
    to [tableEnd] is a table row, the line after [tableEnd], if there
    is one, is not a table row, and the data rows are as many as the
    lines between the separator and [tableEnd]. *)
Theorem located_block_is_maximal :
  forall (lines : list string) (tableStart tableEnd : nat) (header : list string),
    locateTable lines = Some (tableStart, tableEnd, header) ->
    tableStart + 1 <= tableEnd < length lines
    /\ (forall j, tableStart + 2 <= j <= tableEnd ->
                  exists l, lines !! j = Some l /\ isTableRow l = true)
    /\ (forall l, lines !! (tableEnd + 1) = Some l -> isTableRow l = false)
    /\ length (dataRowsOf lines tableStart tableEnd) = tableEnd - (tableStart + 1).
Proof. intros lines tableStart tableEnd header H. exact (ScanFacts.locateTable_block _ _ _ _ H). Qed.

Lemma located_block_is_maximal_witness :
  1 + 1 <= 3 < length ["text"; "a | b"; "---|---"; "1 | 2"; ""; "3 | 4"]
  /\ (forall l, ["text"; "a | b"; "---|---"; "1 | 2"; ""; "3 | 4"] !! (3 + 1) = Some l ->
                isTableRow l = false).
Proof.
  destruct (located_block_is_maximal
              ["text"; "a | b"; "---|---"; "1 | 2"; ""; "3 | 4"] 1 3 ["a"; "b"] eq_refl)
    as (Hb & _ & Hstop & _).
  split; [exact Hb|exact Hstop].
Defined.

(** X10. The columns a header gives roles to lie inside the header,
    and no column gets two roles: the ticker, shares, price, value and
    allocation columns are pairwise different. *)
Theorem roles_are_distinct_columns :
  forall (header : list string) (roles : Roles),
    resolveRoles header = Some roles ->
    NoDup (roleColumns roles)
    /\ Forall (fun i => i < length header) (roleColumns roles).
Proof.
  intros header roles H. apply RoleFacts.resolveRoles_Resolved in H.
  split; [now apply (RoleFacts.Resolved_NoDup header)|now apply RoleFacts.Resolved_bounds].
Qed.

Lemma roles_are_distinct_columns_witness :
  NoDup (roleColumns Examples.portfolioRoles)
  /\ Forall (fun i => i < length Examples.portfolioHeader)
       (roleColumns Examples.portfolioRoles).
Proof.
  exact (roles_are_distinct_columns Examples.portfolioHeader Examples.portfolioRoles eq_refl).
Defined.

(** X11. Reconciliation keeps the number of rows, leaves every row as
    wide as the wider of the row and the header, and changes no cell
    outside the price, value and allocation columns: the ticker and
    the shares of every row, with or without a quote, stay as they
    were. *)
Theorem reconcile_changes_three_columns_only :
  forall (header : list string) (roles : Roles) (quotes : gmap string Quote)
         (dataRows : list (list string)),
    resolveRoles header = Some roles ->
    length (reconcile header roles quotes dataRows) = length dataRows
    /\ forall i row,
         dataRows !! i = Some row ->
         exists row',
           reconcile header roles quotes dataRows !! i = Some row'
           /\ length row' = Nat.max (length header) (length row)
           /\ row' !! tickerIndex roles = pad (length header) row !! tickerIndex roles
           /\ row' !! sharesIndex roles = pad (length header) row !! sharesIndex roles
           /\ forall j,
                priceIndex roles <> Some j -> valueIndex roles <> Some j ->
                allocationIndex roles <> Some j ->
                row' !! j = pad (length header) row !! j.
Proof.
  intros header roles quotes dataRows H.
  apply RoleFacts.resolveRoles_Resolved in H.
  split; [apply TableFacts.length_reconcile|].
  intros i row Hi.
  destruct (reconcile header roles quotes dataRows !! i) as [row'|] eqn:Hr.
  - exists row'. split; [reflexivity|].
    split; [exact (ReconcileFacts.length_reconciled _ _ _ _ _ _ _ Hi Hr)|].
    split; [|split].
    + apply (ReconcileFacts.reconcile_frame _ _ _ _ _ _ _ _ Hi Hr).
      * apply (price_ticker _ _ H).
      * apply (value_ticker _ _ H).
      * apply (allocation_ticker _ _ H).
    + apply (ReconcileFacts.reconcile_frame _ _ _ _ _ _ _ _ Hi Hr).
      * apply (price_shares _ _ H).
      * apply (value_shares _ _ H).
      * apply (allocation_shares _ _ H).
    + intros j. apply (ReconcileFacts.reconcile_frame _ _ _ _ _ _ _ _ Hi Hr).
  - apply lookup_ge_None in Hr. rewrite TableFacts.length_reconcile in Hr.
    apply lookup_lt_Some in Hi. lia.
Qed.

Lemma reconcile_changes_three_columns_only_witness :
  exists row',
    reconcile Examples.portfolioHeader Examples.portfolioRoles Examples.appleOnly
      [["aapl "; "10"; "old"; "old"; "old"; "note"]] !! 0 = Some row'
    /\ length row' = 6
    /\ row' !! 0 = Some "aapl " /\ row' !! 1 = Some "10" /\ row' !! 5 = Some "note".
Proof.
  destruct (reconcile_changes_three_columns_only Examples.portfolioHeader
              Examples.portfolioRoles Examples.appleOnly
              [["aapl "; "10"; "old"; "old"; "old"; "note"]] eq_refl) as [_ H].
  destruct (H 0 _ eq_refl) as (row' & Hr & Hlen & Ht & Hs & Hj).
  exists row'. split; [exact Hr|]. split; [exact Hlen|].
  split; [exact Ht|]. split; [exact Hs|].
  apply (Hj 5); discriminate.
Defined.

(** X12. Updating twice with the same quotes is updating once:
    reconciling the reconciled rows changes nothing, and neither does
    reconciling the rows read back from the lines the engine wrote. *)
Theorem reconcile_is_idempotent :
  forall (header : list string) (roles : Roles) (quotes : gmap string Quote),
    resolveRoles header = Some roles ->
    (forall dataRows,
        reconcile header roles quotes (reconcile header roles quotes dataRows)
        = reconcile header roles quotes dataRows)
    /\ (forall ls : list string,
          reconcile header roles quotes
            (map splitRow
               (map serializeRow (reconcile header roles quotes (map splitRow ls))))
          = reconcile header roles quotes (map splitRow ls)).
Proof.
  intros header roles quotes H. apply RoleFacts.resolveRoles_Resolved in H.
  split.
  - intros dataRows. now apply ReconcileFacts.reconcile_idempotent.
  - intros ls. rewrite ReconcileFacts.readback.
    now apply ReconcileFacts.reconcile_idempotent.
Qed.

Lemma reconcile_is_idempotent_witness :
  reconcile Examples.portfolioHeader Examples.portfolioRoles Examples.appleAndMicrosoft
    (reconcile Examples.portfolioHeader Examples.portfolioRoles
       Examples.appleAndMicrosoft [["AAPL"; "10"]; ["MSFT"; "5"]; ["IBM"; "1"]])
  = reconcile Examples.portfolioHeader Examples.portfolioRoles
      Examples.appleAndMicrosoft [["AAPL"; "10"]; ["MSFT"; "5"]; ["IBM"; "1"]].
Proof.
  exact (proj1 (reconcile_is_idempotent Examples.portfolioHeader Examples.portfolioRoles
                  Examples.appleAndMicrosoft eq_refl) _).
Defined.

(** X13. What the engine writes it reads back: every row that leaves
    reconciliation, for data rows read from lines, has at least one
    cell, all its cells are clean, and the row written as a line and
    split again is the same row. *)
Theorem written_rows_read_back :
  forall (header : list string) (roles : Roles) (quotes : gmap string Quote)
         (ls : list string),
    Forall (fun row => row <> [] /\ Forall cleanCell row
                       /\ splitRow (serializeRow row) = row)
      (reconcile header roles quotes (map splitRow ls)).
Proof.
  intros header roles quotes ls. apply Forall_lookup. intros i row' Hr.
  destruct (ReconcileFacts.reconciled_row header roles quotes ls i row' Hr)
    as [Hne Hclean].
  split; [exact Hne|]. split; [exact Hclean|].
  now apply SerializeFacts.splitRow_serializeRow.
Qed.

(* ===================================================================== *)
(** * Further properties: fetching *)
(* ===================================================================== *)

(** X14. [fetchQuotes] does nothing to the world but send requests: it
    shows no notice and writes nothing on the console. With nothing to
    fetch it sends none; otherwise the first batch request comes
    first, and there are at most two batch requests and two plain-text
    requests for each symbol; no other request is ever sent. *)
Theorem fetchQuotes_only_sends_requests :
  forall respond dateParse (symbols : list string) (w : World),
    let cleaned := cleanSymbols symbols in
    let urls := yahooUrls (Uri.encodeURIComponent (JsString.join "," cleaned)) in
    let w' := snd (fetchQuotes respond dateParse symbols w) in
    notices w' = notices w
    /\ consoleErrors w' = consoleErrors w
    /\ exists sent,
         requests w' = (requests w ++ sent)%list
         /\ length sent <= 2 + 2 * length cleaned
         /\ (cleaned = [] -> sent = [])
         /\ (cleaned <> [] ->
             exists rest, sent = yahooRequest (nth 0 urls EmptyString) :: rest)
         /\ Forall (fun req => (exists u, In u urls /\ req = yahooRequest u)
                               \/ exists candidate, req = stooqRequest candidate) sent.
Proof.
  intros respond dateParse symbols w cleaned urls w'.
  destruct (YahooFacts.fetchQuotes_sends respond dateParse symbols w)
    as (sent & Hs & Hlen & Hnil & Hhead & Hall).
  fold w' in Hs. apply WorldFacts.sends_requests in Hs as (Hr & Hn & Hc).
  split; [exact Hn|]. split; [exact Hc|].
  exists sent. split; [exact Hr|]. split; [exact Hlen|]. split; [exact Hnil|].
  split; [exact Hhead|exact Hall].
Qed.

(** X15. Whichever provider answered, a quote in the map
    [fetchQuotes] returns sits under the upper-case form of its own
    symbol. In the map of the plain-text fallback the key is the
    symbol itself, and it is one of the symbols asked for, normalized;
    the batch adapter skips the objects without a symbol. *)
Theorem quotes_are_filed_under_their_symbol :
  forall respond dateParse (symbols : list string) (w : World),
    (forall m w' k q,
        fetchQuotes respond dateParse symbols w = (inr m, w') ->
        m !! k = Some q ->
        k = JsString.toUpperCase (symbol q))
    /\ (forall k q,
          fst (fetchQuotesFromStooq respond dateParse symbols w) !! k = Some q ->
          symbol q = k /\ exists s, In s symbols /\ k = normalizeSymbol s)
    /\ (forall response m k q,
          yahooQuotesOf response = inr m ->
          m !! k = Some q ->
          symbol q <> EmptyString /\ k = JsString.toUpperCase (symbol q)).
Proof.
  intros respond dateParse symbols w. split; [|split].
  - intros m w' k q. apply YahooFacts.fetchQuotes_keys.
  - intros k q Hk. unfold fetchQuotesFromStooq in Hk.
    apply StooqFacts.stooqLoop_keys in Hk as [Hk|Hk]; [|exact Hk].
    now rewrite lookup_empty in Hk.
  - intros response m k q. apply YahooFacts.yahooQuotesOf_keys.
Qed.

Lemma quotes_are_filed_under_their_symbol_witness :
  let batch :=
    JObj [("quoteResponse",
           JObj [("result",
                  JArr [JObj [("symbol", JStr "brk-b")]; JObj [("bid", JNum zero)]])])] in
  let respond : list Request -> Request -> Thrown + Response :=
    fun _ _ => inr (mkResponse 200 EmptyString (inr batch)) in
  exists m w' q,
    fetchQuotes respond (fun _ => S754_nan) ["brk-b"] emptyWorld = (inr m, w')
    /\ m !! "BRK-B" = Some q
    /\ "BRK-B" = JsString.toUpperCase (symbol q).
Proof.
  intros batch respond.
  assert (H : exists m w' q,
             fetchQuotes respond (fun _ => S754_nan) ["brk-b"] emptyWorld = (inr m, w')
             /\ m !! "BRK-B" = Some q)
    by (eexists _, _, _; split; vm_compute; reflexivity).
  destruct H as (m & w' & q & E & Hq).
  exists m, w', q. split; [exact E|]. split; [exact Hq|].
  exact (proj1 (quotes_are_filed_under_their_symbol respond (fun _ => S754_nan)
                  ["brk-b"] emptyWorld) m w' "BRK-B" q E Hq).
Defined.

(** X16. An answer of the batch provider whose result is an empty
    array counts as an answer: [fetchQuotes] returns the empty map
    after that one request, and asks neither the second batch URL nor
    the plain-text provider. With an empty map reconciliation only
    pads the rows to the width of the header. *)
Theorem empty_batch_answer_is_an_answer :
  forall respond dateParse (symbols : list string) (w : World)
         (response : Response) (data : JSValue),
    cleanSymbols symbols <> [] ->
    let query := Uri.encodeURIComponent (JsString.join "," (cleanSymbols symbols)) in
    let u1 := "https://query1.finance.yahoo.com/v7/finance/quote?symbols=" ++ query in
    respond (requests w) (yahooRequest u1) = inr response ->
    json response = inr data ->
    Json.get (Json.get data "quoteResponse") "result" = JArr [] ->
    fetchQuotes respond dateParse symbols w
    = (inr ∅, mkWorld (requests w ++ [yahooRequest u1]) (notices w) (consoleErrors w))
    /\ forall header roles dataRows,
         reconcile header roles ∅ dataRows = map (pad (length header)) dataRows.
Proof.
  intros respond dateParse symbols w response data Hne query u1 Hr Hj Hres.
  split.
  - rewrite (FetchFacts.fetchQuotes_steps respond dateParse symbols w Hne).
    cbv zeta. fold query.
    change (nth 0 (yahooUrls query) EmptyString) with u1.
    unfold yahooAttempt at 1. unfold bind, requestUrl, ret. rewrite Hr.
    now rewrite (YahooFacts.yahooQuotesOf_empty response data Hj Hres).
  - intros header roles dataRows. apply SerializeFacts.reconcile_unmatched.
    intros r _. apply lookup_empty.
Qed.

Lemma empty_batch_answer_is_an_answer_witness :
  let data := JObj [("quoteResponse", JObj [("result", JArr [])])] in
  let respond : list Request -> Request -> Thrown + Response :=
    fun _ _ => inr (mkResponse 200 EmptyString (inr data)) in
  fetchQuotes respond (fun _ => S754_nan) ["zzzz"] emptyWorld
  = (inr ∅,
     mkWorld
       [yahooRequest "https://query1.finance.yahoo.com/v7/finance/quote?symbols=ZZZZ"]
       [] []).
Proof.
  intros data respond.
  refine (proj1 (empty_batch_answer_is_an_answer respond (fun _ => S754_nan) ["zzzz"]
                   emptyWorld (mkResponse 200 EmptyString (inr data)) data _
                   eq_refl eq_refl eq_refl)).
  vm_compute. discriminate.
Defined.

(** X17. A quote of the plain-text fallback carries no name, no
    currency, no bid or ask, no previous close, no yearly range and no
    market capitalisation. Its callout is the title, the price in
    parentheses when there is one that is not 0, and the volume, day
    range and time lines; the single-value command reports that no
    data is available for each of the fields the fallback lacks. *)
Theorem fallback_quote_renders_short_callout :
  forall dateParse dateString (normalized body ticker : string) (q : Quote),
    stooqQuoteOf dateParse normalized body = Some q ->
    callout dateString ticker q
    = "> [!info]- " ++ normalizeSymbol ticker ++ " "
        ++ (if numTruthy (regularMarketPrice q)
            then "(Price: " ++ shown (regularMarketPrice q) ++ ")" else "")
        ++ volumeLine q ++ dayRangeLine q ++ timestampLine dateString q
    /\ forall f,
         In f [F_name; F_currency; F_bid; F_ask; F_marketCap; F_previousClose;
               F_fiftytwo_high; F_fiftytwo_low] ->
         singleValue q f = None.
Proof.
  intros dateParse dateString normalized body ticker q H.
  apply StooqFacts.stooqQuoteOf_fields in H
    as (_ & Hsn & Hln & Hcu & Hb & Ha & Hpc & Hl52 & Hh52 & Hmc).
  split.
  - unfold callout, subtitle, nameLine, currencyLine, marketCapLine,
      previousCloseLine, fiftyTwoWeekLine, priceOf.
    rewrite Hsn, Hln, Hcu, Hb, Ha, Hpc, Hl52, Hh52, Hmc.
    cbn [numTruthy strTruthy andb orElse].
    assert (Hp : (regularMarketPrice q ?? None ?? None ?? None) = regularMarketPrice q)
      by now destruct (regularMarketPrice q).
    rewrite Hp. reflexivity.
  - intros f Hf. unfold singleValue, stockData.
    simpl in Hf.
    repeat (destruct Hf as [<-|Hf];
            [rewrite ?Hsn, ?Hln, ?Hcu, ?Hb, ?Ha, ?Hpc, ?Hl52, ?Hh52, ?Hmc; reflexivity|]).
    destruct Hf.
Qed.

Lemma fallback_quote_renders_short_callout_witness :
  exists q,
    stooqQuoteOf (fun _ => S754_nan) "AAPL"
      ("symbol,date,time,open,high,low,close,volume" ++ nl
         ++ "AAPL.US,N/A,N/A,187.15,188.44,N/A,185.64,N/A") = Some q
    /\ callout (fun _ => EmptyString) "aapl" q
       = "> [!info]- " ++ normalizeSymbol "aapl" ++ " "
           ++ (if numTruthy (regularMarketPrice q)
               then "(Price: " ++ shown (regularMarketPrice q) ++ ")" else "")
           ++ volumeLine q ++ dayRangeLine q ++ timestampLine (fun _ => EmptyString) q.
Proof.
  destruct (stooqQuoteOf (fun _ => S754_nan) "AAPL"
              ("symbol,date,time,open,high,low,close,volume" ++ nl
                 ++ "AAPL.US,N/A,N/A,187.15,188.44,N/A,185.64,N/A")) as [q|] eqn:E;
    [|vm_compute in E; discriminate].
  exists q. split; [reflexivity|].
  exact (proj1 (fallback_quote_renders_short_callout (fun _ => S754_nan)
                  (fun _ => EmptyString) "AAPL" _ "aapl" q E)).
Defined.

(** X18. The API-keyed [fetchQuotes] sends one request for each
    symbol there is to fetch, in order, and every quote it returns
    sits under the symbol it was asked for and has a price. It has no
    [try]: what the host throws for a symbol, on the request or on
    reading the answer as JSON, ends the loop after the request for
    that symbol and is what [fetchQuotes] throws. *)
Theorem keyed_fetch_sends_one_request_per_symbol :
  forall respond (symbols : list string) (apiKey : string) (w : World),
    let cleaned := cleanSymbols symbols in
    (forall m w',
        fetchQuotesFinnhub respond symbols apiKey w = (inr m, w') ->
        w' = mkWorld (requests w ++ map (fun s => finnhubRequest s apiKey) cleaned)
               (notices w) (consoleErrors w)
        /\ forall k q,
             m !! k = Some q ->
             In k cleaned /\ symbol q = k
             /\ exists price, regularMarketPrice q = Some price)
    /\ (forall e w',
          fetchQuotesFinnhub respond symbols apiKey w = (inl e, w') ->
          exists n s,
            cleaned !! n = Some s
            /\ w' = mkWorld
                      (requests w
                         ++ map (fun s => finnhubRequest s apiKey) (take (S n) cleaned))
                      (notices w) (consoleErrors w)
            /\ exists history,
                 respond history (finnhubRequest s apiKey) = inl e
                 \/ exists response,
                      respond history (finnhubRequest s apiKey) = inr response
                      /\ json response = inl e).
Proof.
  intros respond symbols apiKey w cleaned. subst cleaned. split.
  - intros m w' H. rewrite FinnhubFacts.fetchQuotesFinnhub_loop in H.
    apply FinnhubFacts.finnhubLoop_ok in H as [Hs Hk]. split; [exact Hs|].
    intros k q Hq. destruct (Hk k q Hq) as [H|(Hin & Hsym & Hp)].
    + now rewrite lookup_empty in H.
    + split; [exact Hin|]. split; [|exact Hp].
      pose proof (SymbolFacts.cleanSymbols_normalized symbols) as Hn.
      rewrite Forall_forall in Hn. apply list_elem_of_In in Hin.
      destruct (Hn k Hin) as [Hk' _]. now rewrite Hsym.
  - intros e w' H. rewrite FinnhubFacts.fetchQuotesFinnhub_loop in H.
    apply FinnhubFacts.finnhubLoop_thrown in H as (n & s & w0 & Hn & Hs & H).
    exists n, s. split; [exact Hn|].
    pose proof (FinnhubFacts.fetchFinnhubQuote_sends respond s apiKey w0) as S1.
    pose proof (FinnhubFacts.fetchFinnhubQuote_result respond s apiKey w0) as R.
    rewrite H in S1, R. cbn [fst snd] in S1, R. split.
    + rewrite (take_S_r _ _ _ Hn), fmap_app.
      exact (WorldFacts.sends_trans _ _ _ _ _ Hs S1).
    + exists (requests w0).
      destruct (respond (requests w0) (finnhubRequest s apiKey)) as [e0|response].
      * left. congruence.
      * right. exists response. split; [reflexivity|].
        destruct (negb (status response =? 200)%Z); [discriminate|].
        destruct (json response) as [e0|data]; [congruence|].
        destruct (_ || _); discriminate.
Qed.

Lemma keyed_fetch_sends_one_request_per_symbol_witness :
  let respond : list Request -> Request -> Thrown + Response :=
    fun _ _ => inr (mkResponse 200 EmptyString
                      (inr (JObj [("c", JNum (ofZ 7)); ("t", JNum (ofZ 1))]))) in
  exists m w',
    fetchQuotesFinnhub respond [" aapl"; ""; "msft"] "key" emptyWorld = (inr m, w')
    /\ w' = mkWorld [finnhubRequest "AAPL" "key"; finnhubRequest "MSFT" "key"] [] [].
Proof.
  intros respond.
  destruct (fetchQuotesFinnhub respond [" aapl"; ""; "msft"] "key" emptyWorld)
    as [[e|m] w'] eqn:E; [vm_compute in E; discriminate|].
  exists m, w'. split; [reflexivity|].
  exact (proj1 (proj1 (keyed_fetch_sends_one_request_per_symbol respond
                         [" aapl"; ""; "msft"] "key" emptyWorld) m w' E)).
Defined.

(* ===================================================================== *)
(** * Further properties: the commands *)
(* ===================================================================== *)

(** X19. Every run of the table command shows exactly one notice and,
    besides that, only sends requests and writes at most one line on
    the console. A line on the console means the fetch threw: the
    notice is then the one about stock information that could not be
    retrieved, and the editor is as it was. The editor changes only
    with one of the two notices that begin with "Updated", after at
    least one request. Clicking the ribbon icon with no markdown view
    open shows the notice that there is no editor and nothing else. *)
Theorem table_command_reports_once :
  forall respond dateParse (editor : option Editor) (w : World),
    let result := fst (updatePortfolioTable respond dateParse editor w) in
    let w' := snd (updatePortfolioTable respond dateParse editor w) in
    (exists message duration sent,
        notices w' = (notices w ++ [(message, duration)])%list
        /\ requests w' = (requests w ++ sent)%list
        /\ (consoleErrors w' = consoleErrors w
            \/ exists e,
                 consoleErrors w'
                 = (consoleErrors w ++ [("Error occurred:", ArgThrown e)])%list
                 /\ message = "Error: couldn't retrieve stock information"
                 /\ duration = 15000%Z
                 /\ result = editor)
        /\ (result = editor
            \/ (JsString.hasPrefix "Updated" message = true
                /\ sent <> []
                /\ consoleErrors w' = consoleErrors w)))
    /\ ribbonCallback respond dateParse None w
       = (None,
          mkWorld (requests w) (notices w ++ [("No active markdown editor", 5000%Z)])
            (consoleErrors w)).
Proof.
  intros respond dateParse editor w result w'. split; [|reflexivity].
  subst result w'. unfold updatePortfolioTable.
  destruct editor as [ed|];
    [|exists "No active markdown editor", 5000%Z, []; cbn;
      rewrite app_nil_r; auto].
  set (lines := JsString.split newline _).
  destruct (locateTable lines) as [[[tableStart tableEnd] header]|];
    [|exists "No markdown table found", 5000%Z, []; cbn;
      rewrite app_nil_r; auto].
  destruct (resolveRoles header) as [roles|];
    [|exists requiredColumnsMessage, 7000%Z, []; cbn; rewrite app_nil_r; auto].
  cbv zeta.
  destruct (symbolsOf roles (dataRowsOf lines tableStart tableEnd))
    as [|sym syms] eqn:Sy;
    [exists "No tickers found in the table", 5000%Z, []; cbn;
     rewrite app_nil_r; auto|].
  assert (Hne : symbolsOf roles (dataRowsOf lines tableStart tableEnd) <> [])
    by (rewrite Sy; discriminate).
  destruct (CommandFacts.table_fetch_sends respond dateParse roles lines
              tableStart tableEnd w Hne) as (req & rest & Hs).
  rewrite Sy in Hs. unfold bind.
  destruct (fetchQuotes respond dateParse (sym :: syms) w) as [[e|quotes] w1].
  - unfold sends in Hs. cbn [snd] in Hs. subst w1.
    exists "Error: couldn't retrieve stock information", 15000%Z, (req :: rest).
    cbn. split; [reflexivity|]. split; [reflexivity|]. split; [|now left].
    right. exists e. auto.
  - unfold sends in Hs. cbn [snd] in Hs. subst w1.
    destruct (missingColumnsOf roles) as [|c cs].
    + exists "Updated portfolio table", 3000%Z, (req :: rest).
      cbn. split; [reflexivity|]. split; [reflexivity|]. split; [now left|].
      right. split; [reflexivity|]. split; [discriminate|reflexivity].
    + eexists _, 8000%Z, (req :: rest).
      cbn. split; [reflexivity|]. split; [reflexivity|]. split; [now left|].
      right. split; [reflexivity|]. split; [discriminate|reflexivity].
Qed.

(** X20. A ticker that is blank is not fetched: the insert command and
    the single-value command send no request, write "Symbol not
    found" on the console, show the notice and leave the editor as it
    was. That is what happens when the insert modal is submitted as it
    opened over an empty selection. *)
Theorem blank_ticker_is_not_fetched :
  forall respond dateParse dateString (ticker : string) (f : Field)
         (ed : Editor) (w : World),
    JsString.isBlank ticker = true ->
    let reported :=
      mkWorld (requests w) (notices w ++ [(retrieveMessage, 15000%Z)])
        (consoleErrors w ++ [("Error occurred:", ArgString "Symbol not found")]) in
    insertStockInfo respond dateParse dateString ticker ed w = (ed, reported)
    /\ getSingleStockValue respond dateParse ticker f ed w = (ed, reported)
    /\ (EditorOps.getSelection ed = ticker ->
        insertCommand respond dateParse dateString [Modal.ButtonClick] ed w
        = (ed, reported)).
Proof.
  intros respond dateParse dateString ticker f ed w Hb reported.
  assert (Hf : fetchQuotes respond dateParse [ticker] w = (inr ∅, w)).
  { unfold fetchQuotes.
    now rewrite (proj2 (SymbolFacts.cleanSymbols_nil [ticker]))
      by (repeat constructor; exact Hb). }
  assert (Hi : insertStockInfo respond dateParse dateString ticker ed w = (ed, reported)).
  { unfold insertStockInfo. unfold bind at 1. rewrite Hf, lookup_empty. reflexivity. }
  split; [exact Hi|]. split.
  - unfold getSingleStockValue. unfold bind at 1. rewrite Hf, lookup_empty. reflexivity.
  - intros Hsel. unfold insertCommand. cbn [Modal.insertLinkRun Modal.newInsertLinkModal
      Modal.linkTicker]. rewrite Hsel. exact Hi.
Qed.

Lemma blank_ticker_is_not_fetched_witness :
  insertStockInfo (fun _ _ => inl (ErrorObject "offline")) (fun _ => S754_nan)
    (fun _ => EmptyString) "  " (mkEditor "text" EmptyString EmptyString) emptyWorld
  = (mkEditor "text" EmptyString EmptyString,
     mkWorld [] [(retrieveMessage, 15000%Z)]
       [("Error occurred:", ArgString "Symbol not found")]).
Proof.
  exact (proj1 (blank_ticker_is_not_fetched (fun _ _ => inl (ErrorObject "offline"))
                  (fun _ => S754_nan) (fun _ => EmptyString) "  " F_bid
                  (mkEditor "text" EmptyString EmptyString) emptyWorld eq_refl)).
Defined.

(** X21. The insert command either inserts or reports, never both.
    When it reports, the editor is as it was, with one line on the
    console and the notice. When it inserts, it shows no notice and
    writes nothing on the console, the text goes where the selection
    was, and the quote rendered is filed under the ticker asked for,
    normalized. The text after the selection is never touched. *)
Theorem insert_either_inserts_or_reports :
  forall respond dateParse dateString (ticker : string) (ed : Editor) (w : World),
    let ed' := fst (insertStockInfo respond dateParse dateString ticker ed w) in
    let w' := snd (insertStockInfo respond dateParse dateString ticker ed w) in
    (exists sent, requests w' = (requests w ++ sent)%list)
    /\ ((ed' = ed
         /\ notices w' = (notices w ++ [(retrieveMessage, 15000%Z)])%list
         /\ exists msg,
              consoleErrors w'
              = (consoleErrors w ++ [("Error occurred:", ArgString msg)])%list)
        \/ (exists quote,
              ed' = EditorOps.replaceSelection
                      (callout dateString ticker quote ++ nl ++ nl) ed
              /\ JsString.toUpperCase (symbol quote) = normalizeSymbol ticker
              /\ notices w' = notices w
              /\ consoleErrors w' = consoleErrors w))
    /\ textAfter ed' = textAfter ed.
Proof.
  intros respond dateParse dateString ticker ed w ed' w'. subst ed' w'.
  unfold insertStockInfo. unfold bind.
  destruct (YahooFacts.fetchQuotes_sends respond dateParse [ticker] w)
    as (sent & Hs & _).
  pose proof (YahooFacts.fetchQuotes_keys respond dateParse [ticker] w) as Hk.
  destruct (fetchQuotes respond dateParse [ticker] w) as [[e|quotes] w1].
  - unfold sends in Hs. cbn [snd] in Hs. subst w1. cbn. split; [now exists sent|]. split; [|reflexivity].
    left. split; [reflexivity|]. split; [reflexivity|]. now eexists.
  - unfold sends in Hs. cbn [snd] in Hs. subst w1.
    destruct (quotes !! normalizeSymbol ticker) as [quote|] eqn:Hq.
    + cbn. split; [now exists sent|]. split; [|reflexivity].
      right. exists quote. split; [reflexivity|].
      split; [|split; reflexivity].
      symmetry. exact (Hk _ quotes _ quote eq_refl Hq).
    + cbn. split; [now exists sent|]. split; [|reflexivity].
      left. split; [reflexivity|]. split; [reflexivity|]. now eexists.
Qed.

(* ===================================================================== *)
(** * Further properties: the API-keyed commands *)
(* ===================================================================== *)

(** X22. Without an API key the three commands of the API-keyed
    variant show the notice that asks for one and do nothing else: no
    request, no line on the console, the editor as it was; only the
    missing editor is checked before the key. There is no key when
    nothing was saved or what was saved has none, and a key typed as
    blank text is no key, because the settings tab trims what is
    typed; what the tab saves loads as the settings it left. *)
Theorem keyed_commands_need_a_key :
  forall respond dateString (settings : StockInfoSettings) (ticker : string)
         (f : Field) (ed : Editor) (w : World),
    finnhubApiKey settings = EmptyString ->
    let asked :=
      mkWorld (requests w) (notices w ++ [(Keyed.keyMessage, 7000%Z)])
        (consoleErrors w) in
    Keyed.updatePortfolioTable respond settings (Some ed) w = (Some ed, asked)
    /\ Keyed.insertStockInfo respond dateString settings ticker ed w = (ed, asked)
    /\ Keyed.getSingleStockValue respond settings ticker f ed w = (ed, asked)
    /\ Keyed.updatePortfolioTable respond settings None w
       = (None,
          mkWorld (requests w) (notices w ++ [("No active markdown editor", 5000%Z)])
            (consoleErrors w))
    /\ finnhubApiKey (loadSettings None) = EmptyString
    /\ finnhubApiKey (loadSettings (Some (mkSavedData None))) = EmptyString
    /\ (forall value s,
          JsString.isBlank value = true ->
          finnhubApiKey (fst (onChange value s)) = EmptyString)
    /\ (forall value s,
          loadSettings (Some (snd (onChange value s))) = fst (onChange value s)).
Proof.
  intros respond dateString settings ticker f ed w Hkey asked.
  split; [|split; [|split; [|split; [|split; [|split; [|split]]]]]].
  - unfold Keyed.updatePortfolioTable. now rewrite Hkey.
  - unfold Keyed.insertStockInfo. now rewrite Hkey.
  - unfold Keyed.getSingleStockValue. now rewrite Hkey.
  - reflexivity.
  - reflexivity.
  - reflexivity.
  - intros value s Hb. cbn. now apply TrimFacts.trim_nil.
  - reflexivity.
Qed.

Lemma keyed_commands_need_a_key_witness :
  Keyed.updatePortfolioTable (fun _ _ => inl (ErrorObject "offline"))
    (fst (onChange "  " DEFAULT_SETTINGS))
    (Some (mkEditor EmptyString EmptyString "| Ticker | Shares |")) emptyWorld
  = (Some (mkEditor EmptyString EmptyString "| Ticker | Shares |"),
     mkWorld [] [(Keyed.keyMessage, 7000%Z)] []).
Proof.
  exact (proj1 (keyed_commands_need_a_key (fun _ _ => inl (ErrorObject "offline"))
                  (fun _ => EmptyString) (fst (onChange "  " DEFAULT_SETTINGS)) "AAPL"
                  F_bid (mkEditor EmptyString EmptyString "| Ticker | Shares |")
                  emptyWorld eq_refl)).
Defined.

(** X23. When the provider answers every request with a status other
    than 200, as it does to a key it does not accept, the API-keyed
    [fetchQuotes] returns the empty map without throwing; the table
    command leaves the editor as it was, writes nothing on the console
    and, once it has asked, shows the notice that no quotes were
    returned; the insert command reports that no data was returned
    for the symbol. *)
Theorem rejected_key_leaves_the_document :
  forall respond dateString (settings : StockInfoSettings) (ticker : string)
         (ed : Editor) (w : World),
    rejecting respond ->
    finnhubApiKey settings <> EmptyString ->
    (forall symbols apiKey w0,
        fst (fetchQuotesFinnhub respond symbols apiKey w0) = inr ∅)
    /\ (exists message duration sent,
          Keyed.updatePortfolioTable respond settings (Some ed) w
          = (Some ed,
             mkWorld (requests w ++ sent) (notices w ++ [(message, duration)])
               (consoleErrors w))
          /\ (sent <> [] ->
              message = "No quotes returned for table" /\ duration = 7000%Z))
    /\ (exists sent,
          Keyed.insertStockInfo respond dateString settings ticker ed w
          = (ed,
             mkWorld (requests w ++ sent) (notices w ++ [(retrieveMessage, 15000%Z)])
               (consoleErrors w
                  ++ [("Error occurred:", ArgString "No data returned for symbol")]))).
Proof.
  intros respond dateString settings ticker ed w Hr Hkey.
  assert (Hf : forall symbols apiKey w0,
             fetchQuotesFinnhub respond symbols apiKey w0
             = (inr ∅,
                mkWorld (requests w0
                           ++ map (fun s => finnhubRequest s apiKey) (cleanSymbols symbols))
                  (notices w0) (consoleErrors w0))).
  { intros symbols apiKey w0. rewrite FinnhubFacts.fetchQuotesFinnhub_loop.
    now apply KeyedFacts.finnhubLoop_rejected. }
  assert (Ht : JsString.truthy (finnhubApiKey settings) = true)
    by (destruct (finnhubApiKey settings); [congruence|reflexivity]).
  split; [intros symbols apiKey w0; now rewrite Hf|]. split.
  - unfold Keyed.updatePortfolioTable. rewrite Ht. cbn [negb].
    set (lines := JsString.split newline _).
    destruct (locateTable lines) as [[[tableStart tableEnd] header]|];
      [|eexists _, _, []; cbn; rewrite app_nil_r; split; [reflexivity|congruence]].
    destruct (resolveRoles header) as [roles|];
      [|eexists _, _, []; cbn; rewrite app_nil_r; split; [reflexivity|congruence]].
    cbv zeta.
    destruct (symbolsOf roles (dataRowsOf lines tableStart tableEnd)) as [|sym syms];
      [eexists _, _, []; cbn; rewrite app_nil_r; split; [reflexivity|congruence]|].
    unfold bind at 1. rewrite Hf.
    eexists _, _, _. cbn. split; [reflexivity|]. auto.
  - unfold Keyed.insertStockInfo. rewrite Ht. cbn [negb].
    unfold bind at 1. rewrite Hf, lookup_empty. eexists. reflexivity.
Qed.

Lemma rejected_key_leaves_the_document_witness :
  let respond : list Request -> Request -> Thrown + Response :=
    fun _ _ => inr (mkResponse 401 EmptyString (inl (ErrorObject "not JSON"))) in
  exists sent,
    Keyed.insertStockInfo respond (fun _ => EmptyString) (mkSettings "stale") "AAPL"
      (mkEditor EmptyString EmptyString EmptyString) emptyWorld
    = (mkEditor EmptyString EmptyString EmptyString,
       mkWorld ([] ++ sent) ([] ++ [(retrieveMessage, 15000%Z)])
         ([] ++ [("Error occurred:", ArgString "No data returned for symbol")])).
Proof.
  intros respond.
  refine (proj2 (proj2 (rejected_key_leaves_the_document respond (fun _ => EmptyString)
                          (mkSettings "stale") "AAPL"
                          (mkEditor EmptyString EmptyString EmptyString) emptyWorld _ _))).
  - intros history req. eexists. split; [reflexivity|discriminate].
  - discriminate.
Defined.

(* ===================================================================== *)
(** * Further properties: the modals and the plain-text lines *)
(* ===================================================================== *)

(** X24. Both modals hand over, at the first click, the ticker typed
    last, or the selection they opened on when nothing was typed; the
    single-value modal hands over with it the field picked last, or
    "previousClose" when none was picked; without a click nothing is
    handed over. Provided the dropdown delivers its own options only,
    the field handed over is always a key of the field menu, and a key
    for which the command's table of values has an entry; conversely
    every entry of that table is on the menu. *)
Theorem single_value_modal_submits_a_menu_field :
  forall (defaultTicker : string) (events : list Modal.Event) (ticker field : string),
    Forall Modal.fromDropdown events ->
    Modal.singleValueRun (Modal.newSingleValueModal defaultTicker) events
      = Some (ticker, field) ->
    In field (map fst Modal.STOCK_FIELDS)
    /\ (exists f, Modal.fieldOfKey field = Some f /\ fieldName f = field)
    /\ (forall f, Modal.fieldOfKey (fieldName f) = Some f
                  /\ In (fieldName f) (map fst Modal.STOCK_FIELDS))
    /\ Modal.singleValueRun (Modal.newSingleValueModal defaultTicker)
         [Modal.ButtonClick] = Some (defaultTicker, "previousClose")
    /\ (forall typed rest,
          Modal.insertLinkRun (Modal.newInsertLinkModal defaultTicker)
            (map Modal.TickerInput typed ++ Modal.ButtonClick :: rest)
          = Some (List.last typed defaultTicker))
    /\ (exists before rest,
          events = (before ++ Modal.ButtonClick :: rest)%list
          /\ forallb (fun ev => negb (Modal.isClick ev)) before = true
          /\ ticker = List.last (Modal.typedTickers before) defaultTicker
          /\ field = List.last (Modal.chosenFields before) "previousClose")
    /\ (forall before rest,
          forallb (fun ev => negb (Modal.isClick ev)) before = true ->
          Modal.singleValueRun (Modal.newSingleValueModal defaultTicker)
            (before ++ Modal.ButtonClick :: rest)
          = Some (List.last (Modal.typedTickers before) defaultTicker,
                  List.last (Modal.chosenFields before) "previousClose")
          /\ Modal.insertLinkRun (Modal.newInsertLinkModal defaultTicker)
               (before ++ Modal.ButtonClick :: rest)
             = Some (List.last (Modal.typedTickers before) defaultTicker))
    /\ (forall before,
          forallb (fun ev => negb (Modal.isClick ev)) before = true ->
          Modal.singleValueRun (Modal.newSingleValueModal defaultTicker) before = None
          /\ Modal.insertLinkRun (Modal.newInsertLinkModal defaultTicker) before = None).
Proof.
  intros defaultTicker events ticker field Hev Hrun.
  assert (Hin : In field Modal.dropdownOptions).
  { apply (ModalFacts.singleValueRun_field events
             (Modal.newSingleValueModal defaultTicker) ticker field Hev);
      [|exact Hrun].
    vm_compute. auto 12. }
  split; [exact Hin|]. split; [now apply ModalFacts.fieldOfKey_options|].
  split; [exact ModalFacts.fieldOfKey_fieldName|]. split; [reflexivity|].
  split; [intros typed rest; apply ModalFacts.insertLinkRun_typed|].
  split; [|split].
  - destruct (ModalFacts.first_click events _ _ Hrun) as (before & rest & E & Hb).
    exists before, rest. split; [exact E|]. split; [exact Hb|].
    rewrite E, (ModalFacts.singleValueRun_click before
                  (Modal.newSingleValueModal defaultTicker) rest Hb) in Hrun.
    cbn [Modal.newSingleValueModal Modal.ticker Modal.field] in Hrun.
    injection Hrun as <- <-. split; reflexivity.
  - intros before rest Hb. split.
    + exact (ModalFacts.singleValueRun_click before
               (Modal.newSingleValueModal defaultTicker) rest Hb).
    + exact (ModalFacts.insertLinkRun_click before
               (Modal.newInsertLinkModal defaultTicker) rest Hb).
  - intros before Hb. apply (ModalFacts.runs_stay_open before Hb).
Qed.

Lemma single_value_modal_submits_a_menu_field_witness :
  In "volume" (map fst Modal.STOCK_FIELDS)
  /\ (exists f, Modal.fieldOfKey "volume" = Some f /\ fieldName f = "volume")
  /\ exists before rest,
       [Modal.FieldChoice "bid"; Modal.TickerInput "msft";
        Modal.FieldChoice "volume"; Modal.ButtonClick]
       = (before ++ Modal.ButtonClick :: rest)%list
       /\ forallb (fun ev => negb (Modal.isClick ev)) before = true
       /\ "msft" = List.last (Modal.typedTickers before) "aapl"
       /\ "volume" = List.last (Modal.chosenFields before) "previousClose".
Proof.
  destruct (single_value_modal_submits_a_menu_field "aapl"
              [Modal.FieldChoice "bid"; Modal.TickerInput "msft";
               Modal.FieldChoice "volume"; Modal.ButtonClick]
              "msft" "volume") as (H1 & H2 & _ & _ & _ & H3 & _).
  - repeat (apply Forall_cons_2; [vm_compute; auto 12|]). apply Forall_nil_2.
  - reflexivity.
  - split; [exact H1|]. split; [exact H2|exact H3].
Defined.

(** X25. A line of the plain-text answer splits into one cell more
    than it has commas; no cell reads N/A, because such a cell is
    emptied, and no cell has white space at its ends. *)
Theorem parseStooqCsvLine_cells :
  forall line : string,
    length (parseStooqCsvLine line) = S (Shape.count "," line)
    /\ Forall (fun cell => cell <> "N/A" /\ JsString.trim cell = cell)
         (parseStooqCsvLine line).
Proof.
  intros line. unfold parseStooqCsvLine. split.
  - now rewrite !length_fmap, RowFacts.length_split.
  - apply Forall_fmap, Forall_fmap, Forall_forall. intros x _. cbn.
    destruct (String.eqb_spec (JsString.trim x) "N/A") as [E|E].
    + split; [discriminate|reflexivity].
    + split; [exact E|apply TrimFacts.trim_idempotent].
Qed.

(** X26. The plain-text adapter builds a quote only from an answer of
    at least two lines whose first line names a column "symbol" and a
    column "close", spelled exactly so once trimmed: the names are
    compared as they are, so a header that spells them with capitals
    gives no quote. *)
Theorem plain_text_answer_needs_named_columns :
  forall dateParse (normalized body : string) (q : Quote),
    stooqQuoteOf dateParse normalized body = Some q ->
    let lines := splitLines (JsString.trim body) in
    2 <= length lines
    /\ In "symbol" (parseStooqCsvLine (lineAt lines 0))
    /\ In "close" (parseStooqCsvLine (lineAt lines 0))
    /\ stooqQuoteOf dateParse normalized
         ("Symbol,Date,Time,Open,High,Low,Close,Volume" ++ nl
            ++ "AAPL.US,2024-01-02,22:00:00,187.15,188.44,183.885,185.64,82488674")
       = None.
Proof.
  intros dateParse normalized body q H lines.
  destruct (RecordFacts.stooqQuoteOf_header dateParse normalized body q H)
    as (Hlen & Hs & Hc).
  split; [exact Hlen|]. split; [exact Hs|]. split; [exact Hc|].
  vm_compute. reflexivity.
Qed.

Lemma plain_text_answer_needs_named_columns_witness :
  let body :=
    "symbol,date,time,open,high,low,close,volume" ++ nl
      ++ "AAPL.US,N/A,N/A,187.15,188.44,N/A,185.64,N/A" in
  2 <= length (splitLines (JsString.trim body))
  /\ In "close" (parseStooqCsvLine (lineAt (splitLines (JsString.trim body)) 0)).
Proof.
  intros body.
  assert (H : exists q, stooqQuoteOf (fun _ => S754_nan) "AAPL" body = Some q)
    by (eexists; vm_compute; reflexivity).
  destruct H as [q H].
  destruct (plain_text_answer_needs_named_columns (fun _ => S754_nan) "AAPL" body q H)
    as (Hlen & _ & Hc & _).
  split; [exact Hlen|exact Hc].
Defined.

(** X27. For every text in which a table is found, whatever the
    quotes: the lines of the text the engine writes are the lines
    before the table, the header written from its cells, the
    separator line as it was, the rows written from their cells and
    the lines after the table. So the text keeps its number of lines
    and every line outside the table, and no cell ever brings in a
    line feed. *)
Theorem update_keeps_the_lines_outside_the_table :
  forall (text : string) (tableStart tableEnd : nat) (header : list string)
         (roles : Roles) (quotes : gmap string Quote),
    let lines := JsString.split newline text in
    locateTable lines = Some (tableStart, tableEnd, header) ->
    let updatedRows :=
      reconcile header roles quotes (dataRowsOf lines tableStart tableEnd) in
    let lines' :=
      JsString.split newline
        (updatedText lines tableStart tableEnd header updatedRows) in
    lines' = (take tableStart lines
                ++ serializeRow header :: lineAt lines (tableStart + 1)
                :: map serializeRow updatedRows ++ drop (tableEnd + 1) lines)%list
    /\ length lines' = length lines
    /\ (forall j, j < tableStart \/ tableEnd < j -> lines' !! j = lines !! j)
    /\ lines' !! (tableStart + 1) = lines !! (tableStart + 1).
Proof.
  intros text tableStart tableEnd header roles quotes lines Hloc updatedRows lines'.
  pose proof (LineFacts.updatedText_split text tableStart tableEnd header roles quotes
                Hloc) as E.
  fold lines updatedRows lines' in E.
  destruct (ScanFacts.locateTable_block lines tableStart tableEnd header Hloc)
    as (Hb & _ & _ & Hrows).
  assert (Hlen : length updatedRows = tableEnd - (tableStart + 1))
    by (unfold updatedRows; now rewrite TableFacts.length_reconcile).
  assert (Htake : length (take tableStart lines) = tableStart)
    by (rewrite length_take; lia).
  split; [exact E|].
  assert (E' : lines'
               = (take tableStart lines
                    ++ [serializeRow header; lineAt lines (tableStart + 1)]
                    ++ map serializeRow updatedRows ++ drop (tableEnd + 1) lines)%list)
    by exact E.
  clear E. split; [|split].
  - rewrite E', !length_app, Htake, length_fmap, Hlen, length_drop. cbn [length]. lia.
  - intros j [Hj|Hj]; rewrite E'.
    + rewrite lookup_app_l by lia. now apply lookup_take_lt.
    + rewrite lookup_app_r by lia. rewrite Htake.
      rewrite lookup_app_r by (cbn [length]; lia). cbn [length].
      rewrite lookup_app_r by (rewrite length_fmap; lia).
      rewrite length_fmap, Hlen, lookup_drop. f_equal. lia.
  - rewrite E'. rewrite lookup_app_r by lia. rewrite Htake.
    replace (tableStart + 1 - tableStart) with 1 by lia.
    rewrite lookup_app_l by (cbn [length]; lia).
    unfold lineAt.
    destruct (lines !! (tableStart + 1)) as [l|] eqn:El; [reflexivity|].
    apply lookup_ge_None in El. lia.
Qed.

Lemma update_keeps_the_lines_outside_the_table_witness :
  let text := "intro" ++ nl ++ "|Ticker|Shares|" ++ nl ++ "|---|---|" ++ nl
                ++ "|AAPL|10|" ++ nl ++ nl ++ "tail" in
  let lines := JsString.split newline text in
  JsString.split newline
    (updatedText lines 1 3 ["Ticker"; "Shares"]
       (reconcile ["Ticker"; "Shares"] (mkRoles 0 1 None None None) Examples.appleOnly
          (dataRowsOf lines 1 3)))
  = ["intro"; "| Ticker | Shares |"; "|---|---|"; "| AAPL | 10 |"; ""; "tail"].
Proof.
  intros text lines.
  exact (proj1 (update_keeps_the_lines_outside_the_table text 1 3 ["Ticker"; "Shares"]
                  (mkRoles 0 1 None None None) Examples.appleOnly eq_refl)).
Defined.

(** X28. With a selection the table command works on the selection
    alone: whatever it does, the text before and the text after the
    selection stay; either the editor is as it was, or a table was
    found in the selection and the selection is replaced by the
    updated text of the selection. Without a selection the whole text
    is searched and replaced. *)
Theorem selection_confines_the_update :
  forall respond dateParse (ed ed' : Editor) (w : World),
    fst (updatePortfolioTable respond dateParse (Some ed) w) = Some ed' ->
    let target :=
      if JsString.truthy (selected ed) then selected ed else EditorOps.getValue ed in
    let lines := JsString.split newline target in
    ed' = ed
    \/ exists tableStart tableEnd header roles quotes,
         locateTable lines = Some (tableStart, tableEnd, header)
         /\ resolveRoles header = Some roles
         /\ let updated :=
              updatedText lines tableStart tableEnd header
                (reconcile header roles quotes (dataRowsOf lines tableStart tableEnd)) in
            if JsString.truthy (selected ed)
            then ed' = mkEditor (textBefore ed ++ updated) EmptyString (textAfter ed)
            else EditorOps.getValue ed' = updated.
Proof.
  intros respond dateParse ed ed' w H target lines.
  unfold updatePortfolioTable in H. fold target lines in H. revert H.
  unfold EditorOps.getSelection. fold target. fold lines.
  destruct (locateTable lines) as [[[tableStart tableEnd] header]|] eqn:L;
    [|cbn; intros [= <-]; now left].
  destruct (resolveRoles header) as [roles|] eqn:R; [|cbn; intros [= <-]; now left].
  cbv zeta.
  destruct (symbolsOf roles (dataRowsOf lines tableStart tableEnd)) as [|sym syms];
    [cbn; intros [= <-]; now left|].
  unfold bind.
  destruct (fetchQuotes respond dateParse (sym :: syms) w) as [[e|quotes] w1];
    [cbn; intros [= <-]; now left|].
  intros H. right. exists tableStart, tableEnd, header, roles, quotes.
  split; [reflexivity|]. split; [exact R|]. cbv zeta.
  destruct (missingColumnsOf roles); cbn in H; injection H as <-;
    destruct (JsString.truthy (selected ed)); reflexivity.
Qed.

Lemma selection_confines_the_update_witness :
  let ed :=
    mkEditor ("| Fund | Qty |" ++ nl)
      ("|Ticker|Shares|" ++ nl ++ "|---|---|" ++ nl ++ "|AAPL|2|")
      (nl ++ "|---|---|") in
  let data :=
    JObj [("quoteResponse",
           JObj [("result",
                  JArr [JObj [("symbol", JStr "AAPL");
                              ("regularMarketPrice", JNum (ofZ 3))]])])] in
  let respond : list Request -> Request -> Thrown + Response :=
    fun _ _ => inr (mkResponse 200 EmptyString (inr data)) in
  let lines := JsString.split newline (selected ed) in
  exists ed',
    fst (updatePortfolioTable respond (fun _ => S754_nan) (Some ed) emptyWorld) = Some ed'
    /\ textAfter ed' = textAfter ed
    /\ (ed' = ed
        \/ exists tableStart tableEnd header roles quotes,
             locateTable lines = Some (tableStart, tableEnd, header)
             /\ resolveRoles header = Some roles
             /\ ed' = mkEditor
                        (textBefore ed
                           ++ updatedText lines tableStart tableEnd header
                                (reconcile header roles quotes
                                   (dataRowsOf lines tableStart tableEnd)))
                        EmptyString (textAfter ed)).
Proof.
  intros ed data respond lines.
  assert (H : exists ed',
             fst (updatePortfolioTable respond (fun _ => S754_nan) (Some ed) emptyWorld)
             = Some ed'
             /\ textAfter ed' = textAfter ed)
    by (eexists; split; vm_compute; reflexivity).
  destruct H as (ed' & H & Ha).
  exists ed'. split; [exact H|]. split; [exact Ha|].
  exact (selection_confines_the_update respond (fun _ => S754_nan) ed ed' emptyWorld H).
Defined.



(** X30. Updating twice is updating once. Take a text in which a
    table with the required columns is found. In the text the engine
    writes, the scan finds the table at the same lines with the
    same header, and updating that text again with the same quotes
    gives the same text. *)
Theorem update_twice_is_update_once :
  forall (text : string) (tableStart tableEnd : nat) (header : list string)
         (roles : Roles) (quotes : gmap string Quote),
    let lines := JsString.split newline text in
    locateTable lines = Some (tableStart, tableEnd, header) ->
    resolveRoles header = Some roles ->
    let updated :=
      updatedText lines tableStart tableEnd header
        (reconcile header roles quotes (dataRowsOf lines tableStart tableEnd)) in
    let lines' := JsString.split newline updated in
    locateTable lines' = Some (tableStart, tableEnd, header)
    /\ updatedText lines' tableStart tableEnd header
         (reconcile header roles quotes (dataRowsOf lines' tableStart tableEnd))
       = updated.
Proof.
  intros text tableStart tableEnd header roles quotes lines Hloc Hroles
    updated lines'.
  pose proof (LineFacts.updatedText_split text tableStart tableEnd header roles quotes
                Hloc) as Hsplit.
  fold lines in Hsplit. fold updated in Hsplit. fold lines' in Hsplit.
  pose proof (LocateFacts.locateFrom_sound _ _ _ _ _ Hloc)
    as (k & _ & _ & Hk & _ & _ & _ & _ & _ & _ & Hfirst).
  simpl in Hk. subst k.
  destruct (BlockFacts.located_parts lines tableStart tableEnd header Hloc)
    as (before & headerLine & sep & rowLines & after
        & Hlines & Hs & He & Hh & Hrow & Hsep & Hrows & Hafter).
  assert (Hsepline : lineAt lines (tableStart + 1) = sep).
  { rewrite Hlines, Hs. apply SerializeFacts.separator_kept. }
  assert (Hdata : dataRowsOf lines tableStart tableEnd = map splitRow rowLines).
  { rewrite Hlines, Hs, He. apply SerializeFacts.dataRowsOf_lines. }
  set (updatedRows := reconcile header roles quotes (map splitRow rowLines)).
  assert (Hlines' : lines'
                    = (before ++ serializeRow header :: sep
                         :: map serializeRow updatedRows ++ after)%list).
  { rewrite Hsplit, Hsepline, Hdata. fold updatedRows. f_equal.
    - rewrite Hlines, Hs. apply SerializeFacts.take_before.
    - do 3 f_equal. rewrite Hlines, He. apply SerializeFacts.drop_after. }
  assert (Hcount : length (map serializeRow updatedRows) = length rowLines).
  { unfold updatedRows.
    now rewrite length_fmap, TableFacts.length_reconcile, length_fmap. }
  assert (Hback : map splitRow (map serializeRow updatedRows) = updatedRows)
    by apply ReconcileFacts.readback.
  assert (Hheader : splitRow (serializeRow header) = header)
    by (rewrite Hh; apply RowFacts.splitRow_canonical).
  assert (Hloc' : locateTable lines' = Some (tableStart, tableEnd, header)).
  { rewrite Hlines'. unfold locateTable.
    rewrite LocateFacts.locateFrom_first.
    - rewrite LocateFacts.countRows_rows.
      + rewrite Hcount, Hheader. simpl. now rewrite Hs, He.
      + apply Forall_fmap, Forall_forall. intros row _.
        apply SerializeFacts.isTableRow_serializeRow.
      + exact Hafter.
    - apply SerializeFacts.isTableRow_serializeRow.
    - exact Hsep.
    - intros j a b Hj Ha Hb.
      rewrite lookup_app_l in Ha by exact Hj.
      assert (Ha' : lines !! j = Some a)
        by (rewrite Hlines; now rewrite lookup_app_l by exact Hj).
      destruct (decide (S j = length before)) as [Hlast|Hinner].
      + rewrite lookup_app_r in Hb by lia.
        replace (S j - length before) with 0 in Hb by lia.
        injection Hb as <-.
        rewrite (PatternFacts.header_not_separator header roles Hroles).
        apply andb_false_r.
      + rewrite lookup_app_l in Hb by lia.
        apply (Hfirst j a b); [lia|exact Ha'|].
        rewrite Hlines. now rewrite lookup_app_l by lia. }
  split; [exact Hloc'|].
  assert (Hdata' : dataRowsOf lines' tableStart tableEnd = updatedRows).
  { rewrite Hlines', Hs, He, <- Hcount, SerializeFacts.dataRowsOf_lines. exact Hback. }
  rewrite Hdata'.
  assert (Hidem : reconcile header roles quotes updatedRows = updatedRows).
  { apply ReconcileFacts.reconcile_idempotent.
    now apply RoleFacts.resolveRoles_Resolved. }
  rewrite Hidem. unfold updated. rewrite Hdata. fold updatedRows.
  rewrite Hlines', Hs, He, <- Hcount, SerializeFacts.updatedText_lines.
  rewrite Hlines, Hcount, SerializeFacts.updatedText_lines. reflexivity.
Qed.

Lemma update_twice_is_update_once_witness :
  let text := "Holdings" ++ nl ++ "|Ticker|Shares|Value|" ++ nl ++ "|---|---|---|" ++ nl
                ++ "|AAPL|10|" ++ nl ++ "|IBM|1|?|" in
  let header := ["Ticker"; "Shares"; "Value"] in
  let roles := mkRoles 0 1 None (Some 2) None in
  let lines := JsString.split newline text in
  let updated :=
    updatedText lines 1 4 header
      (reconcile header roles Examples.appleOnly (dataRowsOf lines 1 4)) in
  let lines' := JsString.split newline updated in
  updated = "Holdings" ++ nl ++ "| Ticker | Shares | Value |" ++ nl ++ "|---|---|---|" ++ nl
              ++ "| AAPL | 10 | 1,500.00 |" ++ nl ++ "| IBM | 1 | ? |"
  /\ locateTable lines' = Some (1, 4, header)
  /\ updatedText lines' 1 4 header
       (reconcile header roles Examples.appleOnly (dataRowsOf lines' 1 4))
     = updated.
Proof.
  intros text header roles lines updated lines'.
  split; [vm_compute; reflexivity|].
  exact (update_twice_is_update_once text 1 4 header roles Examples.appleOnly
           eq_refl eq_refl).
Defined.
